(** * Photography gulpfile: metadata reader, watermark bar and image pipeline

  A shallow embedding of the two gulpfiles of the repository.

  - [JsString] and [JsNumber] give the part of the JavaScript runtime the
    gulpfile calls: string primitives on byte strings, and IEEE-754
    binary64 numbers as [spec_float] at precision 53 with [Number(..)],
    [toFixed(1)], [Math.round], [Math.max] and number-to-string conversion.
  - [Exif] embeds [rationalToFloat] and the pure part of [readExif].
  - [Watermark] embeds the geometry, the text and the command of
    [addWatermark].
  - [Shell] is the world the task runs in: a file system, a log and an
    oracle that decides what each external command does.
  - [Pipeline] is the [resize-images] task with the watermark, and
    [Legacy] the older task of [gulpfile.js].
  - [Del], [Resize] and [LegacyResize] are the [delete] task and the
    [resize] series of the two gulpfiles. *)

From Stdlib Require Import ZArith Lia List Bool Ascii String.
From Stdlib Require Import Floats.SpecFloat.
From Stdlib Require DecimalString DecimalPos.
From stdpp Require Import gmap strings list fin_maps.
Import ListNotations.

Local Open Scope Z_scope.

(** ** Strings *)

Module JsString.

Definition dquote : string := String (ascii_of_nat 34) EmptyString.
Definition newline : string := String (ascii_of_nat 10) EmptyString.

(** [!s] on a string: only the empty string is falsy. *)
Definition truthy (s : string) : bool :=
  match s with EmptyString => false | String _ _ => true end.

(** A destructured array element may be [undefined]; [None] stands for it. *)
Definition truthy_opt (o : option string) : bool :=
  match o with Some s => truthy s | None => false end.

(** [o || d] for a possibly undefined string. *)
Definition or_default (o : option string) (d : string) : string :=
  match o with
  | Some s => if truthy s then s else d
  | None => d
  end.

(** White space removed by [trim] and matched by [\s]: the ASCII members of
    the ECMAScript WhiteSpace and LineTerminator classes. *)
Definition is_white (c : ascii) : bool := Ascii.is_space c.

Fixpoint trimStart (s : string) : string :=
  match s with
  | EmptyString => EmptyString
  | String c r => if is_white c then trimStart r else s
  end.

Fixpoint trimEnd (s : string) : string :=
  match s with
  | EmptyString => EmptyString
  | String c r =>
      match trimEnd r with
      | EmptyString => if is_white c then EmptyString else String c EmptyString
      | r' => String c r'
      end
  end.

Definition trim (s : string) : string := trimEnd (trimStart s).

(** [s.includes(c)] for a one-character needle. *)
Fixpoint includes (c : ascii) (s : string) : bool :=
  match s with
  | EmptyString => false
  | String d r => if Ascii.eqb d c then true else includes c r
  end.

(** [s.split(c)] for a one-character separator: never the empty array. *)
Fixpoint split (c : ascii) (s : string) : list string :=
  match s with
  | EmptyString => [EmptyString]
  | String d r =>
      if Ascii.eqb d c then EmptyString :: split c r
      else match split c r with
           | x :: xs => String d x :: xs
           | [] => [String d EmptyString]
           end
  end.

(** [s.split(/\s+/)]: a run of white space is one separator. *)
Fixpoint split_ws_aux (in_run : bool) (s : string) : list string :=
  match s with
  | EmptyString => [EmptyString]
  | String d r =>
      if is_white d then
        if in_run then split_ws_aux true r
        else EmptyString :: split_ws_aux true r
      else match split_ws_aux false r with
           | x :: xs => String d x :: xs
           | [] => [String d EmptyString]
           end
  end.

Definition split_ws (s : string) : list string := split_ws_aux false s.

(** [l.join(sep)]. *)
Fixpoint join (sep : string) (l : list string) : string :=
  match l with
  | [] => EmptyString
  | [x] => x
  | x :: xs => x +:+ sep +:+ join sep xs
  end.

(** [s.replace(/\.0$/, '')]. *)
Fixpoint strip_dot0 (s : string) : string :=
  match s with
  | EmptyString => EmptyString
  | String c r =>
      if String.eqb s ".0" then EmptyString else String c (strip_dot0 r)
  end.

(** The escaping of the annotate text: every double quote and every
    backslash gets a backslash in front. *)
Fixpoint escape_quotes (s : string) : string :=
  match s with
  | EmptyString => EmptyString
  | String c r =>
      if Ascii.eqb c (ascii_of_nat 34) || Ascii.eqb c "\"%char
      then String "\"%char (String c (escape_quotes r))
      else String c (escape_quotes r)
  end.

(** ASCII lower-casing, for the [i] flag of the extension test. *)
Definition lower (c : ascii) : ascii :=
  let n := nat_of_ascii c in
  if (Nat.leb 65 n && Nat.leb n 90)%bool then ascii_of_nat (n + 32) else c.

Fixpoint lower_string (s : string) : string :=
  match s with
  | EmptyString => EmptyString
  | String c r => String (lower c) (lower_string r)
  end.

Fixpoint ends_with (suffix s : string) : bool :=
  if String.eqb s suffix then true
  else match s with
       | EmptyString => false
       | String _ r => ends_with suffix r
       end.

End JsString.

(** ** Numbers

  A JavaScript Number is an IEEE-754 binary64 value: [spec_float] at
  precision 53 and maximal exponent 1024.  Arithmetic is the correctly
  rounded arithmetic of [SpecFloat]; comparison is by value. *)

Module JsNumber.
Import JsString.

Definition num : Type := spec_float.
Definition prec : Z := 53.
Definition emax : Z := 1024.

Definition NaN : num := S754_nan.
Definition pos_zero : num := S754_zero false.

(** The Number nearest to an integer. *)
Definition of_Z (z : Z) : num := binary_normalize prec emax z 0 false.

(** The Number nearest to [p / q]. *)
Definition of_ratio (neg : bool) (p q : positive) : num :=
  SFdiv prec emax (S754_finite neg p 0) (S754_finite false q 0).

(** The Number nearest to [m * 10 ^ e10], the value of a decimal literal. *)
Definition of_decimal (neg : bool) (m e10 : Z) : num :=
  match m with
  | Zpos p =>
      if 0 <=? e10
      then binary_normalize prec emax (cond_Zopp neg (Zpos p * 10 ^ e10)) 0 false
      else of_ratio neg p (Z.to_pos (10 ^ (- e10)))
  | _ => S754_zero neg
  end.

Definition add : num -> num -> num := SFadd prec emax.
Definition sub : num -> num -> num := SFsub prec emax.
Definition mul : num -> num -> num := SFmul prec emax.
Definition div : num -> num -> num := SFdiv prec emax.
Definition neg : num -> num := SFopp.

(** The signed mantissa of [m * 2 ^ e] once written with exponent [ez <= e]. *)
Definition aligned (s : bool) (m : positive) (e ez : Z) : Z :=
  cond_Zopp s (Zpos (fst (shl_align m e ez))).

Definition compare (x y : num) : option comparison :=
  match x, y with
  | S754_nan, _ | _, S754_nan => None
  | S754_infinity s1, S754_infinity s2 =>
      Some match s1, s2 with
           | true, true | false, false => Eq
           | true, false => Lt
           | false, true => Gt
           end
  | S754_infinity s, _ => Some (if s then Lt else Gt)
  | _, S754_infinity s => Some (if s then Gt else Lt)
  | S754_finite s _ _, S754_zero _ => Some (if s then Lt else Gt)
  | S754_zero _, S754_finite s _ _ => Some (if s then Gt else Lt)
  | S754_zero _, S754_zero _ => Some Eq
  | S754_finite s1 m1 e1, S754_finite s2 m2 e2 =>
      let ez := Z.min e1 e2 in
      Some (Z.compare (aligned s1 m1 e1 ez) (aligned s2 m2 e2 ez))
  end.

(** [x < y], [x > y], [x >= y]: all false when an operand is NaN. *)
Definition ltb (x y : num) : bool :=
  match compare x y with Some Lt => true | _ => false end.
Definition gtb (x y : num) : bool := ltb y x.
Definition geb (x y : num) : bool :=
  match compare x y with Some (Gt | Eq) => true | _ => false end.

(** [Number.isFinite]. *)
Definition isFinite (x : num) : bool :=
  match x with
  | S754_zero _ | S754_finite _ _ _ => true
  | _ => false
  end.

(** ToBoolean on a Number: zero and NaN are falsy. *)
Definition truthy (x : num) : bool :=
  match x with
  | S754_zero _ | S754_nan => false
  | _ => true
  end.

(** [o || d] for an optional numeric argument. *)
Definition or_default (o : option num) (d : num) : num :=
  match o with
  | Some x => if truthy x then x else d
  | None => d
  end.

(** [Math.max] of two Numbers: NaN wins, and [+0] is larger than [-0]. *)
Definition Math_max (a b : num) : num :=
  match compare a b with
  | None => NaN
  | Some Lt => b
  | Some Gt => a
  | Some Eq => match a with S754_zero true => b | _ => a end
  end.

(** [Math.round]: the nearest integer, a tie going up; a value that rounds
    to zero keeps its sign. *)
Definition Math_round (x : num) : num :=
  match x with
  | S754_finite s m (Zneg k) =>
      let d := 2 ^ Zpos k in
      let v := cond_Zopp s (Zpos m) in
      if v mod d =? 0 then x
      else match (2 * v + d) / (2 * d) with
           | Z0 => S754_zero s
           | r => of_Z r
           end
  | _ => x
  end.

(** *** Number to string *)

Definition digit_char (d : Z) : ascii := ascii_of_nat (48 + Z.to_nat d).

Fixpoint digits_aux (fuel : nat) (n : Z) (acc : string) : string :=
  match fuel with
  | O => acc
  | S f =>
      let acc' := String (digit_char (n mod 10)) acc in
      if n <? 10 then acc' else digits_aux f (n / 10) acc'
  end.

(** The decimal digits of a natural number. *)
Definition digits (n : Z) : string :=
  digits_aux (S (Z.to_nat (Z.log2 n))) n EmptyString.

Fixpoint zeros (n : nat) : string :=
  match n with O => EmptyString | S k => String "0" (zeros k) end.

Definition slen (s : string) : Z := Z.of_nat (String.length s).
Definition ssub (from len : Z) (s : string) : string :=
  String.substring (Z.to_nat from) (Z.to_nat len) s.

(** [p / q < 10 ^ n]. *)
Definition below_pow10 (p q n : Z) : bool :=
  if 0 <=? n then p <? q * 10 ^ n else p * 10 ^ (- n) <? q.

(** The least [n] from [n0] on with [p / q < 10 ^ n]. *)
Fixpoint decimal_exponent (fuel : nat) (p q n0 : Z) : Z :=
  match fuel with
  | O => n0
  | S f => if below_pow10 p q n0 then n0 else decimal_exponent f p q (n0 + 1)
  end.

(** [floor (p / q / 10 ^ j)]. *)
Definition scaled_floor (p q j : Z) : Z :=
  if 0 <=? j then p / (q * 10 ^ j) else (p * 10 ^ (- j)) / q.

(** [p / q] against the middle of [lo * 10 ^ j] and [(lo + 1) * 10 ^ j]. *)
Definition against_middle (p q lo j : Z) : comparison :=
  if 0 <=? j then Z.compare (2 * p) ((2 * lo + 1) * 10 ^ j * q)
  else Z.compare (2 * p * 10 ^ (- j)) ((2 * lo + 1) * q).

Definition same (x y : num) : bool :=
  match x, y with
  | S754_zero a, S754_zero b => Bool.eqb a b
  | S754_infinity a, S754_infinity b => Bool.eqb a b
  | S754_nan, S754_nan => true
  | S754_finite a m e, S754_finite b m' e' =>
      Bool.eqb a b && Pos.eqb m m' && Z.eqb e e'
  | _, _ => false
  end.

(** The shortest decimal [s * 10 ^ (n - k)] that reads back as [x], for the
    positive [x = p / q] with [10 ^ (n0 - 1) <= x < 10 ^ n0]: the digit
    count [k] grows until a neighbour of [x] with [k] digits rounds to [x];
    of two such neighbours the closer one is taken, the even one at a tie. *)
Fixpoint shortest (fuel : nat) (x : num) (p q n0 k : Z) : Z * Z :=
  let j := n0 - k in
  let lo := scaled_floor p q j in
  let hi := lo + 1 in
  let pick (s : Z) := if s =? 10 ^ k then (10 ^ (k - 1), n0 + 1) else (s, n0) in
  match fuel with
  | O => pick lo
  | S f =>
      match same (of_decimal false lo j) x, same (of_decimal false hi j) x with
      | true, true =>
          match against_middle p q lo j with
          | Lt => pick lo
          | Gt => pick hi
          | Eq => if Z.even lo then pick lo else pick hi
          end
      | true, false => pick lo
      | false, true => pick hi
      | false, false => shortest f x p q n0 (k + 1)
      end
  end.

(** The layout of Number::toString for the digits [ds] of [s] and the
    decimal point position [n]. *)
Definition layout (ds : string) (n : Z) : string :=
  let k := slen ds in
  if (k <=? n) && (n <=? 21) then ds +:+ zeros (Z.to_nat (n - k))
  else if (0 <? n) && (n <=? 21) then ssub 0 n ds +:+ "." +:+ ssub n (k - n) ds
  else if (-6 <? n) && (n <=? 0) then "0." +:+ zeros (Z.to_nat (- n)) +:+ ds
  else
    let e := n - 1 in
    let es := (if e <? 0 then "-" else "+") +:+ digits (Z.abs e) in
    if k =? 1 then ds +:+ "e" +:+ es
    else ssub 0 1 ds +:+ "." +:+ ssub 1 (k - 1) ds +:+ "e" +:+ es.

(** The exact value of a finite magnitude as a fraction. *)
Definition fraction (m : positive) (e : Z) : Z * Z :=
  match e with
  | Zneg k => (Zpos m, 2 ^ Zpos k)
  | _ => (Zpos m * 2 ^ e, 1)
  end.

(** Number::toString in radix 10, what a template literal applies. *)
Definition toString (x : num) : string :=
  match x with
  | S754_nan => "NaN"
  | S754_zero _ => "0"
  | S754_infinity s => if s then "-Infinity" else "Infinity"
  | S754_finite s m e =>
      let '(p, q) := fraction m e in
      let n0 := decimal_exponent 700 p q (-330) in
      let '(d, n) := shortest 17 (S754_finite false m e) p q n0 1 in
      (if s then "-" else "") +:+ layout (digits d) n
  end.

(** [x.toFixed(1)]. *)
Definition toFixed1 (x : num) : string :=
  match x with
  | S754_zero _ => "0.0"
  | S754_finite s m e =>
      let '(p, q) := fraction m e in
      if 10 ^ 21 * q <=? p then toString x
      else
        let n := (20 * p + q) / (2 * q) in
        (if s then "-" else "") +:+ digits (n / 10) +:+ "." +:+ digits (n mod 10)
  | _ => toString x
  end.

(** *** String to number *)

Definition digit_of (base : Z) (c : ascii) : option Z :=
  let n := Z.of_nat (nat_of_ascii c) in
  let v := if (48 <=? n) && (n <=? 57) then n - 48
           else if (97 <=? n) && (n <=? 102) then n - 87
           else if (65 <=? n) && (n <=? 70) then n - 55
           else base in
  if v <? base then Some v else None.

(** The states of the scanner of an unsigned decimal literal. *)
Inductive scan :=
| ScanInt (m : Z) (seen : bool)
| ScanFrac (m f : Z) (seen : bool)
| ScanExpStart (m f : Z)
| ScanExpSign (m f : Z) (eneg : bool)
| ScanExp (m f : Z) (eneg : bool) (ev : Z)
| ScanFail.

Definition is_e (c : ascii) : bool := Ascii.eqb c "e" || Ascii.eqb c "E".

Definition scan_step (st : scan) (c : ascii) : scan :=
  match st, digit_of 10 c with
  | ScanInt m _, Some d => ScanInt (10 * m + d) true
  | ScanInt m seen, None =>
      if Ascii.eqb c "." then ScanFrac m 0 seen
      else if is_e c && seen then ScanExpStart m 0
      else ScanFail
  | ScanFrac m f _, Some d => ScanFrac (10 * m + d) (f + 1) true
  | ScanFrac m f seen, None =>
      if is_e c && seen then ScanExpStart m f else ScanFail
  | ScanExpStart m f, Some d => ScanExp m f false d
  | ScanExpStart m f, None =>
      if Ascii.eqb c "+" then ScanExpSign m f false
      else if Ascii.eqb c "-" then ScanExpSign m f true
      else ScanFail
  | ScanExpSign m f eneg, Some d => ScanExp m f eneg d
  | ScanExp m f eneg ev, Some d => ScanExp m f eneg (10 * ev + d)
  | _, _ => ScanFail
  end.

Fixpoint scan_run (st : scan) (s : string) : scan :=
  match s with
  | EmptyString => st
  | String c r => scan_run (scan_step st c) r
  end.

(** Mantissa and decimal exponent of an accepted literal. *)
Definition scan_result (st : scan) : option (Z * Z) :=
  match st with
  | ScanInt m true => Some (m, 0)
  | ScanFrac m f true => Some (m, - f)
  | ScanExp m f eneg ev => Some (m, (if eneg then - ev else ev) - f)
  | _ => None
  end.

Fixpoint radix_run (base : Z) (acc : option Z) (s : string) : option Z :=
  match s with
  | EmptyString => acc
  | String c r =>
      match acc, digit_of base c with
      | Some a, Some d => radix_run base (Some (base * a + d)) r
      | _, _ => None
      end
  end.

Definition radix_of (c : ascii) : option Z :=
  if Ascii.eqb c "x" || Ascii.eqb c "X" then Some 16
  else if Ascii.eqb c "o" || Ascii.eqb c "O" then Some 8
  else if Ascii.eqb c "b" || Ascii.eqb c "B" then Some 2
  else None.

(** [0x..], [0o..] and [0b..] literals. *)
Definition radix_literal (t : string) : option Z :=
  match t with
  | String "0" (String c (String d r)) =>
      match radix_of c with
      | Some base => radix_run base (Some 0) (String d r)
      | None => None
      end
  | _ => None
  end.

(** [Number(s)]: white space is trimmed, the empty string is [+0], anything
    that is not a numeric literal is NaN. *)
Definition Number (s : string) : num :=
  match trim s with
  | EmptyString => S754_zero false
  | String c r =>
      let signed := Ascii.eqb c "+" || Ascii.eqb c "-" in
      let body := if signed then r else String c r in
      if String.eqb body "Infinity" then S754_infinity (Ascii.eqb c "-")
      else match scan_result (scan_run (ScanInt 0 false) body) with
           | Some (m, e10) => of_decimal (Ascii.eqb c "-") m e10
           | None =>
               if signed then NaN
               else match radix_literal (String c r) with
                    | Some z => of_Z z
                    | None => NaN
                    end
           end
  end.

(** Numeric literals of the source. *)
Definition lit_0 : num := Eval vm_compute in Number "0".
Definition lit_1 : num := Eval vm_compute in Number "1".
Definition lit_2 : num := Eval vm_compute in Number "2".
Definition lit_14 : num := Eval vm_compute in Number "14".
Definition lit_50 : num := Eval vm_compute in Number "50".
Definition lit_0_028 : num := Eval vm_compute in Number "0.028".
Definition lit_2_2 : num := Eval vm_compute in Number "2.2".
Definition lit_0_35 : num := Eval vm_compute in Number "0.35".

(** [Math.SQRT2], the Number nearest to the square root of two. *)
Definition Math_SQRT2 : num := Eval vm_compute in SFsqrt prec emax lit_2.

End JsNumber.

(** ** Metadata: [rationalToFloat] and [readExif] *)

Module Exif.
Import JsString JsNumber.

(** [Math.pow] is approximated by the implementation; the model takes it
    as it comes. *)
Class MathLib := { Math_pow : num -> num -> num }.

(** [function rationalToFloat(s)]: [None] is [null]. *)
Definition rationalToFloat (s : string) : option num :=
  if negb (JsString.truthy s) then None
  else
    let ratio :=
      if includes "/" s then
        match map Number (split "/" s) with
        | a :: b :: _ => if JsNumber.truthy b then Some (div a b) else None
        | _ => None
        end
      else None in
    match ratio with
    | Some r => Some r
    | None => let n := Number s in if isFinite n then Some n else None
    end.

Record MetadataRecord := {
  model : string;
  fNumber : string;
  exposure : string;
  iso : string
}.

(** [x.toFixed(1).replace(/\.0$/, '')]. *)
Definition fixed1 (x : num) : string := strip_dot0 (toFixed1 x).

(** The seven fields of the format string, in order. *)
Definition exif_format : string :=
  join "|" [ "%[EXIF:Model]"; "%[EXIF:FNumber]"; "%[EXIF:ApertureValue]";
             "%[EXIF:ExposureTime]"; "%[EXIF:ShutterSpeedValue]";
             "%[EXIF:ISOSpeedRatings]"; "%[EXIF:PhotographicSensitivity]" ].

(** The destructured output of the query: a missing element is [None]. *)
Definition exif_fields (stdout : string) : list string :=
  map trim (split "|" (trim stdout)).

Section WithMath.
Context `{MathLib}.

(** The body of [readExif] after the query has returned [stdout]. *)
Definition exif_of_stdout (stdout : string) : MetadataRecord :=
  let fields := exif_fields stdout in
  let model := fields !! 0%nat in
  let fnum := fields !! 1%nat in
  let av := fields !! 2%nat in
  let exp := fields !! 3%nat in
  let ssv := fields !! 4%nat in
  let isoA := fields !! 5%nat in
  let isoB := fields !! 6%nat in
  (* F-number *)
  let fNumber := fnum in
  let fNumber :=
    if negb (truthy_opt fNumber) && truthy_opt av then
      match av ≫= rationalToFloat with
      | Some avFloat => Some (fixed1 (Math_pow Math_SQRT2 avFloat))
      | None => fNumber
      end
    else fNumber in
  let fNumber :=
    match fNumber with
    | Some f =>
        if JsString.truthy f && includes "/" f then
          match rationalToFloat f with
          | Some rf => Some (fixed1 rf)
          | None => fNumber
          end
        else fNumber
    | None => fNumber
    end in
  (* Exposure *)
  let exposure := exp in
  let exposure :=
    if negb (truthy_opt exposure) && truthy_opt ssv then
      match ssv ≫= rationalToFloat with
      | Some tv =>
          let t := Math_pow lit_2 (neg tv) in
          Some (if ltb t lit_1
                then "1/" +:+ toString (Math_round (div lit_1 t))
                else fixed1 t +:+ "s")
      | None => exposure
      end
    else exposure in
  let exposure :=
    match exposure with
    | Some e =>
        if JsString.truthy e && negb (includes "/" e) then
          let t := Number e in
          if isFinite t then
            Some (if ltb t lit_1
                  then "1/" +:+ toString (Math_round (div lit_1 t))
                  else toString t +:+ "s")
          else exposure
        else exposure
    | None => exposure
    end in
  let iso := JsString.or_default isoA (JsString.or_default isoB "") in
  {| model := JsString.or_default model "Camera";
     fNumber := JsString.or_default fNumber "";
     exposure := JsString.or_default exposure "";
     iso := iso |}.

End WithMath.

(** The integer a finite Number is, when it is one. *)
Definition integral (m : positive) (e : Z) : option Z :=
  match e with
  | Zneg k => if Zpos m mod 2 ^ Zpos k =? 0 then Some (Zpos m / 2 ^ Zpos k)
              else None
  | _ => Some (Zpos m * 2 ^ e)
  end.

(** An instance to run the model on: [Math.pow] of a positive base to an
    integral exponent, correctly rounded from the exact power; NaN
    elsewhere. *)
Definition pow_integral (b x : num) : num :=
  match b, x with
  | S754_finite false _ _, S754_zero _ => lit_1
  | S754_finite false mb eb, S754_finite s m e =>
      match integral m e with
      | Some n =>
          let k := eb * n in
          let up := Z.to_pos (if 0 <=? k then Zpos mb ^ n * 2 ^ k else Zpos mb ^ n) in
          let down := Z.to_pos (if 0 <=? k then 1 else 2 ^ (- k)) in
          if s then of_ratio false down up else of_ratio false up down
      | None => NaN
      end
  | _, _ => NaN
  end.

End Exif.

(** ** Watermark: geometry, text and command of [addWatermark] *)

Module Watermark.
Import JsString JsNumber Exif.

(** ToNumber of a possibly undefined Number. *)
Definition to_num (o : option num) : num := default NaN o.

(** A possibly undefined Number inside a template literal. *)
Definition show (o : option num) : string :=
  match o with Some x => toString x | None => "undefined" end.

(** The result of [imageDims]: the second number may be missing. *)
Record dims := { w : option num; h : option num }.

Definition dims_of_stdout (stdout : string) : dims :=
  let toks :=
    map Number
        (split_ws (trim (if JsString.truthy stdout then stdout else "0 0"))) in
  {| w := toks !! 0%nat; h := toks !! 1%nat |}.

Record bar := { ps : num; barHeight : num; y0 : num }.

Definition geometry (d : dims) (pointSizeOverride : option num) : bar :=
  let ps :=
    JsNumber.or_default pointSizeOverride
      (Math_max lit_14 (Math_round (mul (to_num (w d)) lit_0_028))) in
  let barHeight := Math_max lit_50 (Math_round (mul ps lit_2_2)) in
  let y0 := Math_max lit_0 (sub (to_num (h d)) barHeight) in
  {| ps := ps; barHeight := barHeight; y0 := y0 |}.

(** The fragments before [filter(Boolean)]: [None] is [null]. *)
Definition parts (exifInfo : MetadataRecord) : list (option string) :=
  [ Some ("📷 " +:+ model exifInfo);
    if JsString.truthy (fNumber exifInfo)
    then Some ("● f/" +:+ fNumber exifInfo) else None;
    if JsString.truthy (exposure exifInfo)
    then Some ("● " +:+ exposure exifInfo) else None;
    if JsString.truthy (iso exifInfo)
    then Some ("● ISO " +:+ iso exifInfo) else None ].

(** [l.filter(Boolean)]: drops [null] and the empty string. *)
Fixpoint filter_Boolean (l : list (option string)) : list string :=
  match l with
  | [] => []
  | Some s :: r => if JsString.truthy s then s :: filter_Boolean r
                   else filter_Boolean r
  | None :: r => filter_Boolean r
  end.

Definition separator : string := "   ".

Definition text (exifInfo : MetadataRecord) : string :=
  join separator (filter_Boolean (parts exifInfo)).

(** The arguments of the compositing command between the quoted input and
    output paths. *)
Definition composite_args (d : dims) (g : bar) (text : string) : string :=
  join " "
    [ "-fill " +:+ dquote +:+ "#00000080" +:+ dquote;
      "-draw " +:+ dquote +:+ "rectangle 0," +:+ toString (y0 g) +:+ " "
        +:+ show (w d) +:+ "," +:+ show (h d) +:+ dquote;
      "-gravity southwest";
      "-pointsize " +:+ toString (ps g);
      "-kerning 1";
      "-fill white";
      "-annotate +20+" +:+ toString (Math_round (mul (barHeight g) lit_0_35))
        +:+ " " +:+ dquote +:+ escape_quotes text +:+ dquote ].

End Watermark.

(** ** The world of the task: external commands, files and the log *)

Module Shell.
Import JsString.

(** The command lines the two gulpfiles hand to [execAsync]. *)
Inductive command :=
| Version
| ReadMetadata (path : string)
| ReadDims (path : string)
| Verify (tool path : string)
| Convert (tool src args dst : string).

Definition quoted (s : string) : string := dquote +:+ s +:+ dquote.

Definition command_line (c : command) : string :=
  match c with
  | Version => "magick -version"
  | ReadMetadata p =>
      "magick identify -format " +:+ quoted Exif.exif_format +:+ " " +:+ quoted p
  | ReadDims p => "magick identify -format " +:+ quoted "%w %h" +:+ " " +:+ quoted p
  | Verify tool p => tool +:+ " -verbose " +:+ quoted p
  | Convert tool src args dst =>
      tool +:+ " " +:+ quoted src +:+ " " +:+ args +:+ " " +:+ quoted dst
  end.

(** The file a command writes when it succeeds. *)
Definition target (c : command) : option string :=
  match c with
  | Convert _ _ _ dst => Some dst
  | _ => None
  end.

(** What a command does: it is rejected with an error message, or it
    resolves with its standard output. *)
Inductive outcome := Fails (message : string) | Succeeds (stdout : string).

(** The image toolchain: the outcome of the [n]-th command of the run. *)
Class Toolchain := { run : nat -> command -> outcome }.

Inductive content := Image (made_by : command) | Text (payload : string).

Inductive level := Info | Warn | Error.

(** The lines the tasks log. *)
Inductive notice :=
| MissingDirectory
| NoImages
| Count (n : nat)
| Processing (file : string)
| Verified (file : string)
| CreatedFull (file : string)
| CreatedThumb (file : string)
| Done (file : string)
| Failed (file message : string)
| Fallback (file : string)
| TryingFallback (file : string)
| FallbackSucceeded (file : string)
| FallbackSucceededFor (file : string)
| FallbackFailed (file message : string)
| Finished.

Definition notice_level (n : notice) : level :=
  match n with
  | MissingDirectory | Failed _ _ | FallbackFailed _ _ => Error
  | NoImages | Fallback _ | TryingFallback _ => Warn
  | _ => Info
  end.

Definition notice_text (n : notice) : string :=
  match n with
  | MissingDirectory => "❌ Images directory missing"
  | NoImages => "⚠️ No images found in images/ directory"
  | Count n =>
      "🔄 Processing " +:+ JsNumber.toString (JsNumber.of_Z (Z.of_nat n))
        +:+ " images..."
  | Processing file => "Processing " +:+ file +:+ "..."
  | Verified file => "✅ Verified: " +:+ file
  | CreatedFull file => "✅ Created full size: " +:+ file
  | CreatedThumb file => "✅ Created thumbnail: " +:+ file
  | Done file => "✅ Done: " +:+ file
  | Failed file message => "❌ Failed to process " +:+ file +:+ ": " +:+ message
  | Fallback file =>
      "⚠️ Fallback (direct resize + watermark) for " +:+ file +:+ "..."
  | TryingFallback file => "⚠️ Trying fallback method for " +:+ file +:+ "..."
  | FallbackSucceeded file => "✅ Fallback succeeded: " +:+ file
  | FallbackSucceededFor file => "✅ Fallback succeeded for " +:+ file
  | FallbackFailed file message =>
      "❌ Fallback failed for " +:+ file +:+ ": " +:+ message
  | Finished => "🎉 Finished processing all images"
  end.

Inductive event :=
| Exec (c : command) (o : outcome)
| Log (n : notice)
| Copied (src dst : string)
| Unlinked (path : string)
| Written (path payload : string)
| MadeDir (path : string).

Record world := {
  files : gmap string content;
  dirs : gset string;
  images : option (list string);
  clock : nat
}.

Definition set_files (f : gmap string content) (w : world) : world :=
  {| files := f; dirs := dirs w; images := images w; clock := clock w |}.

(** A thrown error is its message. *)
Inductive result (A : Type) := Return (a : A) | Throw (message : string).
Arguments Return {A} a.
Arguments Throw {A} message.

(** Computations: the world is threaded, events are collected, and a
    throw skips the rest. *)
Definition M (A : Type) : Type := world -> result A * world * list event.

Definition ret {A} (a : A) : M A := fun w => (Return a, w, []).

Definition throw {A} (message : string) : M A := fun w => (Throw message, w, []).

Definition bind {A B} (m : M A) (k : A -> M B) : M B := fun w =>
  match m w with
  | (Return a, w1, t1) =>
      match k a w1 with (r, w2, t2) => (r, w2, t1 ++ t2) end
  | (Throw e, w1, t1) => (Throw e, w1, t1)
  end.

(** [try { m } catch (err) { handler(err.message) }]. *)
Definition try_catch {A} (m : M A) (handler : string -> M A) : M A := fun w =>
  match m w with
  | (Throw e, w1, t1) =>
      match handler e w1 with (r, w2, t2) => (r, w2, t1 ++ t2) end
  | done => done
  end.

Declare Scope shell_scope.
Delimit Scope shell_scope with shell.
Notation "'let*' x := m 'in' k" := (bind m (fun x => k))
  (at level 10, x name, m at level 100, k at level 200,
   format "'[v' 'let*'  x  :=  m  'in' '/' k ']'") : shell_scope.

(** [log.info], [log.warn] or [log.error], by the level of the notice. *)
Definition log (n : notice) : M unit := fun w => (Return tt, w, [Log n]).

Section WithToolchain.
Context `{Toolchain}.

(** [await execAsync(line)]: resolves to the standard output or throws. *)
Definition execAsync (c : command) : M string := fun w =>
  let o := run (clock w) c in
  let w1 := {| files := files w; dirs := dirs w; images := images w;
               clock := S (clock w) |} in
  match o with
  | Succeeds stdout =>
      (Return stdout,
       match target c with
       | Some dst => set_files (<[dst := Image c]> (files w)) w1
       | None => w1
       end,
       [Exec c o])
  | Fails message => (Throw message, w1, [Exec c o])
  end.
End WithToolchain.

Definition existsSync (p : string) : M bool := fun w =>
  (Return (bool_decide (is_Some (files w !! p)) || bool_decide (p ∈ dirs w)),
   w, []).

Definition unlinkSync (p : string) : M unit := fun w =>
  match files w !! p with
  | Some _ => (Return tt, set_files (delete p (files w)) w, [Unlinked p])
  | None =>
      (Throw ("ENOENT: no such file or directory, unlink '" +:+ p +:+ "'"), w, [])
  end.

Definition copyFileSync (src dst : string) : M unit := fun w =>
  match files w !! src with
  | Some c => (Return tt, set_files (<[dst := c]> (files w)) w, [Copied src dst])
  | None =>
      (Throw ("ENOENT: no such file or directory, copyfile '" +:+ src
                +:+ "' -> '" +:+ dst +:+ "'"), w, [])
  end.

(** Writing a placeholder into an output directory that exists. *)
Definition writeFileSync (p payload : string) : M unit := fun w =>
  (Return tt, set_files (<[p := Text payload]> (files w)) w, [Written p payload]).

Definition mkdirSync (p : string) : M unit := fun w =>
  (Return tt,
   {| files := files w; dirs := {[p]} ∪ dirs w; images := images w;
      clock := clock w |},
   [MadeDir p]).

(** [fs.readdirSync('images')]. *)
Definition readdirSync_images : M (list string) := fun w =>
  match images w with
  | Some names => (Return names, w, [])
  | None =>
      (Throw "ENOENT: no such file or directory, scandir 'images'", w, [])
  end.

(** [fs.existsSync('images')]. *)
Definition existsSync_images : M bool := fun w =>
  (Return (bool_decide (is_Some (images w))), w, []).

(** [for (const x of l) { body(x) }]. *)
Fixpoint for_each {A} (l : list A) (body : A -> M unit) : M unit :=
  match l with
  | [] => ret tt
  | x :: r => bind (body x) (fun _ => for_each r body)
  end.

(** [path.join(dir, name)] for a plain directory and an entry name. *)
Definition path_join (dir name : string) : string := dir +:+ "/" +:+ name.

(** [/\.(jpg|jpeg|png|gif|webp)$/i.test(f)]. *)
Definition is_image (f : string) : bool :=
  let l := lower_string f in
  existsb (fun ext => ends_with ext l) [".jpg"; ".jpeg"; ".png"; ".gif"; ".webp"].

(** The placeholder written in place of both outputs. *)
Definition placeholder (file message : string) : string :=
  "ERROR PROCESSING: " +:+ file +:+ newline +:+ message.

End Shell.

(** ** The [resize-images] task with the watermark *)

Module Pipeline.
Import JsString JsNumber Exif Watermark Shell.
Local Open Scope shell_scope.

Definition orig (file : string) : string := path_join "images" file.
Definition temp (file : string) : string := path_join "images" ("temp_" +:+ file).
Definition outFull (file : string) : string := path_join "images/fulls" file.
Definition outThumb (file : string) : string := path_join "images/thumbs" file.
Definition tempFull (file : string) : string :=
  path_join "images" ("temp_full_" +:+ file).
Definition tempThumb (file : string) : string :=
  path_join "images" ("temp_thumb_" +:+ file).

Definition magick_missing : string :=
  "❌ ImageMagick not found. Install it and ensure `magick` is on PATH.".

Section Task.
Context `{MathLib} `{Toolchain}.

Definition ensureMagick : M unit :=
  try_catch (let* _ := execAsync Version in ret tt)
            (fun _ => throw magick_missing).

Definition readExif (origPath : string) : M MetadataRecord :=
  let* stdout := execAsync (ReadMetadata origPath) in
  ret (exif_of_stdout stdout).

Definition imageDims (p : string) : M dims :=
  let* stdout := execAsync (ReadDims p) in
  ret (dims_of_stdout stdout).

Definition addWatermark (inputPath outputPath : string)
    (exifInfo : MetadataRecord) (pointSizeOverride : option num) : M unit :=
  let* d := imageDims inputPath in
  let g := geometry d pointSizeOverride in
  let* _ := execAsync (Convert "magick" inputPath
                         (composite_args d g (text exifInfo)) outputPath) in
  ret tt.

(** [l.forEach(p => fs.existsSync(p) && fs.unlinkSync(p))]. *)
Definition cleanup (l : list string) : M unit :=
  for_each l (fun p =>
    let* there := existsSync p in
    if there then unlinkSync p else ret tt).

(** The body of the outer [try]. *)
Definition primary (file : string) : M unit :=
  let* exif := readExif (orig file) in
  let* _ := execAsync (Verify "magick identify" (orig file)) in
  let* _ := execAsync (Convert "magick" (orig file) "-auto-orient -strip"
                         (temp file)) in
  let* _ := execAsync (Convert "magick" (temp file) "-resize 1024x1024"
                         (tempFull file)) in
  let* _ := execAsync (Convert "magick" (temp file) "-resize 512x512"
                         (tempThumb file)) in
  let* _ := addWatermark (tempFull file) (outFull file) exif None in
  let* _ := copyFileSync (tempThumb file) (outThumb file) in
  let* _ := cleanup [temp file; tempFull file; tempThumb file] in
  log (Done file).

(** The body of the inner [try]. *)
Definition fallback (file : string) : M unit :=
  let* exif := readExif (orig file) in
  let* _ := log (Fallback file) in
  let* _ := execAsync (Convert "magick" (orig file)
                         "-resize 1024x1024 -quality 80" (outFull file)) in
  let* _ := execAsync (Convert "magick" (orig file)
                         "-resize 512x512  -quality 70" (outThumb file)) in
  let* _ := addWatermark (outFull file) (outFull file) exif None in
  let* _ := addWatermark (outThumb file) (outThumb file) exif (Some lit_14) in
  log (FallbackSucceeded file).

(** The body of the loop over the files. *)
Definition process (file : string) : M unit :=
  let* _ := log (Processing file) in
  try_catch (primary file) (fun err =>
    let* _ := log (Failed file err) in
    try_catch (fallback file) (fun fallbackErr =>
      let* _ := log (FallbackFailed file fallbackErr) in
      let* _ := writeFileSync (outFull file) (placeholder file err) in
      writeFileSync (outThumb file) (placeholder file err))).

Definition ensure_dir (p : string) : M unit :=
  let* there := existsSync p in
  if there then ret tt else mkdirSync p.

Definition resize_images : M unit :=
  let* _ := ensureMagick in
  let* there := existsSync_images in
  if negb there then log MissingDirectory
  else
    let* names := readdirSync_images in
    let files := List.filter is_image names in
    match files with
    | [] => log NoImages
    | _ =>
        let* _ := log (Count (length files)) in
        let* _ := ensure_dir "images/fulls" in
        let* _ := ensure_dir "images/thumbs" in
        for_each files process
    end.

End Task.
End Pipeline.

(** ** The older [resize-images] task of [gulpfile.js] *)

Module Legacy.
Import JsString Shell.
Local Open Scope shell_scope.

Definition filePath (file : string) : string := path_join "images" file.
Definition fullSizePath (file : string) : string := path_join "images/fulls" file.
Definition thumbPath (file : string) : string := path_join "images/thumbs" file.
Definition tempPath (file : string) : string :=
  path_join "images" ("temp_" +:+ file).

Section Task.
Context `{Toolchain}.

Definition primary (file : string) : M unit :=
  let* _ := execAsync (Verify "identify" (filePath file)) in
  let* _ := log (Verified file) in
  let* _ := execAsync (Convert "convert" (filePath file) "-auto-orient -strip"
                         (tempPath file)) in
  let* _ := execAsync (Convert "convert" (tempPath file)
                         "-resize 1024x1024 -quality 80" (fullSizePath file)) in
  let* _ := log (CreatedFull file) in
  let* _ := execAsync (Convert "convert" (tempPath file)
                         "-resize 512x512 -quality 70" (thumbPath file)) in
  let* _ := log (CreatedThumb file) in
  unlinkSync (tempPath file).

Definition fallback (file : string) : M unit :=
  let* _ := log (TryingFallback file) in
  let* _ := execAsync (Convert "convert" (filePath file)
                         "-resize 1024x1024 -quality 80" (fullSizePath file)) in
  let* _ := execAsync (Convert "convert" (filePath file)
                         "-resize 512x512 -quality 70" (thumbPath file)) in
  log (FallbackSucceededFor file).

Definition process (file : string) : M unit :=
  let* _ := log (Processing file) in
  try_catch (primary file) (fun err =>
    let* _ := log (Failed file err) in
    try_catch (fallback file) (fun fallbackErr =>
      let* _ := log (FallbackFailed file fallbackErr) in
      let* _ := writeFileSync (fullSizePath file) (placeholder file err) in
      writeFileSync (thumbPath file) (placeholder file err))).

Definition ensure_dir (p : string) : M unit :=
  let* there := existsSync p in
  if there then ret tt else mkdirSync p.

Definition resize_images : M unit :=
  let* there := existsSync_images in
  if negb there then log MissingDirectory
  else
    let* names := readdirSync_images in
    let files := List.filter is_image names in
    match files with
    | [] => log NoImages
    | _ =>
        let* _ := log (Count (length files)) in
        let* _ := ensure_dir "images/fulls" in
        let* _ := ensure_dir "images/thumbs" in
        let* _ := for_each files process in
        log Finished
    end.

End Task.
End Legacy.

(** ** The [delete] task and the series of tasks *)

Module Del.
Import JsString Shell.

(** A glob of literal characters and stars against a path, as [del] reads
    the two patterns of the task with its default options: a star stands
    for a run of characters other than the slash, and at the start of a
    path segment for no run that starts with a dot.  [start] tells whether
    the path is at the start of a segment. *)
Fixpoint glob (pattern : string) : bool -> string -> bool :=
  match pattern with
  | EmptyString =>
      fun _ s => match s with EmptyString => true | String _ _ => false end
  | String a rest =>
      if Ascii.eqb a "*" then
        fix star (start : bool) (s : string) {struct s} : bool :=
          match s with
          | EmptyString => glob rest start EmptyString
          | String c r =>
              if start && Ascii.eqb c "." then false
              else glob rest start s || (negb (Ascii.eqb c "/") && star false r)
          end
      else
        fun _ s =>
          match s with
          | String c r => Ascii.eqb a c && glob rest (Ascii.eqb a "/") r
          | EmptyString => false
          end
  end.

(** The directories above a path, the outermost first. *)
Fixpoint parents_from (above rest : string) : list string :=
  match rest with
  | EmptyString => []
  | String c r =>
      if Ascii.eqb c "/" then above :: parents_from (above +:+ "/") r
      else parents_from (above +:+ String c EmptyString) r
  end.

Definition parents (p : string) : list string := parents_from EmptyString p.

(** A path goes when a pattern matches it or a directory above it: [del]
    removes a directory with all it holds. *)
Definition swept (patterns : list string) (p : string) : bool :=
  existsb (fun pattern => existsb (glob pattern true) (p :: parents p)) patterns.

(** [del(patterns)]. *)
Definition del (patterns : list string) : M unit := fun w =>
  (Return tt,
   {| files := filter (fun entry => swept patterns entry.1 = false) (files w);
      dirs := filter (fun p => swept patterns p = false) (dirs w);
      images :=
        option_map
          (List.filter (fun name => negb (swept patterns (path_join "images" name))))
          (images w);
      clock := clock w |},
   []).

(** [gulp.series(...)]: the tasks in order; an error ends the series. *)
Definition series (tasks : list (M unit)) : M unit := for_each tasks (fun task => task).

End Del.

(** The [delete] and [resize] tasks of the gulpfile with the watermark. *)
Module Resize.
Import Shell Del.

Definition delete : M unit := del ["images/*.*"; "images/temp_*"].

Section Task.
Context `{Exif.MathLib} `{Toolchain}.

Definition resize : M unit := series [Pipeline.resize_images; delete].

End Task.
End Resize.

(** The [delete] and [resize] tasks of [gulpfile.js]. *)
Module LegacyResize.
Import Shell Del.

Definition delete : M unit := del ["images/*.*"].

Section Task.
Context `{Toolchain}.

Definition resize : M unit := series [Legacy.resize_images; delete].

End Task.
End LegacyResize.


(** * Vocabulary of the statements *)

Module Vocabulary.
Import JsString JsNumber Exif Watermark Shell.
Local Open Scope shell_scope.

(** ** Strings and numbers *)

(** The first character is there and is not a dot. *)
Definition starts_plain (s : string) : bool :=
  match s with
  | EmptyString => false
  | String c _ => negb (Ascii.eqb c ".")
  end.

(** The last character of a string. *)
Fixpoint last_char (s : string) : option ascii :=
  match s with
  | EmptyString => None
  | String c EmptyString => Some c
  | String _ r => last_char r
  end.

(** A character that is no decimal digit. *)
Definition not_digit (c : ascii) : Prop :=
  forall k : nat, (k < 10)%nat -> Ascii.eqb (ascii_of_nat (48 + k)) c = false.

(** The sign a Number carries; NaN has none. *)
Definition sign_of (x : num) : option bool :=
  match x with
  | S754_zero s | S754_infinity s | S754_finite s _ _ => Some s
  | S754_nan => None
  end.

(** The [Math.pow] the concrete runs use. *)
Definition pow_model : MathLib := {| Math_pow := pow_integral |}.

(** ** The watermark text as the specification words it *)

(** The fragment of a field, present only when the field is not empty. *)
Definition present (prefix value : string) : list string :=
  if JsString.truthy value then [prefix +:+ value] else [].

Definition fragments (r : MetadataRecord) : list string :=
  ["📷 " +:+ model r] ++ present "● f/" (fNumber r)
    ++ present "● " (exposure r) ++ present "● ISO " (iso r).

(** A fragment with the separator in front of it, or nothing. *)
Definition joined (prefix value : string) : string :=
  if JsString.truthy value then separator +:+ prefix +:+ value else "".

(** ** Runs *)

(** The outcome of running a computation, seen through a postcondition. *)
Definition post {A} (m : M A) (w : world)
    (Q : result A -> world -> list event -> Prop) : Prop :=
  match m w with (r, w', t) => Q r w' t end.

(** The world after a command has failed: only the clock has moved. *)
Definition tick (w : world) : world :=
  {| files := files w; dirs := dirs w; images := images w; clock := S (clock w) |}.

(** The world after a command has succeeded. *)
Definition written (c : command) (w : world) : world :=
  {| files := match target c with
              | Some dst => <[dst := Image c]> (files w)
              | None => files w
              end;
     dirs := dirs w; images := images w; clock := S (clock w) |}.

(** The commands a run executed, in order. *)
Fixpoint commands (t : list event) : list command :=
  match t with
  | [] => []
  | Exec c _ :: r => c :: commands r
  | _ :: r => commands r
  end.

(** The files whose processing a run started, in order. *)
Fixpoint started (t : list event) : list string :=
  match t with
  | [] => []
  | Log (Processing f) :: r => f :: started r
  | _ :: r => started r
  end.

#[global] Instance command_eq_dec : EqDecision command.
Proof. solve_decision. Defined.

(** How many times a run executed a command. *)
Definition runs (c : command) (t : list event) : nat :=
  count_occ command_eq_dec (commands t) c.

(** What one event of the processing of [file] may do: a metadata query
    reads the original, the normalisation goes from the original to the
    temporary path, and nothing writes or removes the original. *)
Definition honours_original (file : string) (e : event) : Prop :=
  match e with
  | Exec (ReadMetadata p) _ => p = Pipeline.orig file
  | Exec (Convert _ src args dst) _ =>
      dst <> Pipeline.orig file
      /\ (args = "-auto-orient -strip" ->
          src = Pipeline.orig file /\ dst = Pipeline.temp file)
  | Copied _ dst => dst <> Pipeline.orig file
  | Unlinked p | Written p _ => p <> Pipeline.orig file
  | _ => True
  end.

(** Events of the two paths: they neither start a file nor belong to a
    handler. *)
Definition inner (e : event) : Prop :=
  match e with
  | Log (Processing _) | Log (Failed _ _) | Log (FallbackFailed _ _)
  | Written _ _ => False
  | _ => True
  end.

Definition tame (file : string) (e : event) : Prop :=
  honours_original file e /\ inner e.

Definition no_temporaries (file : string) (w : world) : Prop :=
  files w !! Pipeline.temp file = None
  /\ files w !! Pipeline.tempFull file = None
  /\ files w !! Pipeline.tempThumb file = None.

(** ** The try/catch skeleton the two tasks share *)

Definition guarded (file outF outT : string) (primary fallback : M unit) : M unit :=
  let* _ := log (Processing file) in
  try_catch primary (fun err =>
    let* _ := log (Failed file err) in
    try_catch fallback (fun fallbackErr =>
      let* _ := log (FallbackFailed file fallbackErr) in
      let* _ := writeFileSync outF (placeholder file err) in
      writeFileSync outT (placeholder file err))).

(** The events of the handler of a failed fallback: the line of the log
    and the two writes of the payload, which is ERROR PROCESSING with a
    colon and a space, the file name, a line break, and the message of the
    primary error. *)
Definition placeholders (file outF outT err ferr : string) : list event :=
  [ Log (FallbackFailed file ferr);
    Written outF ("ERROR PROCESSING: " +:+ file +:+ String "010" err);
    Written outT ("ERROR PROCESSING: " +:+ file +:+ String "010" err) ].

(** The failure semantics of the body of the loop: a primary path that
    returns ends the file; one that throws is followed by one run of the
    fallback from the world it left; a fallback that throws is followed by
    the two placeholders, whose payload is ERROR PROCESSING with a colon
    and a space, the file name, a line break and the message of the
    primary error; no command runs a third time; and the loop reaches
    every file. *)
Record failure_semantics (primary fallback process : string -> M unit)
       (outF outT : string -> string) : Prop := {
  primary_done :
    forall file w a w1 t1,
      primary file w = (Return a, w1, t1) ->
      process file w = (Return tt, w1, Log (Processing file) :: t1);
  fallback_once :
    forall file w err w1 t1 a w2 t2,
      primary file w = (Throw err, w1, t1) ->
      fallback file w1 = (Return a, w2, t2) ->
      process file w
      = (Return tt, w2, Log (Processing file) :: t1 ++ Log (Failed file err) :: t2);
  placeholder_written :
    forall file w err w1 t1 ferr w2 t2,
      primary file w = (Throw err, w1, t1) ->
      fallback file w1 = (Throw ferr, w2, t2) ->
      exists w',
        process file w
        = (Return tt, w',
           Log (Processing file) :: t1 ++ Log (Failed file err) :: t2
             ++ placeholders file (outF file) (outT file) err ferr)
        /\ files w' !! outF file
           = Some (Text ("ERROR PROCESSING: " +:+ file +:+ String "010" err))
        /\ files w' !! outT file
           = Some (Text ("ERROR PROCESSING: " +:+ file +:+ String "010" err));
  no_third_run :
    forall file w r w' t c, process file w = (r, w', t) -> (runs c t <= 2)%nat;
  batch_continues :
    forall names w, exists w' t,
      for_each names process w = (Return tt, w', t) /\ started t = names
}.

(** What the skeleton needs of its two paths. *)
Record paths_behave (primary fallback : string -> M unit) : Prop := {
  primary_trace :
    forall file w r w1 t, primary file w = (r, w1, t) ->
      NoDup (commands t) /\ Forall (tame file) t;
  fallback_trace :
    forall file w r w1 t, fallback file w = (r, w1, t) ->
      NoDup (commands t) /\ Forall (tame file) t
}.

(** ** Postconditions of the paths *)

Definition primary_post (file : string) (w : world)
    (r : result unit) (w1 : world) (t : list event) : Prop :=
  NoDup (commands t)
  /\ Forall (tame file) t
  /\ files w1 !! Pipeline.orig file = files w !! Pipeline.orig file
  /\ (r = Return tt -> no_temporaries file w1).

Definition fallback_post (file : string) (w : world)
    (r : result unit) (w2 : world) (t : list event) : Prop :=
  NoDup (commands t)
  /\ Forall (tame file) t
  /\ (forall p, p <> Pipeline.outFull file -> p <> Pipeline.outThumb file ->
                files w2 !! p = files w !! p).

Definition legacy_primary_post (file : string) (w : world)
    (r : result unit) (w1 : world) (t : list event) : Prop :=
  NoDup (commands t)
  /\ Forall (tame file) t
  /\ (r = Return tt -> files w1 !! Legacy.tempPath file = None).

Definition legacy_fallback_post (file : string) (w : world)
    (r : result unit) (w2 : world) (t : list event) : Prop :=
  NoDup (commands t)
  /\ Forall (tame file) t
  /\ (forall p, p <> Legacy.fullSizePath file -> p <> Legacy.thumbPath file ->
                files w2 !! p = files w !! p).

(** ** Toolchains and a world to run the tasks in *)

Definition camera_output : string := "Nikon D90|2.8||1/250||400|".

(** Every command succeeds. *)
Definition healthy : Toolchain :=
  {| run := fun _ c =>
       match c with
       | ReadMetadata _ => Succeeds camera_output
       | ReadDims _ => Succeeds "1024 683"
       | _ => Succeeds ""
       end |}.

(** The resize of the normalised copy into the full tier fails. *)
Definition resize_fails : Toolchain :=
  {| run := fun n c =>
       match c with
       | Convert _ _ "-resize 1024x1024" _ => Fails "Command failed: resize"
       | _ => @run healthy n c
       end |}.

(** The tool is there and can read no file. *)
Definition unreadable : Toolchain :=
  {| run := fun _ c =>
       match c with
       | Version => Succeeds ""
       | _ => Fails "Command failed: unreadable"
       end |}.

(** Every query answers with seven empty fields. *)
Definition blank : Toolchain := {| run := fun _ _ => Succeeds "||||||" |}.

Definition empty_world : world :=
  {| files := ∅; dirs := ∅; images := Some ["a.jpg"]; clock := 0 |}.

(** ** Characters, escaped text and tokens *)

Fixpoint all_chars (P : ascii -> bool) (s : string) : bool :=
  match s with
  | EmptyString => true
  | String c r => P c && all_chars P r
  end.

(** A string that holds no white space. *)
Definition no_white (s : string) : bool :=
  all_chars (fun c => negb (is_white c)) s.

(** A character the escaping of the annotate text leaves alone. *)
Definition plain_char (c : ascii) : bool :=
  negb (Ascii.eqb c (ascii_of_nat 34) || Ascii.eqb c "\"%char).

(** The reading that undoes the escaping: a backslash stands for the
    character after it. *)
Fixpoint unescape (s : string) : string :=
  match s with
  | EmptyString => EmptyString
  | String c r =>
      if Ascii.eqb c "\"%char then
        match r with
        | String d r' => String d (unescape r')
        | EmptyString => EmptyString
        end
      else String c (unescape r)
  end.

(** A double quote with no backslash in front of it: it would close the
    quoted argument. *)
Fixpoint bare_quote (s : string) : bool :=
  match s with
  | EmptyString => false
  | String c r =>
      if Ascii.eqb c "\"%char then
        match r with
        | String _ r' => bare_quote r'
        | EmptyString => false
        end
      else if Ascii.eqb c (ascii_of_nat 34) then true
      else bare_quote r
  end.

(** The extensions of the filter of the task. *)
Definition extensions : list string := [".jpg"; ".jpeg"; ".png"; ".gif"; ".webp"].

(** A decimal digit. *)
Definition is_digit (c : ascii) : bool :=
  let n := nat_of_ascii c in (Nat.leb 48 n && Nat.leb n 57)%bool.

(** How many times a character occurs in a string. *)
Fixpoint count_char (c : ascii) (s : string) : nat :=
  match s with
  | EmptyString => O
  | String d r => ((if Ascii.eqb d c then 1 else 0) + count_char c r)%nat
  end.

(** ** The batch *)

(** The paths the processing of a file may write or remove. *)
Definition temporaries (file : string) : list string :=
  [Pipeline.temp file; Pipeline.tempFull file; Pipeline.tempThumb file].

Definition outputs (file : string) : list string :=
  [Pipeline.outFull file; Pipeline.outThumb file].

Definition touched (file : string) : list string := temporaries file ++ outputs file.

(** Both outputs of a file are there, as an image or as a placeholder. *)
Definition has_outputs (file : string) (w : world) : Prop :=
  is_Some (files w !! Pipeline.outFull file)
  /\ is_Some (files w !! Pipeline.outThumb file).

(** What the batch needs of a step on a file: it changes its own paths
    only, removes temporaries only, and leaves both outputs when it
    returns. *)
Record step_frames (step : string -> M unit) : Prop := {
  step_frame :
    forall file w r w1 t p, step file w = (r, w1, t) ->
      p ∉ touched file -> files w1 !! p = files w !! p;
  step_keeps :
    forall file w r w1 t p, step file w = (r, w1, t) ->
      p ∉ temporaries file -> is_Some (files w !! p) -> is_Some (files w1 !! p);
  step_makes :
    forall file w w1 t, step file w = (Return tt, w1, t) -> has_outputs file w1
}.

(** The names of the listing that pass the filter. *)
Definition batch (w : world) : list string :=
  List.filter is_image (default [] (images w)).

(** A name as a directory lists it and the task does not make it: it
    holds no slash and does not start with the prefix of the temporaries. *)
Definition own_name (name : string) : bool :=
  negb (includes "/" name) && negb (String.prefix "temp_" name).


(** The tool is not installed: no command runs. *)
Definition no_toolchain : Toolchain :=
  {| run := fun _ _ => Fails "magick: command not found" |}.

(** A listing of two images and a note. *)
Definition two_images : world :=
  {| files := {[ "images/a.jpg" := Text "a"; "images/b.PNG" := Text "b";
                 "images/notes.txt" := Text "n" ]};
     dirs := ∅; images := Some ["a.jpg"; "notes.txt"; "b.PNG"]; clock := 0 |}.

(** What a path of the processing of [file] does to the files. *)
Definition frame_post (file : string) (w : world)
    (r : result unit) (w1 : world) (t : list event) : Prop :=
  (forall p, p ∉ touched file -> files w1 !! p = files w !! p)
  /\ (forall p, p ∉ temporaries file ->
                is_Some (files w !! p) -> is_Some (files w1 !! p))
  /\ (r = Return tt -> has_outputs file w1).

(** No directory of images. *)
Definition no_directory : world :=
  {| files := ∅; dirs := ∅; images := None; clock := 0 |}.


(** ** One decimal place and the nearest integer, as the specification words them *)

(** The decimal numeral of a natural number, as the library prints it. *)
Definition numeral (n : Z) : string :=
  DecimalString.NilZero.string_of_uint (N.to_uint (Z.to_N n)).

(** A digit in front of a little-endian numeral. *)
Definition lu_cons (k : Z) (d : Decimal.uint) : Decimal.uint :=
  match k with
  | 0 => Decimal.D0 d | 1 => Decimal.D1 d | 2 => Decimal.D2 d
  | 3 => Decimal.D3 d | 4 => Decimal.D4 d | 5 => Decimal.D5 d
  | 6 => Decimal.D6 d | 7 => Decimal.D7 d | 8 => Decimal.D8 d
  | _ => Decimal.D9 d
  end.

(** [n] tenths in decimal: the integral part, then a point and the tenths
    digit, both left out when the digit is zero. *)
Definition one_decimal (n : Z) : string :=
  numeral (n / 10) +:+ (if n mod 10 =? 0 then "" else "." +:+ numeral (n mod 10)).

(** [n] is the integer nearest to [p / q], the larger of the two at a tie. *)
Definition nearest (p q n : Z) : Prop := - q < 2 * (n * q - p) <= q.

(** The magnitude of a finite Number of mantissa [m] and exponent [e] is
    [numerator m e / denominator e]. *)
Definition numerator (m : positive) (e : Z) : Z := Zpos m * 2 ^ Z.max e 0.
Definition denominator (e : Z) : Z := 2 ^ Z.max (- e) 0.

(** A Number that is finite and whose magnitude is below [10 ^ 21]. *)
Definition below_1e21 (x : num) : Prop :=
  match x with
  | S754_zero _ => True
  | S754_finite _ m e => numerator m e < 10 ^ 21 * denominator e
  | _ => False
  end.

(** [s] shows [x] to one decimal place: the magnitude of [x] to the
    nearest tenth, a tie going to the larger magnitude, in decimal, with no
    final [.0] and with the sign of a negative Number in front. *)
Definition to_one_decimal (x : num) (s : string) : Prop :=
  match x with
  | S754_zero _ => s = "0"
  | S754_finite sg m e =>
      exists n, nearest (10 * numerator m e) (denominator e) n
                /\ s = (if sg then "-" else "") +:+ one_decimal n
  | _ => False
  end.

(** [r] is [x] rounded to an integer: a Number that is an integer, is
    zero, is infinite or is NaN is its own rounding; another one goes to
    the Number of the integer nearest to it, a tie going up, and to the
    zero of its sign when that integer is zero. *)
Definition rounded (x r : num) : Prop :=
  match x with
  | S754_finite s m e =>
      if numerator m e mod denominator e =? 0 then r = x
      else exists n, nearest (cond_Zopp s (numerator m e)) (denominator e) n
                     /\ r = (if n =? 0 then S754_zero s else of_Z n)
  | _ => r = x
  end.

(** [x] is the Number nearest to the square root of two: its mantissa [m]
    is normal at the exponent -52, and two lies between the squares of
    [m - 1/2] and [m + 1/2] over [2 ^ 52]. *)
Definition nearest_to_sqrt2 (x : num) : Prop :=
  exists m, x = S754_finite false m (-52)
            /\ 2 ^ 52 <= Zpos m < 2 ^ 53
            /\ (2 * Zpos m - 1) ^ 2 < 2 ^ 107 < (2 * Zpos m + 1) ^ 2.

(** A [Math.pow] for the runs with an exponent that is an integer and a
    half: two to the power [k + 1/2] is the square root of two times two to
    the power [k], and the Number nearest to it is [Math.SQRT2] with its
    exponent moved by [k].  Every other argument goes to [pow_integral]. *)
Definition pow_halves : MathLib :=
  {| Math_pow := fun b x =>
       match x with
       | S754_finite s m e =>
           match integral m e, integral m (e + 1), Math_SQRT2 with
           | None, Some n, S754_finite _ ms es =>
               if same b lit_2
               then S754_finite false ms (es + (cond_Zopp s n - 1) / 2)
               else NaN
           | _, _, _ => pow_integral b x
           end
       | _ => pow_integral b x
       end |}.


(** ** The command lines as the shell reads them *)

(** A character of the portable file name set: a letter, a digit, a dot,
    an underscore or a hyphen. *)
Definition portable_char (c : ascii) : bool :=
  let n := nat_of_ascii c in
  (Nat.leb 65 n && Nat.leb n 90) || (Nat.leb 97 n && Nat.leb n 122)
  || (Nat.leb 48 n && Nat.leb n 57)
  || Ascii.eqb c "." || Ascii.eqb c "_" || Ascii.eqb c "-".

(** A name made of portable characters. *)
Definition portable (name : string) : bool := all_chars portable_char name.

(** A character that stands for itself outside quotes. *)
Definition bare_char (c : ascii) : bool := portable_char c || Ascii.eqb c "+".

(** A character that stands for itself between double quotes: any but the
    double quote, the backslash, the dollar sign and the backquote. *)
Definition quotable_char (c : ascii) : bool :=
  negb (Ascii.eqb c (ascii_of_nat 34) || Ascii.eqb c "\"%char
        || Ascii.eqb c "$" || Ascii.eqb c "`").

(** A character the escaping of the annotate text makes safe or leaves
    safe: any but the dollar sign and the backquote. *)
Definition inert_char (c : ascii) : bool :=
  negb (Ascii.eqb c "$" || Ascii.eqb c "`").

(** A text that holds neither a dollar sign nor a backquote. *)
Definition inert (s : string) : bool := all_chars inert_char s.

(** The metadata query prints neither a dollar sign nor a backquote. *)
Definition quiet_metadata `{Toolchain} : Prop :=
  forall n p meta, run n (ReadMetadata p) = Succeeds meta -> inert meta = true.

(** Where the reader is: outside quotes, between double quotes, or behind
    a backslash between double quotes. *)
Inductive mode := Bare | Quoted | Escaped.

(** The words read so far, the word being read, and the mode. *)
Record reader := { done : list string; word : option string; where_ : mode }.

Definition push (r : reader) (c : ascii) (m : mode) : reader :=
  {| done := done r;
     word := Some (default EmptyString (word r) +:+ String c EmptyString);
     where_ := m |}.

(** One character of a line, as a POSIX shell reads it when the line is a
    simple command made of plain words and double-quoted stretches.
    Outside quotes a space ends the word and a double quote opens a quoted
    stretch of it; between double quotes a backslash keeps the double
    quote, the backslash, the dollar sign or the backquote that follows
    it.  Any other character with a meaning to the shell ends the reading:
    such a line is not taken as it is written. *)
Definition sh_step (r : reader) (c : ascii) : option reader :=
  match where_ r with
  | Bare =>
      if Ascii.eqb c " " then
        Some {| done := done r ++ option_list (word r); word := None;
                where_ := Bare |}
      else if Ascii.eqb c (ascii_of_nat 34) then
        Some {| done := done r; word := Some (default EmptyString (word r));
                where_ := Quoted |}
      else if bare_char c then Some (push r c Bare)
      else None
  | Quoted =>
      if Ascii.eqb c (ascii_of_nat 34) then
        Some {| done := done r; word := word r; where_ := Bare |}
      else if Ascii.eqb c "\"%char then
        Some {| done := done r; word := word r; where_ := Escaped |}
      else if quotable_char c then Some (push r c Quoted)
      else None
  | Escaped => if quotable_char c then None else Some (push r c Quoted)
  end.

Fixpoint sh_run (r : option reader) (s : string) : option reader :=
  match s with
  | EmptyString => r
  | String c rest => sh_run (r ≫= fun r => sh_step r c) rest
  end.

(** The words of a line, when the shell takes it as it is written. *)
Definition sh_words (line : string) : option (list string) :=
  match sh_run (Some {| done := []; word := None; where_ := Bare |}) line with
  | Some {| done := ws; word := w; where_ := Bare |} => Some (ws ++ option_list w)
  | _ => None
  end.

(** The words a command is meant to run with: the words of the tool, the
    paths as the task computed them, each one word, and the words of the
    options. *)
Definition words_of (c : command) : option (list string) :=
  match c with
  | Version => Some ["magick"; "-version"]
  | ReadMetadata p => Some ["magick"; "identify"; "-format"; exif_format; p]
  | ReadDims p => Some ["magick"; "identify"; "-format"; "%w %h"; p]
  | Verify tool p => tw ← sh_words tool; Some (tw ++ ["-verbose"; p])
  | Convert tool src args dst =>
      tw ← sh_words tool; aw ← sh_words args; Some (tw ++ src :: aw ++ [dst])
  end.

(** The line of a command is taken by the shell as it is written, and its
    words are the words the command is meant to run with. *)
Definition literal (c : command) : Prop :=
  exists ws, words_of c = Some ws /\ sh_words (command_line c) = Some ws.

(** The words of the options of the compositing command. *)
Definition composite_words (d : dims) (g : bar) (text : string) : list string :=
  [ "-fill"; "#00000080";
    "-draw";
    "rectangle 0," +:+ toString (y0 g) +:+ " " +:+ show (w d) +:+ ","
      +:+ show (h d);
    "-gravity"; "southwest";
    "-pointsize"; toString (ps g);
    "-kerning"; "1";
    "-fill"; "white";
    "-annotate";
    "+20+" +:+ toString (Math_round (mul (barHeight g) lit_0_35));
    text ].

(** Read from the start of a word, [s] ends the words [ws] and leaves the
    word [w] being read, outside quotes. *)
Definition reads (s : string) (ws : list string) (w : string) : Prop :=
  forall d,
    sh_run (Some {| done := d; word := None; where_ := Bare |}) s
    = Some {| done := d ++ ws; word := Some w; where_ := Bare |}.

End Vocabulary.


(** * Facts about the runtime *)

Module StringFacts.
Import JsString Vocabulary.

Lemma sapp_cons c s t : String c s +:+ t = String c (s +:+ t).
Proof. reflexivity. Qed.

Lemma sapp_nil_l t : EmptyString +:+ t = t.
Proof. reflexivity. Qed.

Lemma sapp_nil_r s : s +:+ EmptyString = s.
Proof. induction s as [|c s IH]; [reflexivity|]. rewrite sapp_cons, IH. reflexivity. Qed.

Lemma sapp_assoc a b c : (a +:+ b) +:+ c = a +:+ b +:+ c.
Proof. induction a as [|d a IH]; [reflexivity|]. rewrite !sapp_cons, IH. reflexivity. Qed.

Lemma slength_app s t : String.length (s +:+ t) = (String.length s + String.length t)%nat.
Proof. induction s as [|c s IH]; [reflexivity|]. rewrite sapp_cons. simpl. lia. Qed.

Lemma differ_by_length (p q : string) : String.length p <> String.length q -> p <> q.
Proof. intros Hl ->. apply Hl. reflexivity. Qed.

Lemma includes_cons c d r :
  includes c (String d r) = if Ascii.eqb d c then true else includes c r.
Proof. reflexivity. Qed.

Lemma includes_app c s t : includes c (s +:+ t) = includes c s || includes c t.
Proof.
  induction s as [|d s IH]; [reflexivity|].
  rewrite sapp_cons, !includes_cons. destruct (Ascii.eqb d c); [reflexivity|apply IH].
Qed.

Lemma includes_truthy c s : includes c s = true -> truthy s = true.
Proof. destruct s; [discriminate|reflexivity]. Qed.

Lemma truthy_app_l s t : truthy s = true -> truthy (s +:+ t) = true.
Proof. destruct s; [discriminate|reflexivity]. Qed.

Lemma or_default_empty s : or_default (Some s) "" = s.
Proof. destruct s; reflexivity. Qed.

Lemma strip_dot0_cons d s :
  strip_dot0 (String d s)
  = if String.eqb (String d s) ".0" then EmptyString else String d (strip_dot0 s).
Proof. reflexivity. Qed.

(** Stripping the suffix brings no character in. *)
Lemma includes_strip_dot0 c s : includes c s = false -> includes c (strip_dot0 s) = false.
Proof.
  induction s as [|d s IH]; [reflexivity|].
  rewrite strip_dot0_cons, includes_cons.
  destruct (String.eqb (String d s) ".0"); [reflexivity|].
  rewrite includes_cons. destruct (Ascii.eqb d c); [discriminate|exact IH].
Qed.

Lemma starts_plain_app s t : starts_plain s = true -> starts_plain (s +:+ t) = true.
Proof. destruct s; [discriminate|intros Hs; exact Hs]. Qed.

(** Stripping the suffix of a string that does not start with a dot leaves
    something. *)
Lemma truthy_strip_dot0 s : starts_plain s = true -> truthy (strip_dot0 s) = true.
Proof.
  destruct s as [|d s]; [discriminate|]. intros Hs. rewrite strip_dot0_cons.
  destruct (String.eqb_spec (String d s) ".0") as [E|E]; [|reflexivity].
  injection E as -> ->. discriminate.
Qed.

Lemma includes_substring c a b s :
  includes c s = false -> includes c (String.substring a b s) = false.
Proof.
  revert a b. induction s as [|d s IH]; intros a b Hs.
  - destruct a, b; reflexivity.
  - rewrite includes_cons in Hs. destruct (Ascii.eqb d c) eqn:E; [discriminate|].
    destruct a as [|a]; simpl.
    + destruct b as [|b]; [reflexivity|]. rewrite includes_cons, E. apply IH, Hs.
    + apply IH, Hs.
Qed.

Lemma starts_plain_substring b s :
  starts_plain s = true -> starts_plain (String.substring 0 (S b) s) = true.
Proof. destruct s; [discriminate|intros Hs; exact Hs]. Qed.

Lemma last_char_snoc s c : last_char (s +:+ String c EmptyString) = Some c.
Proof.
  induction s as [|d s IH]; [reflexivity|].
  rewrite sapp_cons. destruct s as [|e s]; [reflexivity|].
  rewrite sapp_cons in *. exact IH.
Qed.

(** [trim] keeps a last character that is no white space. *)
Lemma trimEnd_snoc s c :
  is_white c = false -> trimEnd (s +:+ String c EmptyString) = s +:+ String c EmptyString.
Proof.
  intros Hc. induction s as [|d s IH].
  - rewrite sapp_nil_l. simpl. rewrite Hc. reflexivity.
  - rewrite sapp_cons. simpl. rewrite IH. destruct s; reflexivity.
Qed.

Lemma trimStart_snoc s c :
  is_white c = false ->
  exists y, trimStart (s +:+ String c EmptyString) = y +:+ String c EmptyString.
Proof.
  intros Hc. induction s as [|d s IH].
  - exists EmptyString. rewrite sapp_nil_l. simpl. rewrite Hc. reflexivity.
  - rewrite sapp_cons. simpl. destruct (is_white d); [exact IH|].
    exists (String d s). reflexivity.
Qed.

Lemma trim_snoc s c :
  is_white c = false ->
  exists y, trim (s +:+ String c EmptyString) = y +:+ String c EmptyString.
Proof.
  intros Hc. unfold trim. destruct (trimStart_snoc s c Hc) as [y ->].
  exists y. apply trimEnd_snoc, Hc.
Qed.

End StringFacts.

Module NumberFacts.
Import JsString JsNumber Vocabulary StringFacts.

Lemma not_digit_slash : not_digit "/".
Proof. intros k Hk. do 10 (destruct k as [|k]; [reflexivity|]). lia. Qed.

Lemma not_digit_dot : not_digit ".".
Proof. intros k Hk. do 10 (destruct k as [|k]; [reflexivity|]). lia. Qed.

Lemma digit_char_mod c n : not_digit c -> Ascii.eqb (digit_char (n mod 10)) c = false.
Proof.
  intros Hc. apply Hc.
  pose proof (Z.mod_pos_bound n 10 eq_refl). lia.
Qed.

Lemma digits_aux_S f n acc :
  digits_aux (S f) n acc =
  if n <? 10 then String (digit_char (n mod 10)) acc
  else digits_aux f (n / 10) (String (digit_char (n mod 10)) acc).
Proof. reflexivity. Qed.

Lemma includes_digits_aux c fuel n acc :
  not_digit c -> includes c (digits_aux fuel n acc) = includes c acc.
Proof.
  intros Hc. revert n acc. induction fuel as [|f IH]; intros n acc; [reflexivity|].
  rewrite digits_aux_S. destruct (n <? 10); [|rewrite IH];
    rewrite includes_cons, digit_char_mod by assumption; reflexivity.
Qed.

Lemma includes_digits c n : not_digit c -> includes c (digits n) = false.
Proof. intros Hc. unfold digits. rewrite includes_digits_aux by assumption. reflexivity. Qed.

Lemma starts_plain_cons d r : starts_plain (String d r) = negb (Ascii.eqb d ".").
Proof. reflexivity. Qed.

Lemma starts_plain_digits_aux fuel n acc :
  starts_plain acc = true -> starts_plain (digits_aux fuel n acc) = true.
Proof.
  revert n acc. induction fuel as [|f IH]; intros n acc Hacc; [assumption|].
  rewrite digits_aux_S. destruct (n <? 10); [|apply IH];
    rewrite starts_plain_cons, digit_char_mod by apply not_digit_dot; reflexivity.
Qed.

Lemma starts_plain_digits n : starts_plain (digits n) = true.
Proof.
  unfold digits. rewrite digits_aux_S.
  destruct (n <? 10); [|apply starts_plain_digits_aux];
    rewrite starts_plain_cons, digit_char_mod by apply not_digit_dot; reflexivity.
Qed.

Lemma includes_zeros n : includes "/" (zeros n) = false.
Proof. induction n as [|n IH]; [reflexivity|exact IH]. Qed.

Lemma includes_ssub a b s : includes "/" s = false -> includes "/" (ssub a b s) = false.
Proof. apply includes_substring. Qed.

Ltac no_slash :=
  repeat first
    [ rewrite includes_app
    | rewrite includes_zeros
    | rewrite includes_ssub by assumption
    | rewrite includes_digits by apply not_digit_slash ];
  try reflexivity.

Lemma includes_layout ds n : includes "/" ds = false -> includes "/" (layout ds n) = false.
Proof.
  intros Hds. unfold layout.
  repeat match goal with |- context [if ?b then _ else _] => destruct b end;
    no_slash; rewrite ?Hds; reflexivity.
Qed.

Lemma starts_plain_layout ds n : starts_plain ds = true -> starts_plain (layout ds n) = true.
Proof.
  intros Hds. unfold layout.
  destruct ((slen ds <=? n) && (n <=? 21)); [apply starts_plain_app, Hds|].
  destruct ((0 <? n) && (n <=? 21)) eqn:E2.
  { apply starts_plain_app. unfold ssub.
    apply andb_prop in E2 as [E2 _]. apply Z.ltb_lt in E2.
    destruct (Z.to_nat n) eqn:En; [lia|]. apply starts_plain_substring, Hds. }
  destruct ((-6 <? n) && (n <=? 0)); [reflexivity|].
  destruct (slen ds =? 1); [apply starts_plain_app, Hds|].
  apply starts_plain_app. apply (starts_plain_substring 0), Hds.
Qed.

(** No Number prints with a slash, and none prints as nothing. *)
Lemma includes_toString x : includes "/" (toString x) = false.
Proof.
  destruct x as [s|s| |s m e]; try reflexivity; [destruct s; reflexivity|].
  unfold toString. destruct (fraction m e) as [p q].
  destruct (shortest _ _ _ _ _ _) as [d n].
  rewrite includes_app, includes_layout by (apply includes_digits, not_digit_slash).
  destruct s; reflexivity.
Qed.

Lemma starts_plain_toString x : starts_plain (toString x) = true.
Proof.
  destruct x as [s|s| |s m e]; try reflexivity; [destruct s; reflexivity|].
  unfold toString. destruct (fraction m e) as [p q].
  destruct (shortest _ _ _ _ _ _) as [d n].
  destruct s; [reflexivity|].
  rewrite sapp_nil_l. apply starts_plain_layout, starts_plain_digits.
Qed.

Lemma includes_toFixed1 x : includes "/" (toFixed1 x) = false.
Proof.
  destruct x as [s|s| |s m e]; try reflexivity; [destruct s; reflexivity|].
  unfold toFixed1. destruct (fraction m e) as [p q] eqn:Ef.
  destruct (_ <=? _).
  - apply includes_toString.
  - no_slash. destruct s; reflexivity.
Qed.

Lemma starts_plain_toFixed1 x : starts_plain (toFixed1 x) = true.
Proof.
  destruct x as [s|s| |s m e]; try reflexivity; [destruct s; reflexivity|].
  unfold toFixed1. destruct (fraction m e) as [p q] eqn:Ef.
  destruct (_ <=? _).
  - apply starts_plain_toString.
  - destruct s; [reflexivity|]. rewrite sapp_nil_l.
    apply starts_plain_app, starts_plain_digits.
Qed.

(** *** No numeric literal ends in the letter s *)

Lemma scan_run_snoc st s c :
  scan_run st (s +:+ String c EmptyString) = scan_step (scan_run st s) c.
Proof.
  revert st. induction s as [|d s IH]; intros st; [reflexivity|].
  rewrite sapp_cons. simpl. apply IH.
Qed.

Lemma scan_step_s st : scan_step st "s" = ScanFail.
Proof.
  destruct st as [m seen|m f seen|m f|m f e|m f e v|];
    try reflexivity; destruct seen; reflexivity.
Qed.

Lemma digit_of_s base : digit_of base "s" = None.
Proof. unfold digit_of. simpl. rewrite Z.ltb_irrefl. reflexivity. Qed.

Lemma radix_run_s base acc s : radix_run base acc (s +:+ "s") = None.
Proof.
  revert acc. induction s as [|d s IH]; intros acc.
  - rewrite sapp_nil_l. simpl. rewrite digit_of_s. destruct acc; reflexivity.
  - rewrite sapp_cons. simpl. destruct acc; [|reflexivity].
    destruct (digit_of base d); [apply IH|reflexivity].
Qed.

Lemma radix_literal_s s : radix_literal (s +:+ "s") = None.
Proof.
  destruct s as [|a [|b s]]; try reflexivity.
  - change (String a EmptyString +:+ "s") with (String a "s").
    unfold radix_literal. repeat (destruct a as [[] [] [] [] [] [] [] []]; try reflexivity).
  - rewrite !sapp_cons.
    assert (Hr : forall base, radix_run base (Some 0) (s +:+ "s") = None)
      by (intros; apply radix_run_s).
    destruct s as [|d s].
    + rewrite sapp_nil_l in *. unfold radix_literal.
      destruct a as [[] [] [] [] [] [] [] []]; try reflexivity.
      destruct (radix_of b); [apply Hr|reflexivity].
    + rewrite sapp_cons in *. unfold radix_literal.
      destruct a as [[] [] [] [] [] [] [] []]; try reflexivity.
      destruct (radix_of b); [apply Hr|reflexivity].
Qed.

Lemma not_Infinity s : String.eqb (s +:+ "s") "Infinity" = false.
Proof.
  apply String.eqb_neq. intros E.
  pose proof (last_char_snoc s "s") as L. rewrite E in L. discriminate.
Qed.

Lemma scan_s s : scan_result (scan_run (ScanInt 0 false) (s +:+ "s")) = None.
Proof. rewrite scan_run_snoc, scan_step_s. reflexivity. Qed.

(** [Number] of a string that ends in s is NaN. *)
Lemma Number_s s : Number (s +:+ "s") = NaN.
Proof.
  unfold Number. destruct (trim_snoc s "s" eq_refl) as [y ->].
  destruct y as [|c y].
  - reflexivity.
  - rewrite sapp_cons.
    destruct (Ascii.eqb c "+" || Ascii.eqb c "-") eqn:Es.
    + rewrite not_Infinity, scan_s. reflexivity.
    + rewrite <- sapp_cons, not_Infinity, scan_s, radix_literal_s. reflexivity.
Qed.

End NumberFacts.

Module FloatFacts.
Import JsNumber Vocabulary.

Lemma shr_1_nonneg mrs : 0 <= shr_m mrs -> 0 <= shr_m (shr_1 mrs).
Proof.
  destruct mrs as [m r s]. simpl. intros Hm.
  destruct m as [|p|p]; [simpl; lia| |lia].
  destruct p; simpl; lia.
Qed.

Lemma iter_shr_1_nonneg p mrs :
  0 <= shr_m mrs -> 0 <= shr_m (SpecFloat.iter_pos shr_1 p mrs).
Proof.
  revert mrs. induction p as [p IH|p IH|]; intros mrs Hm; simpl.
  - apply IH, IH, shr_1_nonneg, Hm.
  - apply IH, IH, Hm.
  - apply shr_1_nonneg, Hm.
Qed.

Lemma shr_nonneg mrs e n : 0 <= shr_m mrs -> 0 <= shr_m (fst (shr mrs e n)).
Proof.
  intros Hm. unfold shr. destruct n; simpl; try assumption.
  apply iter_shr_1_nonneg, Hm.
Qed.

Lemma shr_record_of_loc_m m l : shr_m (shr_record_of_loc m l) = m.
Proof. destruct l as [|[]]; reflexivity. Qed.

Lemma shr_fexp_nonneg m e l :
  0 <= m -> 0 <= shr_m (fst (shr_fexp prec emax m e l)).
Proof.
  intros Hm. unfold shr_fexp. apply shr_nonneg.
  rewrite shr_record_of_loc_m. exact Hm.
Qed.

Lemma round_nearest_even_nonneg m l : 0 <= m -> 0 <= round_nearest_even m l.
Proof.
  intros Hm. unfold round_nearest_even.
  destruct l as [|[]]; try assumption; [destruct (Z.even m)|]; lia.
Qed.

(** Rounding a magnitude keeps the sign it is given. *)
Lemma sign_binary_round_aux s m e l :
  0 <= m -> sign_of (binary_round_aux prec emax s m e l) = Some s.
Proof.
  intros Hm. unfold binary_round_aux.
  pose proof (shr_fexp_nonneg m e l Hm) as H1.
  destruct (shr_fexp prec emax m e l) as [mrs' e'].
  pose proof (shr_fexp_nonneg
                (round_nearest_even (shr_m mrs') (loc_of_shr_record mrs')) e' loc_Exact
                (round_nearest_even_nonneg _ _ H1)) as H2.
  destruct (shr_fexp prec emax _ e' loc_Exact) as [mrs'' e''].
  simpl in H2. destruct (shr_m mrs'') as [|p|p]; [reflexivity| |lia].
  destruct (e'' <=? emax - prec); reflexivity.
Qed.

Lemma sign_binary_round s m e : sign_of (binary_round prec emax s m e) = Some s.
Proof.
  unfold binary_round. destruct (shl_align _ _ _) as [mz ez].
  apply sign_binary_round_aux. lia.
Qed.

(** A negative Number or [-0] is never above [+0]. *)
Lemma max_zero_negative y : sign_of y = Some true -> Math_max lit_0 y = lit_0.
Proof.
  destruct y as [[]|[]| |[] m e]; simpl; intros E; try discriminate; reflexivity.
Qed.

(** A smaller Number minus a larger one carries a minus sign. *)
Lemma sub_negative x y : ltb x y = true -> sign_of (sub x y) = Some true.
Proof.
  unfold ltb.
  destruct x as [sx|sx| |sx mx ex], y as [sy|sy| |sy my ey]; simpl;
    try discriminate;
    try (destruct sx; try discriminate; try reflexivity;
         destruct sy; try discriminate; reflexivity);
    try (destruct sy; try discriminate; reflexivity).
  intros Hlt. unfold aligned in Hlt.
  destruct (Z.compare_spec
              (cond_Zopp sx (Z.pos (shl_align mx ex (Z.min ex ey)).1))
              (cond_Zopp sy (Z.pos (shl_align my ey (Z.min ex ey)).1))) as [E|E|E];
    try discriminate.
  unfold binary_normalize.
  destruct (_ - _) as [|p|p] eqn:Ed; try lia.
  apply sign_binary_round.
Qed.

(** The clamp of the bar top. *)
Lemma clamp_to_zero x y : gtb y x = true -> Math_max lit_0 (sub x y) = lit_0.
Proof. intros Hgt. apply max_zero_negative, sub_negative, Hgt. Qed.

Lemma geb_not_ltb x y : geb x y = true -> ltb x y = false.
Proof. unfold geb, ltb. destruct (compare x y) as [[]|]; auto; discriminate. Qed.

End FloatFacts.

Module ExifFacts.
Import JsString JsNumber Exif Vocabulary StringFacts NumberFacts.

Lemma rationalToFloat_truthy s x : rationalToFloat s = Some x -> JsString.truthy s = true.
Proof.
  unfold rationalToFloat. destruct (JsString.truthy s); [reflexivity|discriminate].
Qed.

Lemma includes_fixed1 x : includes "/" (fixed1 x) = false.
Proof. apply includes_strip_dot0, includes_toFixed1. Qed.

Lemma truthy_fixed1 x : JsString.truthy (fixed1 x) = true.
Proof. apply truthy_strip_dot0, starts_plain_toFixed1. Qed.

(** The guards of [rationalToFloat] that hold. *)
Lemma rationalToFloat_guards :
  rationalToFloat "" = None
  /\ rationalToFloat "abc" = None
  /\ rationalToFloat "3/0" = None
  /\ (forall s n, includes "/" s = false -> rationalToFloat s = Some n ->
                  isFinite n = true).
Proof.
  split; [vm_compute; reflexivity|].
  split; [vm_compute; reflexivity|].
  split; [vm_compute; reflexivity|].
  intros s n Hs. unfold rationalToFloat. rewrite Hs.
  destruct (negb (JsString.truthy s)); [discriminate|].
  destruct (isFinite (Number s)) eqn:E; [|discriminate].
  intros [= <-]. exact E.
Qed.

Section WithMath.
Context `{MathLib}.

(** A field no path resolves comes out empty, the model as Camera. *)
Lemma unresolved_fields_default (stdout : string) :
  (truthy_opt (exif_fields stdout !! 0%nat) = false ->
   model (exif_of_stdout stdout) = "Camera")
  /\ (truthy_opt (exif_fields stdout !! 1%nat) = false ->
      exif_fields stdout !! 2%nat ≫= rationalToFloat = None ->
      fNumber (exif_of_stdout stdout) = "")
  /\ (truthy_opt (exif_fields stdout !! 3%nat) = false ->
      exif_fields stdout !! 4%nat ≫= rationalToFloat = None ->
      exposure (exif_of_stdout stdout) = "")
  /\ (truthy_opt (exif_fields stdout !! 5%nat) = false ->
      truthy_opt (exif_fields stdout !! 6%nat) = false ->
      iso (exif_of_stdout stdout) = "").
Proof.
  unfold exif_of_stdout. cbn [model fNumber exposure iso].
  repeat split.
  - destruct (exif_fields stdout !! 0%nat) as [[|]|]; try discriminate; reflexivity.
  - intros Hf Hav. rewrite Hf, Hav. cbn [negb andb].
    destruct (truthy_opt (exif_fields stdout !! 2%nat));
      destruct (exif_fields stdout !! 1%nat) as [[|]|]; try discriminate; reflexivity.
  - intros He Hssv. rewrite He, Hssv. cbn [negb andb].
    destruct (truthy_opt (exif_fields stdout !! 4%nat));
      destruct (exif_fields stdout !! 3%nat) as [[|]|]; try discriminate; reflexivity.
  - destruct (exif_fields stdout !! 5%nat) as [[|]|],
             (exif_fields stdout !! 6%nat) as [[|]|]; try discriminate; reflexivity.
Qed.

End WithMath.
End ExifFacts.

(** * Facts about runs *)

Module ShellFacts.
Import JsString Shell Vocabulary StringFacts.

Lemma post_elim {A} (m : M A) w (Q : result A -> world -> list event -> Prop) r w' t :
  post m w Q -> m w = (r, w', t) -> Q r w' t.
Proof. unfold post. intros HQ E. rewrite E in HQ. exact HQ. Qed.

Lemma post_ret {A} (a : A) w (Q : result A -> world -> list event -> Prop) :
  Q (Return a) w [] -> post (ret a) w Q.
Proof. intros HQ. exact HQ. Qed.

Lemma post_bind {A B} (m : M A) (k : A -> M B) w
    (Q : result B -> world -> list event -> Prop) :
  post m w (fun r w1 t1 =>
    match r with
    | Return a => post (k a) w1 (fun r2 w2 t2 => Q r2 w2 (t1 ++ t2))
    | Throw e => Q (Throw e) w1 t1
    end) ->
  post (bind m k) w Q.
Proof.
  unfold post, bind. destruct (m w) as [[[a|e] w1] t1]; [|auto].
  destruct (k a w1) as [[r2 w2] t2]. auto.
Qed.

Lemma post_log n w (Q : result unit -> world -> list event -> Prop) :
  Q (Return tt) w [Log n] -> post (log n) w Q.
Proof. intros HQ. exact HQ. Qed.

Lemma post_execAsync `{Toolchain} c w
    (Q : result string -> world -> list event -> Prop) :
  (forall stdout, run (clock w) c = Succeeds stdout ->
                  Q (Return stdout) (written c w) [Exec c (Succeeds stdout)]) ->
  (forall message, run (clock w) c = Fails message ->
                   Q (Throw message) (tick w) [Exec c (Fails message)]) ->
  post (execAsync c) w Q.
Proof.
  intros Hok Hko. unfold post, execAsync.
  destruct (run (clock w) c) as [message|stdout] eqn:E.
  - apply Hko. reflexivity.
  - specialize (Hok stdout eq_refl). unfold written in Hok.
    destruct (target c); exact Hok.
Qed.

Lemma post_existsSync p w (Q : result bool -> world -> list event -> Prop) :
  Q (Return (bool_decide (is_Some (files w !! p)) || bool_decide (p ∈ dirs w))) w [] ->
  post (existsSync p) w Q.
Proof. intros HQ. exact HQ. Qed.

Lemma post_unlinkSync p w (Q : result unit -> world -> list event -> Prop) :
  (is_Some (files w !! p) ->
   Q (Return tt) (set_files (delete p (files w)) w) [Unlinked p]) ->
  (files w !! p = None ->
   Q (Throw ("ENOENT: no such file or directory, unlink '" +:+ p +:+ "'")) w []) ->
  post (unlinkSync p) w Q.
Proof.
  intros Hok Hko. unfold post, unlinkSync.
  destruct (files w !! p) eqn:E; [apply Hok; eauto|apply Hko; reflexivity].
Qed.

Lemma post_copyFileSync src dst w (Q : result unit -> world -> list event -> Prop) :
  (forall c, files w !! src = Some c ->
             Q (Return tt) (set_files (<[dst := c]> (files w)) w) [Copied src dst]) ->
  (files w !! src = None ->
   Q (Throw ("ENOENT: no such file or directory, copyfile '" +:+ src
               +:+ "' -> '" +:+ dst +:+ "'")) w []) ->
  post (copyFileSync src dst) w Q.
Proof.
  intros Hok Hko. unfold post, copyFileSync.
  destruct (files w !! src) eqn:E; [apply Hok; reflexivity|apply Hko; reflexivity].
Qed.

(** One step of a run, read off the computation. *)
Ltac wp_step :=
  lazymatch goal with
  | |- post (bind _ _) _ _ => apply post_bind
  | |- post (ret _) _ _ => apply post_ret
  | |- post (log _) _ _ => apply post_log
  | |- post (existsSync _) _ _ => apply post_existsSync
  | |- post (execAsync _) _ _ =>
      apply post_execAsync; [intros ?stdout _|intros ?message _]
  | |- post (copyFileSync _ _) _ _ =>
      apply post_copyFileSync; [intros ?c ?Ec|intros ?Ec]
  | |- post (unlinkSync _) _ _ =>
      apply post_unlinkSync; [intros ?Eu|intros ?Eu]
  | |- post (if ?b then _ else _) _ _ => destruct b eqn:?Eb
  end;
  cbv beta iota;
  cbn [written tick set_files target files dirs images clock] in *.

Ltac wp := repeat wp_step.

(** Lookups in the files a run has written and removed. *)
Ltac fs :=
  cbn [written tick set_files target files dirs images clock] in *;
  repeat first
    [ rewrite lookup_insert_eq
    | rewrite lookup_delete_eq
    | rewrite lookup_insert_ne by congruence
    | rewrite lookup_delete_ne by congruence ].

(** A list of commands that differ pairwise. *)
Ltac distinct :=
  repeat match goal with
    | |- NoDup [] => apply NoDup_nil_2
    | |- NoDup (_ :: _) => apply NoDup_cons_2
    | |- _ ∉ _ =>
        let Hin := fresh in
        intros Hin;
        repeat (apply elem_of_cons in Hin as [Hin|Hin]);
        [first [congruence|injection Hin; congruence]..
        |apply elem_of_nil in Hin; contradiction]
    end.

Lemma length_path_join d n :
  String.length (path_join d n) = (String.length d + 1 + String.length n)%nat.
Proof. unfold path_join. rewrite !slength_app. simpl. lia. Qed.

Ltac differ :=
  apply differ_by_length;
  unfold Pipeline.orig, Pipeline.temp, Pipeline.outFull, Pipeline.outThumb,
    Pipeline.tempFull, Pipeline.tempThumb;
  rewrite ?length_path_join, ?slength_app; simpl; lia.

(** The six paths of a file differ pairwise. *)
Lemma paths_differ file :
  Pipeline.orig file <> Pipeline.temp file
  /\ Pipeline.orig file <> Pipeline.tempFull file
  /\ Pipeline.orig file <> Pipeline.tempThumb file
  /\ Pipeline.orig file <> Pipeline.outFull file
  /\ Pipeline.orig file <> Pipeline.outThumb file
  /\ Pipeline.temp file <> Pipeline.tempFull file
  /\ Pipeline.temp file <> Pipeline.tempThumb file
  /\ Pipeline.temp file <> Pipeline.outFull file
  /\ Pipeline.temp file <> Pipeline.outThumb file
  /\ Pipeline.tempFull file <> Pipeline.tempThumb file
  /\ Pipeline.tempFull file <> Pipeline.outFull file
  /\ Pipeline.tempFull file <> Pipeline.outThumb file
  /\ Pipeline.tempThumb file <> Pipeline.outFull file
  /\ Pipeline.tempThumb file <> Pipeline.outThumb file
  /\ Pipeline.outFull file <> Pipeline.outThumb file.
Proof. repeat split; differ. Qed.

(** The compositing arguments are not those of the normalisation. *)
Lemma composite_args_not_normalise d g txt :
  Watermark.composite_args d g txt <> "-auto-orient -strip".
Proof.
  intros E. apply (f_equal (String.substring 0 2)) in E.
  unfold Watermark.composite_args in E. cbn [join] in E.
  rewrite !sapp_assoc in E. discriminate E.
Qed.

(** Events that honour the original and belong to a path. *)
Ltac tamed :=
  repeat match goal with
    | |- Forall _ [] => apply Forall_nil_2
    | |- Forall _ (_ :: _) => apply Forall_cons_2
    | |- tame _ _ =>
        unfold tame; cbn [honours_original inner]; split; [|exact I];
        first [ reflexivity | exact I | congruence
              | split; [congruence|];
                first [ intros; split; reflexivity
                      | intros Hargs; discriminate Hargs
                      | intros Hargs; exfalso;
                        exact (composite_args_not_normalise _ _ _ Hargs) ] ]
    end.

Lemma commands_app a b : commands (a ++ b) = commands a ++ commands b.
Proof.
  induction a as [|e a IH]; [reflexivity|].
  destruct e; cbn [app commands]; rewrite IH; reflexivity.
Qed.

Lemma started_app a b : started (a ++ b) = started a ++ started b.
Proof.
  induction a as [|e a IH]; [reflexivity|].
  destruct e as [| n | | | |]; try destruct n; cbn [app started]; rewrite IH;
    reflexivity.
Qed.

Lemma started_inner t : Forall inner t -> started t = [].
Proof.
  induction 1 as [|e t He _ IH]; [reflexivity|].
  destruct e as [| n | | | |]; try destruct n; cbn [started]; try exact IH;
    destruct He.
Qed.

Lemma runs_once c t : NoDup (commands t) -> (runs c t <= 1)%nat.
Proof.
  intros Hnd. unfold runs.
  apply (proj1 (NoDup_count_occ command_eq_dec (commands t))).
  apply NoDup_ListNoDup, Hnd.
Qed.

Lemma tame_inner file t : Forall (tame file) t -> Forall inner t.
Proof. intros Ht. eapply Forall_impl; [exact Ht|]. intros e [_ He]. exact He. Qed.

Lemma tame_honours file t : Forall (tame file) t -> Forall (honours_original file) t.
Proof. intros Ht. eapply Forall_impl; [exact Ht|]. intros e [He _]. exact He. Qed.

(** The skeleton unfolded into the runs of its two paths. *)
Lemma guarded_eq file outF outT primary fallback w :
  guarded file outF outT primary fallback w
  = match primary w with
    | (Return a, w1, t1) => (Return tt, w1, Log (Processing file) :: t1)
    | (Throw err, w1, t1) =>
        match fallback w1 with
        | (Return a, w2, t2) =>
            (Return tt, w2,
             Log (Processing file) :: t1 ++ Log (Failed file err) :: t2)
        | (Throw ferr, w2, t2) =>
            (Return tt,
             set_files (<[outT := Text (placeholder file err)]>
                          (<[outF := Text (placeholder file err)]> (files w2))) w2,
             Log (Processing file) :: t1 ++ Log (Failed file err) :: t2
               ++ placeholders file outF outT err ferr)
        end
    end.
Proof.
  unfold guarded, bind, try_catch, log, writeFileSync, placeholders.
  destruct (primary w) as [[[[]|err] w1] t1]; [reflexivity|].
  destruct (fallback w1) as [[[[]|ferr] w2] t2]; reflexivity.
Qed.

(** The failure semantics of any body built on the skeleton. *)
Lemma guarded_semantics primary fallback process outF outT :
  (forall file, process file
                = guarded file (outF file) (outT file) (primary file) (fallback file)) ->
  (forall file, outF file <> outT file) ->
  paths_behave primary fallback ->
  failure_semantics primary fallback process outF outT.
Proof.
  intros Hp Hout [Hprim Hfall].
  assert (Hone : forall file w, exists w' t,
             process file w = (Return tt, w', t) /\ started t = [file]).
  { intros file w. rewrite Hp, guarded_eq.
    destruct (primary file w) as [[[a|err] w1] t1] eqn:E1.
    - eexists _, _. split; [reflexivity|]. cbn [started].
      apply Hprim in E1 as [_ Ht]. rewrite (started_inner _ (tame_inner _ _ Ht)).
      reflexivity.
    - apply Hprim in E1 as [_ Ht1].
      destruct (fallback file w1) as [[[a|ferr] w2] t2] eqn:E2;
        apply Hfall in E2 as [_ Ht2];
        eexists _, _; (split; [reflexivity|]); cbn [started];
        rewrite !started_app; cbn [started placeholders];
        rewrite ?started_app, (started_inner _ (tame_inner _ _ Ht1)),
          (started_inner _ (tame_inner _ _ Ht2)); reflexivity. }
  split.
  - intros file w a w1 t1 E1. rewrite Hp, guarded_eq, E1. reflexivity.
  - intros file w err w1 t1 a w2 t2 E1 E2. rewrite Hp, guarded_eq, E1, E2. reflexivity.
  - intros file w err w1 t1 ferr w2 t2 E1 E2. rewrite Hp, guarded_eq, E1, E2.
    eexists. split; [reflexivity|]. cbn [files set_files]. split.
    + rewrite lookup_insert_ne by (intros E; exact (Hout file (eq_sym E))).
      apply lookup_insert_eq.
    + apply lookup_insert_eq.
  - intros file w r w' t c. rewrite Hp, guarded_eq.
    destruct (primary file w) as [[[a|err] w1] t1] eqn:E1.
    + intros [= <- <- <-]. apply Hprim in E1 as [Hnd _].
      unfold runs. cbn [commands]. pose proof (runs_once c t1 Hnd). unfold runs in *. lia.
    + apply Hprim in E1 as [Hnd1 _].
      destruct (fallback file w1) as [[[a|ferr] w2] t2] eqn:E2;
        apply Hfall in E2 as [Hnd2 _]; intros [= <- <- <-];
        unfold runs; cbn [commands];
        rewrite commands_app; cbn [commands];
        rewrite ?commands_app; cbn [commands placeholders];
        rewrite ?app_nil_r, count_occ_app;
        pose proof (runs_once c t1 Hnd1); pose proof (runs_once c t2 Hnd2);
        unfold runs in *; lia.
  - intros names. induction names as [|file names IH]; intros w.
    + exists w, []. split; reflexivity.
    + destruct (Hone file w) as (w1 & t1 & E1 & S1).
      destruct (IH w1) as (w2 & t2 & E2 & S2).
      exists w2, (t1 ++ t2). cbn [for_each]. unfold bind. rewrite E1, E2.
      split; [reflexivity|]. rewrite started_app, S1, S2. reflexivity.
Qed.

End ShellFacts.

Module TaskFacts.
Import JsString JsNumber Exif Watermark Shell Vocabulary StringFacts ShellFacts.

Section Task.
Context `{MathLib} `{Toolchain}.

(** The primary path of the task with the watermark, at every point where a
    command may fail. *)
Lemma primary_run file w : post (Pipeline.primary file) w (primary_post file w).
Proof.
  pose proof (paths_differ file) as
    (D1 & D2 & D3 & D4 & D5 & D6 & D7 & D8 & D9 & D10 & D11 & D12 & D13 & D14 & D15).
  unfold Pipeline.primary, Pipeline.readExif, Pipeline.addWatermark,
    Pipeline.imageDims, Pipeline.cleanup.
  cbn [for_each].
  wp.
  all: unfold primary_post; cbn [app commands].
  all: split; [distinct|].
  all: split; [tamed|].
  all: split; [fs; reflexivity|].
  all: try (intros Hr; discriminate Hr).
  all: intros _; unfold no_temporaries.
  all: try (exfalso;
            match goal with
            | Eb : (bool_decide (is_Some _) || _) = false |- _ =>
                revert Eb; fs; rewrite bool_decide_eq_true_2 by eauto;
                discriminate
            end).
  all: fs; auto.
Qed.

Lemma fallback_run file w : post (Pipeline.fallback file) w (fallback_post file w).
Proof.
  pose proof (paths_differ file) as
    (D1 & D2 & D3 & D4 & D5 & D6 & D7 & D8 & D9 & D10 & D11 & D12 & D13 & D14 & D15).
  unfold Pipeline.fallback, Pipeline.readExif, Pipeline.addWatermark,
    Pipeline.imageDims.
  wp.
  all: unfold fallback_post; cbn [app commands].
  all: split; [distinct|].
  all: split; [tamed|].
  all: intros p Hp1 Hp2; fs; reflexivity.
Qed.

Lemma legacy_primary_run file w :
  post (Legacy.primary file) w (legacy_primary_post file w).
Proof.
  pose proof (paths_differ file) as
    (D1 & D2 & D3 & D4 & D5 & D6 & D7 & D8 & D9 & D10 & D11 & D12 & D13 & D14 & D15).
  unfold Legacy.primary, legacy_primary_post.
  change (Legacy.filePath file) with (Pipeline.orig file).
  change (Legacy.tempPath file) with (Pipeline.temp file).
  change (Legacy.fullSizePath file) with (Pipeline.outFull file).
  change (Legacy.thumbPath file) with (Pipeline.outThumb file).
  wp.
  all: cbn [app commands].
  all: split; [distinct|].
  all: split; [tamed|].
  all: try (intros Hr; discriminate Hr).
  all: intros _; fs; reflexivity.
Qed.

Lemma legacy_fallback_run file w :
  post (Legacy.fallback file) w (legacy_fallback_post file w).
Proof.
  pose proof (paths_differ file) as
    (D1 & D2 & D3 & D4 & D5 & D6 & D7 & D8 & D9 & D10 & D11 & D12 & D13 & D14 & D15).
  unfold Legacy.fallback, legacy_fallback_post.
  change (Legacy.filePath file) with (Pipeline.orig file).
  change (Legacy.fullSizePath file) with (Pipeline.outFull file).
  change (Legacy.thumbPath file) with (Pipeline.outThumb file).
  wp.
  all: cbn [app commands].
  all: split; [distinct|].
  all: split; [tamed|].
  all: intros p Hp1 Hp2; fs; reflexivity.
Qed.

Lemma pipeline_paths_behave : paths_behave Pipeline.primary Pipeline.fallback.
Proof.
  split; intros file w r w1 t E.
  - pose proof (post_elim _ _ _ _ _ _ (primary_run file w) E) as (Hnd & Ht & _).
    split; assumption.
  - pose proof (post_elim _ _ _ _ _ _ (fallback_run file w) E) as (Hnd & Ht & _).
    split; assumption.
Qed.

Lemma legacy_paths_behave : paths_behave Legacy.primary Legacy.fallback.
Proof.
  split; intros file w r w1 t E.
  - pose proof (post_elim _ _ _ _ _ _ (legacy_primary_run file w) E) as (Hnd & Ht & _).
    split; assumption.
  - pose proof (post_elim _ _ _ _ _ _ (legacy_fallback_run file w) E) as (Hnd & Ht & _).
    split; assumption.
Qed.

End Task.
End TaskFacts.

(** * Facts about the parsing of the query outputs *)

Module TextFacts.
Import JsString JsNumber Vocabulary StringFacts NumberFacts.

Lemma split_cons c s : exists x xs, split c s = x :: xs.
Proof.
  induction s as [|d s (x & xs & IH)]; [eexists _, _; reflexivity|].
  cbn [split]. destruct (Ascii.eqb d c); [eexists _, _; reflexivity|].
  rewrite IH. eexists _, _; reflexivity.
Qed.

Lemma split_step c d r :
  split c (String d r)
  = if Ascii.eqb d c then EmptyString :: split c r
    else match split c r with
         | x :: xs => String d x :: xs
         | [] => [String d EmptyString]
         end.
Proof. reflexivity. Qed.

(** A string that holds the separator splits into two parts at least. *)
Lemma split_two c s :
  includes c s = true -> exists a b rest, split c s = a :: b :: rest.
Proof.
  induction s as [|d s IH]; [discriminate|].
  rewrite includes_cons. cbn [split]. destruct (Ascii.eqb d c).
  - intros _. destruct (split_cons c s) as (x & xs & ->). eexists _, _, _; reflexivity.
  - intros Hs. destruct (IH Hs) as (a & b & rest & ->). eexists _, _, _; reflexivity.
Qed.

Lemma split_none c s : includes c s = false -> split c s = [s].
Proof.
  induction s as [|d s IH]; [reflexivity|].
  rewrite includes_cons. cbn [split]. destruct (Ascii.eqb d c); [discriminate|].
  intros Hs. rewrite (IH Hs). reflexivity.
Qed.

Lemma split_app c x rest :
  includes c x = false -> split c (x +:+ String c rest) = x :: split c rest.
Proof.
  induction x as [|d x IH].
  - intros _. rewrite sapp_nil_l. cbn [split]. rewrite Ascii.eqb_refl. reflexivity.
  - rewrite includes_cons, sapp_cons. cbn [split].
    destruct (Ascii.eqb d c); [discriminate|]. intros Hx. rewrite (IH Hx). reflexivity.
Qed.

(** Splitting undoes joining, for parts that do not hold the separator. *)
Lemma split_join c l :
  l <> [] -> Forall (fun v => includes c v = false) l ->
  split c (join (String c EmptyString) l) = l.
Proof.
  intros Hl Hall. induction Hall as [|v l Hv Hall IH]; [contradiction|].
  destruct l as [|v' l].
  - cbn [join]. apply split_none, Hv.
  - change (join (String c EmptyString) (v :: v' :: l))
      with (v +:+ String c EmptyString +:+ join (String c EmptyString) (v' :: l)).
    rewrite sapp_cons, sapp_nil_l, split_app by exact Hv.
    rewrite IH by discriminate. reflexivity.
Qed.

(** *** Trimming *)

Lemma includes_trimStart c s :
  is_white c = false -> includes c (trimStart s) = includes c s.
Proof.
  intros Hc. induction s as [|d s IH]; [reflexivity|].
  cbn [trimStart]. destruct (is_white d) eqn:Hd; [|reflexivity].
  rewrite IH, includes_cons. destruct (Ascii.eqb_spec d c) as [->|]; [congruence|reflexivity].
Qed.

Lemma trimEnd_cons d r :
  trimEnd (String d r)
  = match trimEnd r with
    | EmptyString => if is_white d then EmptyString else String d EmptyString
    | r' => String d r'
    end.
Proof. reflexivity. Qed.

Lemma includes_trimEnd c s :
  is_white c = false -> includes c (trimEnd s) = includes c s.
Proof.
  intros Hc. induction s as [|d s IH]; [reflexivity|].
  rewrite trimEnd_cons, includes_cons. destruct (trimEnd s) as [|e r'] eqn:E.
  - rewrite <- IH. cbn [includes].
    destruct (is_white d) eqn:Hd.
    + destruct (Ascii.eqb_spec d c) as [->|]; [congruence|reflexivity].
    + rewrite includes_cons. reflexivity.
  - rewrite includes_cons, IH. reflexivity.
Qed.

Lemma includes_trim c s : is_white c = false -> includes c (trim s) = includes c s.
Proof.
  intros Hc. unfold trim. rewrite includes_trimEnd, includes_trimStart by exact Hc.
  reflexivity.
Qed.

(** Trimming at the two ends in either order. *)
Lemma trim_comm s : trimEnd (trimStart s) = trimStart (trimEnd s).
Proof.
  induction s as [|d s IH]; [reflexivity|].
  cbn [trimStart]. rewrite trimEnd_cons. destruct (is_white d) eqn:Hd.
  - rewrite IH. destruct (trimEnd s) as [|e r']; [reflexivity|].
    cbn [trimStart]. rewrite Hd. reflexivity.
  - rewrite trimEnd_cons.
    destruct (trimEnd s) as [|e r']; cbn [trimStart]; rewrite Hd; reflexivity.
Qed.

Lemma map_trim l : map trim l = map trimStart (map trimEnd l).
Proof.
  rewrite map_map. apply map_ext. intros s. unfold trim. apply trim_comm.
Qed.

Lemma trimEnd_white_nil s : trimEnd s = EmptyString -> all_chars is_white s = true.
Proof.
  induction s as [|d s IH]; [reflexivity|].
  rewrite trimEnd_cons. cbn [all_chars].
  destruct (trimEnd s) as [|e r']; [|discriminate].
  destruct (is_white d); [intros _; apply IH; reflexivity|discriminate].
Qed.

Lemma white_trimEnd s : all_chars is_white s = true -> trimEnd s = EmptyString.
Proof.
  induction s as [|d s IH]; [reflexivity|].
  cbn [all_chars]. intros [Hd Hs]%andb_prop. rewrite trimEnd_cons, (IH Hs), Hd.
  reflexivity.
Qed.

Lemma white_includes c s :
  is_white c = false -> all_chars is_white s = true -> includes c s = false.
Proof.
  intros Hc. induction s as [|d s IH]; [reflexivity|].
  cbn [all_chars]. intros [Hd Hs]%andb_prop. rewrite includes_cons, (IH Hs).
  destruct (Ascii.eqb_spec d c) as [->|]; [congruence|reflexivity].
Qed.

(** Trimming the end of a string is trimming the end of its last part. *)
Lemma split_trimEnd c s :
  is_white c = false ->
  map trimEnd (split c (trimEnd s)) = map trimEnd (split c s).
Proof.
  intros Hc. induction s as [|d s IH]; [reflexivity|].
  rewrite trimEnd_cons. destruct (trimEnd s) as [|e r'] eqn:E.
  - pose proof (trimEnd_white_nil s E) as Hw.
    pose proof (white_includes c s Hc Hw) as Hn.
    rewrite (split_step c d s), (split_none c s Hn).
    destruct (is_white d) eqn:Hd.
    + destruct (Ascii.eqb_spec d c) as [->|]; [congruence|].
      cbn [split map]. rewrite trimEnd_cons, E, Hd. reflexivity.
    + rewrite split_step. destruct (Ascii.eqb d c).
      * cbn [split map trimEnd]. rewrite E. reflexivity.
      * cbn [split map]. rewrite !trimEnd_cons, E, Hd. reflexivity.
  - rewrite (split_step c d s), (split_step c d (String e r')).
    destruct (Ascii.eqb d c).
    + cbn [map]. rewrite IH. reflexivity.
    + destruct (split_cons c (String e r')) as (x' & xs' & Hx').
      destruct (split_cons c s) as (x & xs & Hx).
      rewrite Hx' in *. rewrite Hx in *. cbn [map] in *.
      injection IH as IH1 IH2. rewrite !trimEnd_cons, IH1, IH2. reflexivity.
Qed.

Lemma split_trimStart c s :
  is_white c = false ->
  map trimStart (split c (trimStart s)) = map trimStart (split c s).
Proof.
  intros Hc. induction s as [|d s IH]; [reflexivity|].
  cbn [trimStart]. destruct (is_white d) eqn:Hd; [|reflexivity].
  rewrite IH, (split_step c d s).
  destruct (Ascii.eqb_spec d c) as [->|]; [congruence|].
  destruct (split_cons c s) as (x & xs & ->). cbn [map trimStart]. rewrite Hd.
  reflexivity.
Qed.

Lemma map_trim_start_first l : map trim l = map trimEnd (map trimStart l).
Proof. rewrite map_map. reflexivity. Qed.

(** The fields of a trimmed output are the fields of the output. *)
Lemma split_trim c s :
  is_white c = false -> map trim (split c (trim s)) = map trim (split c s).
Proof.
  intros Hc. change (trim s) with (trimEnd (trimStart s)).
  rewrite (map_trim (split c (trimEnd (trimStart s)))), split_trimEnd by exact Hc.
  rewrite <- map_trim, map_trim_start_first, split_trimStart by exact Hc.
  rewrite <- map_trim_start_first. reflexivity.
Qed.

End TextFacts.

(** * Facts about the reading of numbers *)

Module ParseFacts.
Import JsString JsNumber Vocabulary StringFacts NumberFacts TextFacts.

(** *** A slash is in no numeric literal *)

Lemma scan_step_fail c : scan_step ScanFail c = ScanFail.
Proof. unfold scan_step. destruct (digit_of 10 c); reflexivity. Qed.

Lemma scan_run_fail s : scan_run ScanFail s = ScanFail.
Proof.
  induction s as [|d s IH]; [reflexivity|].
  cbn [scan_run]. rewrite scan_step_fail. exact IH.
Qed.

Lemma scan_step_slash st : scan_step st "/" = ScanFail.
Proof.
  destruct st as [m seen|m f seen|m f|m f e|m f e v|];
    try reflexivity; destruct seen; reflexivity.
Qed.

Lemma scan_run_slash st s : includes "/" s = true -> scan_run st s = ScanFail.
Proof.
  revert st. induction s as [|d s IH]; intros st; [discriminate|].
  rewrite includes_cons. cbn [scan_run].
  destruct (Ascii.eqb_spec d "/") as [->|].
  - intros _. rewrite scan_step_slash. apply scan_run_fail.
  - apply IH.
Qed.

Lemma digit_of_slash base : digit_of base "/" = None.
Proof. unfold digit_of. simpl. rewrite Z.ltb_irrefl. reflexivity. Qed.

Lemma radix_run_slash base acc s :
  includes "/" s = true -> radix_run base acc s = None.
Proof.
  revert acc. induction s as [|d s IH]; intros acc; [discriminate|].
  rewrite includes_cons. cbn [radix_run]. destruct acc as [a|]; [|reflexivity].
  destruct (Ascii.eqb_spec d "/") as [->|].
  - intros _. rewrite digit_of_slash. reflexivity.
  - intros Hs. destruct (digit_of base d); [apply IH, Hs|reflexivity].
Qed.

Lemma radix_literal_slash t : includes "/" t = true -> radix_literal t = None.
Proof.
  destruct t as [|a [|b [|d r]]]; try reflexivity.
  - intros _. unfold radix_literal.
    destruct a as [[] [] [] [] [] [] [] []]; reflexivity.
  - intros _. unfold radix_literal.
    destruct a as [[] [] [] [] [] [] [] []]; reflexivity.
  - intros Ht. unfold radix_literal.
    destruct a as [[] [] [] [] [] [] [] []]; try reflexivity.
    destruct (radix_of b) as [base|] eqn:Eb; [|reflexivity].
    apply radix_run_slash.
    rewrite includes_cons in Ht. cbn [Ascii.eqb Bool.eqb] in Ht.
    rewrite includes_cons in Ht.
    destruct (Ascii.eqb_spec b "/") as [->|]; [discriminate Eb|exact Ht].
Qed.

Lemma slash_not_Infinity s : includes "/" s = true -> String.eqb s "Infinity" = false.
Proof.
  intros Hs. destruct (String.eqb_spec s "Infinity") as [->|]; [discriminate|reflexivity].
Qed.

(** [Number] of a string that holds a slash is NaN. *)
Lemma Number_slash s : includes "/" s = true -> Number s = NaN.
Proof.
  intros Hs. rewrite <- (includes_trim "/" s eq_refl) in Hs.
  unfold Number. destruct (trim s) as [|c r]; [discriminate|].
  destruct (Ascii.eqb c "+" || Ascii.eqb c "-") eqn:Es.
  - assert (Hr : includes "/" r = true).
    { rewrite includes_cons in Hs.
      destruct (Ascii.eqb_spec c "/") as [->|]; [discriminate Es|exact Hs]. }
    rewrite (slash_not_Infinity _ Hr), (scan_run_slash _ _ Hr). reflexivity.
  - rewrite (slash_not_Infinity _ Hs), (scan_run_slash _ _ Hs),
      (radix_literal_slash _ Hs).
    reflexivity.
Qed.

(** *** The digits of a natural number *)

Lemma digits_aux_acc f n acc :
  digits_aux f n acc = digits_aux f n EmptyString +:+ acc.
Proof.
  revert n acc. induction f as [|f IH]; intros n acc; [reflexivity|].
  rewrite !digits_aux_S. destruct (n <? 10); [reflexivity|].
  rewrite (IH _ (String _ acc)), (IH _ (String _ EmptyString)), sapp_assoc.
  reflexivity.
Qed.

Lemma log2_div10 n : 10 <= n -> Z.log2 (n / 10) < Z.log2 n.
Proof.
  intros Hn.
  assert (H2 : Z.log2 (n / 2) = Z.log2 n - 1).
  { rewrite <- Z.div2_div, Z.div2_spec, Z.log2_shiftr by lia.
    rewrite Z.max_r; [reflexivity|].
    pose proof (Z.log2_le_mono 2 n ltac:(lia)). change (Z.log2 2) with 1 in *. lia. }
  pose proof (Z.log2_le_mono (n / 10) (n / 2)
                ltac:(apply Z.div_le_compat_l; lia)).
  lia.
Qed.

Lemma digits_aux_fuel f g n :
  0 <= n -> Z.log2 n < Z.of_nat f -> Z.log2 n < Z.of_nat g ->
  digits_aux f n EmptyString = digits_aux g n EmptyString.
Proof.
  revert g n. induction f as [|f IH]; intros g n Hn Hf Hg.
  { pose proof (Z.log2_nonneg n). lia. }
  destruct g as [|g]; [pose proof (Z.log2_nonneg n); lia|].
  rewrite !digits_aux_S. destruct (Z.ltb_spec n 10) as [|H10]; [reflexivity|].
  rewrite (digits_aux_acc f), (digits_aux_acc g).
  pose proof (log2_div10 n H10).
  rewrite (IH g (n / 10)); [reflexivity| |lia|lia].
  apply Z.div_pos; lia.
Qed.

Lemma digits_small n : 0 <= n < 10 -> digits n = String (digit_char n) EmptyString.
Proof.
  intros Hn. unfold digits. rewrite digits_aux_S.
  destruct (Z.ltb_spec n 10); [|lia]. rewrite Z.mod_small by lia. reflexivity.
Qed.

Lemma digits_step n :
  10 <= n -> digits n = digits (n / 10) +:+ String (digit_char (n mod 10)) EmptyString.
Proof.
  intros Hn. unfold digits at 1. rewrite digits_aux_S.
  destruct (Z.ltb_spec n 10); [lia|]. rewrite digits_aux_acc. f_equal.
  pose proof (log2_div10 n Hn). pose proof (Z.log2_nonneg (n / 10)).
  apply digits_aux_fuel; [apply Z.div_pos; lia|lia|lia].
Qed.

Lemma digit_of_digit_char k : 0 <= k < 10 -> digit_of 10 (digit_char k) = Some k.
Proof.
  intros Hk.
  assert (E : k = 0 \/ k = 1 \/ k = 2 \/ k = 3 \/ k = 4 \/ k = 5 \/ k = 6 \/ k = 7
              \/ k = 8 \/ k = 9) by lia.
  repeat destruct E as [->|E]; try subst k; reflexivity.
Qed.

Lemma is_digit_digit_char k : 0 <= k < 10 -> is_digit (digit_char k) = true.
Proof.
  intros Hk.
  assert (E : k = 0 \/ k = 1 \/ k = 2 \/ k = 3 \/ k = 4 \/ k = 5 \/ k = 6 \/ k = 7
              \/ k = 8 \/ k = 9) by lia.
  repeat destruct E as [->|E]; try subst k; reflexivity.
Qed.

(** Reading the digits of a natural number gives the number back. *)
Lemma scan_digits n :
  0 <= n -> scan_run (ScanInt 0 false) (digits n) = ScanInt n true.
Proof.
  intros Hn. pattern n. apply Zlt_0_ind; [|exact Hn].
  clear n Hn. intros n IH Hn.
  destruct (Z.ltb_spec n 10) as [Hs|Hl].
  - rewrite digits_small by lia. cbn [scan_run]. unfold scan_step.
    rewrite digit_of_digit_char by lia. f_equal.
  - rewrite digits_step, scan_run_snoc by lia.
    rewrite IH by (split; [apply Z.div_pos; lia|apply Z.div_lt; lia]).
    unfold scan_step. rewrite digit_of_digit_char by (apply Z.mod_pos_bound; lia).
    f_equal. rewrite (Z.div_mod n 10) at 3 by lia. reflexivity.
Qed.

Lemma all_chars_app P s t : all_chars P (s +:+ t) = all_chars P s && all_chars P t.
Proof.
  induction s as [|c s IH]; [reflexivity|].
  rewrite sapp_cons. cbn [all_chars]. rewrite IH, andb_assoc. reflexivity.
Qed.

Lemma all_chars_impl (P Q : ascii -> bool) s :
  (forall c, P c = true -> Q c = true) -> all_chars P s = true -> all_chars Q s = true.
Proof.
  intros HPQ. induction s as [|c s IH]; [reflexivity|].
  cbn [all_chars]. intros [Hc Hs]%andb_prop. rewrite (HPQ _ Hc), (IH Hs). reflexivity.
Qed.

Lemma digits_are_digits n : 0 <= n -> all_chars is_digit (digits n) = true.
Proof.
  intros Hn. pattern n. apply Zlt_0_ind; [|exact Hn].
  clear n Hn. intros n IH Hn.
  destruct (Z.ltb_spec n 10) as [Hs|Hl].
  - rewrite digits_small by lia. cbn [all_chars].
    rewrite is_digit_digit_char by lia. reflexivity.
  - rewrite digits_step, all_chars_app by lia. cbn [all_chars].
    rewrite IH, is_digit_digit_char; [reflexivity|apply Z.mod_pos_bound; lia|].
    split; [apply Z.div_pos; lia|apply Z.div_lt; lia].
Qed.

Lemma digits_cons n : exists c r, digits n = String c r.
Proof.
  unfold digits. rewrite digits_aux_S. destruct (n <? 10); [eexists _, _; reflexivity|].
  rewrite digits_aux_acc.
  destruct (digits_aux _ _ EmptyString); eexists _, _; reflexivity.
Qed.

Lemma digit_not_white c : is_digit c = true -> negb (is_white c) = true.
Proof. destruct c as [[] [] [] [] [] [] [] []]; intros Hc; try discriminate Hc; reflexivity. Qed.

Lemma digit_not_sign c :
  is_digit c = true -> Ascii.eqb c "+" || Ascii.eqb c "-" = false.
Proof. destruct c as [[] [] [] [] [] [] [] []]; intros Hc; try discriminate Hc; reflexivity. Qed.

Lemma digit_not_I c : is_digit c = true -> Ascii.eqb c "I" = false.
Proof. destruct c as [[] [] [] [] [] [] [] []]; intros Hc; try discriminate Hc; reflexivity. Qed.

Lemma digits_no_white n : 0 <= n -> no_white (digits n) = true.
Proof.
  intros Hn. unfold no_white.
  apply (all_chars_impl is_digit); [apply digit_not_white|apply digits_are_digits, Hn].
Qed.

(** *** Strings with no white space *)

Lemma no_white_trimStart s : no_white s = true -> trimStart s = s.
Proof.
  destruct s as [|c s]; [reflexivity|]. unfold no_white. cbn [all_chars trimStart].
  intros [Hc _]%andb_prop. apply negb_true_iff in Hc. rewrite Hc. reflexivity.
Qed.

Lemma no_white_trimEnd s : no_white s = true -> trimEnd s = s.
Proof.
  unfold no_white. induction s as [|c s IH]; [reflexivity|].
  cbn [all_chars]. intros [Hc Hs]%andb_prop. apply negb_true_iff in Hc.
  rewrite trimEnd_cons, (IH Hs), Hc. destruct s; reflexivity.
Qed.

Lemma no_white_trim s : no_white s = true -> trim s = s.
Proof.
  intros Hs. unfold trim. rewrite (no_white_trimStart s Hs). apply no_white_trimEnd, Hs.
Qed.

(** [Number] of the digits of a natural number is the Number nearest to it. *)
Lemma Number_digits n : 0 <= n -> Number (digits n) = of_Z n.
Proof.
  intros Hn. unfold Number. rewrite (no_white_trim _ (digits_no_white n Hn)).
  pose proof (digits_are_digits n Hn) as Hd.
  pose proof (scan_digits n Hn) as Hscan.
  destruct (digits n) as [|c r] eqn:E; [destruct (digits_cons n) as (? & ? & ?); congruence|].
  cbn [all_chars] in Hd. apply andb_prop in Hd as [Hc _].
  rewrite (digit_not_sign c Hc).
  assert (Hinf : String.eqb (String c r) "Infinity" = false).
  { cbn [String.eqb]. rewrite (digit_not_I c Hc). reflexivity. }
  rewrite Hinf, Hscan. cbn [scan_result].
  assert (Hm : Ascii.eqb c "-" = false).
  { pose proof (digit_not_sign c Hc) as Hsign. apply orb_false_elim in Hsign as [_ Hm].
    exact Hm. }
  rewrite Hm. unfold of_decimal, of_Z.
  destruct n as [|p|p]; [reflexivity| |lia].
  cbn [Z.leb Z.compare cond_Zopp]. rewrite Z.pow_0_r, Z.mul_1_r. reflexivity.
Qed.

(** *** Tokens separated by white space *)

Lemma split_ws_aux_cons b d r :
  split_ws_aux b (String d r)
  = if is_white d then
      if b then split_ws_aux true r else EmptyString :: split_ws_aux true r
    else match split_ws_aux false r with
         | x :: xs => String d x :: xs
         | [] => [String d EmptyString]
         end.
Proof. reflexivity. Qed.

Lemma split_ws_token s : no_white s = true -> split_ws_aux false s = [s].
Proof.
  unfold no_white. induction s as [|c s IH]; [reflexivity|].
  cbn [all_chars]. intros [Hc Hs]%andb_prop. apply negb_true_iff in Hc.
  rewrite split_ws_aux_cons, Hc, (IH Hs). reflexivity.
Qed.

Lemma split_ws_token_in_run s :
  no_white s = true -> s <> EmptyString -> split_ws_aux true s = [s].
Proof.
  intros Hs Hne. destruct s as [|c s]; [contradiction|].
  pose proof (split_ws_token _ Hs) as E. rewrite split_ws_aux_cons in *.
  unfold no_white in Hs. cbn [all_chars] in Hs. apply andb_prop in Hs as [Hc _].
  apply negb_true_iff in Hc. rewrite Hc in *. exact E.
Qed.

Lemma split_ws_two a b :
  no_white a = true -> no_white b = true -> a <> EmptyString -> b <> EmptyString ->
  split_ws (a +:+ " " +:+ b) = [a; b].
Proof.
  intros Ha Hb Hna Hnb. unfold split_ws.
  assert (G : forall x, no_white x = true ->
              split_ws_aux false (x +:+ " " +:+ b)
              = match x with
                | EmptyString => [EmptyString; b]
                | _ => [x; b]
                end).
  { induction x as [|c x IH].
    - intros _. rewrite sapp_nil_l.
      change (" " +:+ b) with (String " " b).
      rewrite split_ws_aux_cons. cbn [is_white Ascii.is_space].
      rewrite (split_ws_token_in_run b Hb Hnb). reflexivity.
    - unfold no_white. cbn [all_chars]. intros [Hc Hx]%andb_prop.
      apply negb_true_iff in Hc. rewrite sapp_cons, split_ws_aux_cons, Hc, (IH Hx).
      destruct x; reflexivity. }
  rewrite (G a Ha). destruct a; [contradiction|reflexivity].
Qed.

Lemma trimEnd_app_token x b :
  no_white b = true -> b <> EmptyString -> trimEnd (x +:+ b) = x +:+ b.
Proof.
  intros Hb Hnb. induction x as [|c x IH].
  - rewrite sapp_nil_l. apply no_white_trimEnd, Hb.
  - rewrite sapp_cons, trimEnd_cons, IH.
    destruct (x +:+ b) eqn:E; [|reflexivity].
    destruct x; [rewrite sapp_nil_l in E; contradiction|discriminate E].
Qed.

Lemma trim_two a b :
  no_white a = true -> no_white b = true -> a <> EmptyString -> b <> EmptyString ->
  trim (a +:+ " " +:+ b) = a +:+ " " +:+ b.
Proof.
  intros Ha Hb Hna Hnb. unfold trim.
  destruct a as [|c a]; [contradiction|].
  unfold no_white in Ha. cbn [all_chars] in Ha. apply andb_prop in Ha as [Hc _].
  apply negb_true_iff in Hc. rewrite sapp_cons. cbn [trimStart]. rewrite Hc.
  rewrite <- sapp_cons, <- sapp_assoc. apply trimEnd_app_token; assumption.
Qed.

End ParseFacts.

(** * Facts about the printing of numbers and the escaping of text *)

Module FormatFacts.
Import JsString JsNumber Exif Shell Vocabulary StringFacts NumberFacts TextFacts.

Lemma count_char_app c s t :
  count_char c (s +:+ t) = (count_char c s + count_char c t)%nat.
Proof.
  induction s as [|d s IH]; [reflexivity|].
  rewrite sapp_cons. cbn [count_char]. rewrite IH. lia.
Qed.

Lemma count_char_absent c s : includes c s = false -> count_char c s = O.
Proof.
  induction s as [|d s IH]; [reflexivity|].
  rewrite includes_cons. cbn [count_char]. destruct (Ascii.eqb d c); [discriminate|].
  intros Hs. rewrite (IH Hs). reflexivity.
Qed.

Lemma dot_zeros n : includes "." (zeros n) = false.
Proof. induction n as [|n IH]; [reflexivity|exact IH]. Qed.

Lemma dot_digits n : count_char "." (digits n) = O.
Proof. apply count_char_absent, includes_digits, not_digit_dot. Qed.

Lemma dot_ssub a b n : count_char "." (ssub a b (digits n)) = O.
Proof.
  apply count_char_absent. unfold ssub.
  apply includes_substring, includes_digits, not_digit_dot.
Qed.

(** A Number prints with one dot at most. *)
Lemma dot_layout d n : (count_char "." (layout (digits d) n) <= 1)%nat.
Proof.
  unfold layout.
  repeat match goal with |- context [if ?b then _ else _] => destruct b end;
    rewrite ?count_char_app, ?dot_digits, ?dot_ssub,
      ?(count_char_absent _ _ (dot_zeros _));
    cbn [count_char Ascii.eqb Bool.eqb]; lia.
Qed.

Lemma dot_toString x : (count_char "." (toString x) <= 1)%nat.
Proof.
  destruct x as [s|s| |s m e]; [cbn; lia|destruct s; cbn; lia|cbn; lia|].
  unfold toString. destruct (fraction m e) as [p q].
  destruct (shortest _ _ _ _ _ _) as [d n].
  rewrite count_char_app. pose proof (dot_layout d n).
  destruct s; cbn [count_char Ascii.eqb Bool.eqb]; lia.
Qed.

Lemma dot_toFixed1 x : (count_char "." (toFixed1 x) <= 1)%nat.
Proof.
  destruct x as [s|s| |s m e]; [cbn; lia|destruct s; cbn; lia|cbn; lia|].
  unfold toFixed1. destruct (fraction m e) as [p q] eqn:Ef.
  destruct (_ <=? _).
  - apply dot_toString.
  - rewrite !count_char_app, !dot_digits.
    destruct s; cbn [count_char Ascii.eqb Bool.eqb]; lia.
Qed.

Lemma ends_with_eq suffix s :
  ends_with suffix s
  = if String.eqb s suffix then true
    else match s with
         | EmptyString => false
         | String _ r => ends_with suffix r
         end.
Proof. destruct s; reflexivity. Qed.

Lemma ends_with_app p suffix : ends_with suffix (p +:+ suffix) = true.
Proof.
  induction p as [|c p IH].
  - rewrite sapp_nil_l, ends_with_eq, String.eqb_refl. reflexivity.
  - rewrite sapp_cons, ends_with_eq, IH. destruct (String.eqb _ _); reflexivity.
Qed.

Lemma ends_with_inv suffix s : ends_with suffix s = true -> exists p, s = p +:+ suffix.
Proof.
  induction s as [|c s IH]; rewrite ends_with_eq.
  - destruct (String.eqb_spec EmptyString suffix) as [<-|]; [|discriminate].
    intros _. exists EmptyString. reflexivity.
  - destruct (String.eqb_spec (String c s) suffix) as [<-|].
    + intros _. exists EmptyString. reflexivity.
    + intros Hs. destruct (IH Hs) as [p ->]. exists (String c p). reflexivity.
Qed.

(** What the removal of a final [.0] leaves. *)
Lemma strip_dot0_spec s :
  (exists p, s = p +:+ ".0" /\ strip_dot0 s = p)
  \/ (ends_with ".0" s = false /\ strip_dot0 s = s).
Proof.
  induction s as [|c s IH].
  - right. split; reflexivity.
  - rewrite strip_dot0_cons, (ends_with_eq ".0" (String c s)).
    destruct (String.eqb_spec (String c s) ".0") as [E|E].
    + left. exists EmptyString. split; [exact E|reflexivity].
    + destruct IH as [(p & -> & ->)|[Hn ->]].
      * left. exists (String c p). split; reflexivity.
      * right. split; [exact Hn|reflexivity].
Qed.

(** After the removal no [.0] is left at the end of a string that had one
    dot at most. *)
Lemma strip_dot0_clean s :
  (count_char "." s <= 1)%nat -> ends_with ".0" (strip_dot0 s) = false.
Proof.
  intros Hs. destruct (strip_dot0_spec s) as [(p & E & ->)|[Hn ->]]; [|exact Hn].
  destruct (ends_with ".0" p) eqn:Hp; [|reflexivity].
  apply ends_with_inv in Hp as [q ->]. subst s.
  rewrite !count_char_app in Hs. cbn [count_char Ascii.eqb Bool.eqb] in Hs. lia.
Qed.

(** *** The escaping of the annotate text *)

Lemma escape_quotes_cons c r :
  escape_quotes (String c r)
  = if Ascii.eqb c (ascii_of_nat 34) || Ascii.eqb c "\"%char
    then String "\"%char (String c (escape_quotes r))
    else String c (escape_quotes r).
Proof. reflexivity. Qed.

Lemma unescape_escape s : unescape (escape_quotes s) = s.
Proof.
  induction s as [|c s IH]; [reflexivity|].
  rewrite escape_quotes_cons.
  destruct (Ascii.eqb c (ascii_of_nat 34) || Ascii.eqb c "\"%char) eqn:E.
  - cbn [unescape Ascii.eqb Bool.eqb]. rewrite IH. reflexivity.
  - apply orb_false_elim in E as [_ E]. cbn [unescape]. rewrite E, IH. reflexivity.
Qed.

Lemma bare_quote_escape s : bare_quote (escape_quotes s) = false.
Proof.
  induction s as [|c s IH]; [reflexivity|].
  rewrite escape_quotes_cons.
  destruct (Ascii.eqb c (ascii_of_nat 34) || Ascii.eqb c "\"%char) eqn:E.
  - cbn [bare_quote Ascii.eqb Bool.eqb]. exact IH.
  - apply orb_false_elim in E as [E1 E2]. cbn [bare_quote]. rewrite E1, E2. exact IH.
Qed.

Lemma escape_plain s : all_chars plain_char s = true -> escape_quotes s = s.
Proof.
  induction s as [|c s IH]; [reflexivity|].
  cbn [all_chars]. intros [Hc Hs]%andb_prop. unfold plain_char in Hc.
  apply negb_true_iff in Hc. rewrite escape_quotes_cons, Hc, (IH Hs). reflexivity.
Qed.

Lemma length_escape s :
  String.length (escape_quotes s)
  = (String.length s + count_char (ascii_of_nat 34) s + count_char "\"%char s)%nat.
Proof.
  induction s as [|c s IH]; [reflexivity|].
  rewrite escape_quotes_cons. cbn [count_char String.length].
  destruct (Ascii.eqb_spec c (ascii_of_nat 34)) as [->|H1].
  - cbn [orb String.length Ascii.eqb Bool.eqb]. rewrite IH.
    replace (Ascii.eqb (ascii_of_nat 34) "\"%char) with false by reflexivity. lia.
  - destruct (Ascii.eqb c "\"%char); cbn [orb String.length]; rewrite IH; lia.
Qed.

(** *** The extension test *)

Lemma lower_string_app a b :
  lower_string (a +:+ b) = lower_string a +:+ lower_string b.
Proof.
  induction a as [|c a IH]; [reflexivity|].
  rewrite sapp_cons. cbn [lower_string]. rewrite IH. reflexivity.
Qed.

Lemma lower_string_split f a b :
  lower_string f = a +:+ b ->
  exists a' b', f = a' +:+ b' /\ lower_string a' = a /\ lower_string b' = b.
Proof.
  revert f. induction a as [|c a IH]; intros f E.
  - exists EmptyString, f. repeat split. exact E.
  - destruct f as [|d f]; [discriminate|].
    rewrite sapp_cons in E. cbn [lower_string] in E. injection E as Ec Ef.
    destruct (IH _ Ef) as (a' & b' & -> & Ha & Hb).
    exists (String d a'), b'. repeat split; [|exact Hb].
    cbn [lower_string]. rewrite Ec, Ha. reflexivity.
Qed.

Lemma is_image_iff f :
  is_image f = true
  <-> exists stem ext, f = stem +:+ ext /\ In (lower_string ext) extensions.
Proof.
  unfold is_image. rewrite existsb_exists. split.
  - intros (x & Hin & Hx). apply ends_with_inv in Hx as [p Hp].
    apply lower_string_split in Hp as (stem & ext & -> & _ & Hext).
    exists stem, ext. split; [reflexivity|]. rewrite Hext. exact Hin.
  - intros (stem & ext & -> & Hin). exists (lower_string ext). split; [exact Hin|].
    rewrite lower_string_app. apply ends_with_app.
Qed.



End FormatFacts.

(** * Facts about the order of Numbers *)

Module OrderFacts.
Import JsNumber Vocabulary FloatFacts.

Lemma compare_antisym x y : compare y x = option_map CompOpp (compare x y).
Proof.
  destruct x as [sx|sx| |sx mx ex], y as [sy|sy| |sy my ey]; cbn [compare option_map];
    try reflexivity;
    try (destruct sx; reflexivity);
    try (destruct sy; reflexivity);
    try (destruct sx, sy; reflexivity).
  rewrite (Z.min_comm ey ex), Z.compare_antisym. reflexivity.
Qed.

Lemma compare_refl x : x <> NaN -> compare x x = Some Eq.
Proof.
  destruct x as [s|s| |s m e]; cbn [compare]; intros Hx;
    [reflexivity|destruct s; reflexivity|contradiction|].
  rewrite Z.compare_refl. reflexivity.
Qed.

Lemma compare_not_NaN x y c : compare x y = Some c -> x <> NaN /\ y <> NaN.
Proof.
  destruct x as [sx|sx| |sx mx ex], y as [sy|sy| |sy my ey]; cbn [compare];
    intros E; try discriminate E; split; discriminate.
Qed.

(** [Math.max] is NaN or not below its first argument. *)
Lemma Math_max_ge a b : Math_max a b = NaN \/ geb (Math_max a b) a = true.
Proof.
  unfold Math_max, geb. destruct (compare a b) as [[]|] eqn:E; [| | |left; reflexivity];
    right; destruct (compare_not_NaN _ _ _ E) as [Ha Hb].
  - destruct a as [[]|s| |s m e];
      rewrite ?(compare_antisym _ b), ?E; cbn [option_map CompOpp];
      rewrite ?compare_refl by assumption; reflexivity.
  - rewrite (compare_antisym a b), E. reflexivity.
  - rewrite compare_refl by assumption. reflexivity.
Qed.

(** [Math.max(0, x)] is NaN or carries no minus sign. *)
Lemma Math_max_zero_sign x :
  Math_max lit_0 x = NaN \/ sign_of (Math_max lit_0 x) = Some false.
Proof.
  destruct x as [[]|[]| |[] m e]; cbn; auto.
Qed.

Lemma Math_max_NaN a : Math_max a NaN = NaN.
Proof. destruct a; reflexivity. Qed.

End OrderFacts.

(** * Facts about the batch *)

Module BatchFacts.
Import JsString JsNumber Exif Watermark Shell Vocabulary.
Import StringFacts ShellFacts TaskFacts.

Lemma post_intro {A} (m : M A) w (Q : result A -> world -> list event -> Prop) :
  (forall r w' t, m w = (r, w', t) -> Q r w' t) -> post m w Q.
Proof. intros HQ. unfold post. destruct (m w) as [[r w'] t] eqn:E. apply HQ. reflexivity. Qed.

Lemma post_try_catch {A} (m : M A) handler w
    (Q : result A -> world -> list event -> Prop) :
  post m w (fun r w1 t1 =>
    match r with
    | Return a => Q (Return a) w1 t1
    | Throw e => post (handler e) w1 (fun r2 w2 t2 => Q r2 w2 (t1 ++ t2))
    end) ->
  post (try_catch m handler) w Q.
Proof.
  unfold post, try_catch. destruct (m w) as [[[a|e] w1] t1]; [auto|].
  destruct (handler e w1) as [[r2 w2] t2]. auto.
Qed.

(** *** Paths *)

Lemma sapp_inj_l p a b : p +:+ a = p +:+ b -> a = b.
Proof.
  induction p as [|c p IH]; [exact (fun E => E)|].
  rewrite !sapp_cons. intros [= E]. apply IH, E.
Qed.

Lemma path_join_inj d a b : path_join d a = path_join d b -> a = b.
Proof. unfold path_join. intros E. apply sapp_inj_l in E. apply (sapp_inj_l "/"), E. Qed.

Lemma not_elem_of_3 (p a b c : string) : p ∉ [a; b; c] -> p <> a /\ p <> b /\ p <> c.
Proof.
  intros Hp. repeat split; intros ->; apply Hp; repeat constructor.
Qed.

Lemma not_elem_of_touched p file :
  p ∉ touched file ->
  p <> Pipeline.temp file /\ p <> Pipeline.tempFull file
  /\ p <> Pipeline.tempThumb file /\ p <> Pipeline.outFull file
  /\ p <> Pipeline.outThumb file.
Proof.
  intros Hp. repeat split; intros ->; apply Hp; unfold touched, temporaries, outputs;
    cbn [app]; repeat constructor.
Qed.

(** An output of one file is no temporary of another. *)
Lemma outputs_not_temporaries f g p :
  p ∈ outputs f -> p ∉ temporaries g.
Proof.
  unfold outputs, temporaries. intros Hp Hq.
  repeat (apply elem_of_cons in Hp as [->|Hp]);
    [| |apply elem_of_nil in Hp; contradiction];
    repeat (apply elem_of_cons in Hq as [Hq|Hq]);
    try (apply elem_of_nil in Hq; contradiction);
    apply (f_equal (String.get 8)) in Hq; vm_compute in Hq; discriminate Hq.
Qed.

(** *** The four paths *)

Ltac framed file :=
  unfold frame_post, has_outputs;
  split;
  [ intros p (P1 & P2 & P3 & P4 & P5)%not_elem_of_touched; fs; reflexivity |];
  split;
  [ intros p (P1 & P2 & P3)%not_elem_of_3 Hsome;
    destruct (decide (p = Pipeline.outFull file)) as [->|];
    [|destruct (decide (p = Pipeline.outThumb file)) as [->|]];
    fs; eauto |];
  first [ intros Hr; discriminate Hr | intros _; split; fs; eauto ].

Section Task.
Context `{MathLib} `{Toolchain}.

Lemma primary_frames file w : post (Pipeline.primary file) w (frame_post file w).
Proof.
  pose proof (paths_differ file) as
    (D1 & D2 & D3 & D4 & D5 & D6 & D7 & D8 & D9 & D10 & D11 & D12 & D13 & D14 & D15).
  unfold Pipeline.primary, Pipeline.readExif, Pipeline.addWatermark,
    Pipeline.imageDims, Pipeline.cleanup.
  cbn [for_each].
  wp.
  all: framed file.
Qed.

Lemma fallback_frames file w : post (Pipeline.fallback file) w (frame_post file w).
Proof.
  pose proof (paths_differ file) as
    (D1 & D2 & D3 & D4 & D5 & D6 & D7 & D8 & D9 & D10 & D11 & D12 & D13 & D14 & D15).
  unfold Pipeline.fallback, Pipeline.readExif, Pipeline.addWatermark,
    Pipeline.imageDims.
  wp.
  all: framed file.
Qed.

Lemma legacy_primary_frames file w : post (Legacy.primary file) w (frame_post file w).
Proof.
  pose proof (paths_differ file) as
    (D1 & D2 & D3 & D4 & D5 & D6 & D7 & D8 & D9 & D10 & D11 & D12 & D13 & D14 & D15).
  unfold Legacy.primary.
  change (Legacy.filePath file) with (Pipeline.orig file).
  change (Legacy.tempPath file) with (Pipeline.temp file).
  change (Legacy.fullSizePath file) with (Pipeline.outFull file).
  change (Legacy.thumbPath file) with (Pipeline.outThumb file).
  wp.
  all: framed file.
Qed.

Lemma legacy_fallback_frames file w :
  post (Legacy.fallback file) w (frame_post file w).
Proof.
  pose proof (paths_differ file) as
    (D1 & D2 & D3 & D4 & D5 & D6 & D7 & D8 & D9 & D10 & D11 & D12 & D13 & D14 & D15).
  unfold Legacy.fallback.
  change (Legacy.filePath file) with (Pipeline.orig file).
  change (Legacy.fullSizePath file) with (Pipeline.outFull file).
  change (Legacy.thumbPath file) with (Pipeline.outThumb file).
  wp.
  all: framed file.
Qed.

End Task.

(** *** The body of the loop and the loop *)

Lemma is_Some_insert (m : gmap string content) k v p :
  is_Some (m !! p) -> is_Some (<[k := v]> m !! p).
Proof.
  intros Hp. destruct (decide (k = p)) as [->|Hk].
  - rewrite lookup_insert_eq. eauto.
  - rewrite lookup_insert_ne by exact Hk. exact Hp.
Qed.

(** Any body built on the skeleton returns, changes the paths of its file
    only, removes temporaries only and leaves both outputs. *)
Lemma guarded_frames primary fallback process :
  (forall file, process file
                = guarded file (Pipeline.outFull file) (Pipeline.outThumb file)
                          (primary file) (fallback file)) ->
  (forall file w, post (primary file) w (frame_post file w)) ->
  (forall file w, post (fallback file) w (frame_post file w)) ->
  step_frames process
  /\ (forall file w, exists w' t, process file w = (Return tt, w', t)).
Proof.
  intros Hp Hprim Hfall.
  assert (Hall : forall file w r w' t, process file w = (r, w', t) ->
            r = Return tt /\ frame_post file w r w' t).
  { intros file w r w' t. rewrite Hp, guarded_eq.
    destruct (primary file w) as [[[a|err] w1] t1] eqn:E1;
      pose proof (post_elim _ _ _ _ _ _ (Hprim file w) E1) as (F1 & K1 & M1).
    - intros [= <- <- <-]. split; [reflexivity|].
      split; [exact F1|]. split; [exact K1|]. intros _. apply M1.
      destruct a. reflexivity.
    - destruct (fallback file w1) as [[[a|ferr] w2] t2] eqn:E2;
        pose proof (post_elim _ _ _ _ _ _ (Hfall file w1) E2) as (F2 & K2 & M2);
        intros [= <- <- <-]; (split; [reflexivity|]).
      + split; [intros p Hq; rewrite F2, F1 by exact Hq; reflexivity|].
        split; [intros p Hq Hs; apply K2, K1; assumption|].
        intros _. apply M2. destruct a. reflexivity.
      + split.
        { intros p Hq. cbn [files set_files].
          pose proof (not_elem_of_touched _ _ Hq) as (_ & _ & _ & P4 & P5).
          rewrite !lookup_insert_ne by congruence. rewrite F2, F1 by exact Hq.
          reflexivity. }
        split.
        { intros p Hq Hs. cbn [files set_files].
          apply is_Some_insert, is_Some_insert, K2, K1; assumption. }
        intros _. unfold has_outputs. cbn [files set_files]. split.
        * apply is_Some_insert. rewrite lookup_insert_eq. eauto.
        * rewrite lookup_insert_eq. eauto. }
  split.
  - split.
    + intros file w r w1 t p E. apply (Hall _ _ _ _ _ E).
    + intros file w r w1 t p E. apply (Hall _ _ _ _ _ E).
    + intros file w w1 t E. apply (Hall _ _ _ _ _ E). reflexivity.
  - intros file w. destruct (process file w) as [[r w'] t] eqn:E.
    destruct (Hall _ _ _ _ _ E) as [-> _]. eexists _, _. reflexivity.
Qed.

(** The loop over the files of a batch. *)
Lemma batch_run step names :
  step_frames step ->
  (forall file w, exists w' t, step file w = (Return tt, w', t)) ->
  forall w, exists w' t,
    for_each names step w = (Return tt, w', t)
    /\ (forall p, (forall f, f ∈ names -> p ∉ touched f) ->
                  files w' !! p = files w !! p)
    /\ (forall p, (forall f, f ∈ names -> p ∉ temporaries f) ->
                  is_Some (files w !! p) -> is_Some (files w' !! p))
    /\ (forall f, f ∈ names -> has_outputs f w').
Proof.
  intros [Hframe Hkeeps Hmakes] Hret.
  induction names as [|file names IH]; intros w.
  - exists w, []. split; [reflexivity|]. split; [reflexivity|]. split; [auto|].
    intros f Hf. apply elem_of_nil in Hf. contradiction.
  - destruct (Hret file w) as (w1 & t1 & E1).
    destruct (IH w1) as (w2 & t2 & E2 & F2 & K2 & M2).
    exists w2, (t1 ++ t2). cbn [for_each]. unfold bind. rewrite E1, E2.
    split; [reflexivity|]. split; [|split].
    + intros p Hq. rewrite F2 by (intros f Hf; apply Hq; right; exact Hf).
      apply (Hframe _ _ _ _ _ _ E1), Hq. left.
    + intros p Hq Hs. apply K2; [intros f Hf; apply Hq; right; exact Hf|].
      apply (Hkeeps _ _ _ _ _ _ E1); [apply Hq; left|exact Hs].
    + intros f [->|Hf]%elem_of_cons; [|apply M2, Hf].
      destruct (Hmakes _ _ _ _ E1) as [M1 M1']. split.
      * apply K2; [|exact M1]. intros g _. apply (outputs_not_temporaries file).
        left.
      * apply K2; [|exact M1']. intros g _. apply (outputs_not_temporaries file).
        right. left.
Qed.

Section Batch.
Context `{MathLib} `{Toolchain}.

Lemma pipeline_step_frames :
  step_frames Pipeline.process
  /\ (forall file w, exists w' t, Pipeline.process file w = (Return tt, w', t)).
Proof.
  apply (guarded_frames Pipeline.primary Pipeline.fallback).
  - reflexivity.
  - apply primary_frames.
  - apply fallback_frames.
Qed.


(** The world once the two output directories are ensured: the files are
    those of before. *)
Lemma ensure_dir_run p w :
  exists w0 made,
    Pipeline.ensure_dir p w = (Return tt, w0, made)
    /\ files w0 = files w /\ clock w0 = clock w
    /\ started made = [] /\ commands made = [].
Proof.
  unfold Pipeline.ensure_dir, bind, existsSync, mkdirSync, ret.
  destruct (bool_decide (is_Some (files w !! p)) || bool_decide (p ∈ dirs w));
    eexists _, _; repeat split.
Qed.

Lemma bind_eq {A B} (m : M A) (k : A -> M B) w :
  bind m k w
  = match m w with
    | (Return a, w1, t1) =>
        match k a w1 with (r, w2, t2) => (r, w2, t1 ++ t2) end
    | (Throw e, w1, t1) => (Throw e, w1, t1)
    end.
Proof. reflexivity. Qed.

Lemma ensureMagick_run w :
  Pipeline.ensureMagick w
  = match run (clock w) Version with
    | Fails message =>
        (Throw Pipeline.magick_missing, tick w, [Exec Version (Fails message)])
    | Succeeds out => (Return tt, tick w, [Exec Version (Succeeds out)])
    end.
Proof.
  unfold Pipeline.ensureMagick, try_catch, bind, execAsync, ret, throw.
  destruct (run (clock w) Version); reflexivity.
Qed.

(** The loop with what comes before it in the two tasks: the count is
    logged and the two output directories are ensured. *)
Lemma prepared_run (body : string -> M unit) batch w :
  exists w0 pre,
    files w0 = files w
    /\ started pre = []
    /\ commands pre = []
    /\ forall r w' t,
         for_each batch body w0 = (r, w', t) ->
         bind (log (Count (length batch))) (fun _ =>
           bind (Pipeline.ensure_dir "images/fulls") (fun _ =>
             bind (Pipeline.ensure_dir "images/thumbs") (fun _ =>
               for_each batch body))) w
         = (r, w', pre ++ t).
Proof.
  destruct (ensure_dir_run "images/fulls" w) as (w1 & m1 & E1 & F1 & C1 & S1 & X1).
  destruct (ensure_dir_run "images/thumbs" w1) as (w2 & m2 & E2 & F2 & C2 & S2 & X2).
  exists w2, (Log (Count (length batch)) :: m1 ++ m2).
  split; [rewrite F2, F1; reflexivity|].
  split; [cbn [started]; rewrite started_app, S1, S2; reflexivity|].
  split; [cbn [commands]; rewrite commands_app, X1, X2; reflexivity|].
  intros r w' t E. rewrite bind_eq. unfold log at 1.
  rewrite bind_eq, E1, bind_eq, E2, E. cbn [app]. rewrite <- !app_assoc. reflexivity.
Qed.

(** The task with the watermark, case by case. *)
Lemma pipeline_task_shape w :
  match run (clock w) Version with
  | Fails message =>
      Pipeline.resize_images w
      = (Throw Pipeline.magick_missing, tick w, [Exec Version (Fails message)])
  | Succeeds out =>
      match images w with
      | None =>
          Pipeline.resize_images w
          = (Return tt, tick w, [Exec Version (Succeeds out); Log MissingDirectory])
      | Some names =>
          match List.filter is_image names with
          | [] =>
              Pipeline.resize_images w
              = (Return tt, tick w, [Exec Version (Succeeds out); Log NoImages])
          | batch =>
              exists w0 pre,
                files w0 = files w
                /\ started pre = []
                /\ commands pre = [Version]
                /\ forall r w' t,
                     for_each batch Pipeline.process w0 = (r, w', t) ->
                     Pipeline.resize_images w = (r, w', pre ++ t)
          end
      end
  end.
Proof.
  destruct (run (clock w) Version) as [message|out] eqn:Erun.
  { unfold Pipeline.resize_images. rewrite bind_eq, ensureMagick_run, Erun.
    reflexivity. }
  assert (Estart : forall k : bool -> M unit,
             bind Pipeline.ensureMagick (fun _ => bind existsSync_images k) w
             = match k (bool_decide (is_Some (images w))) (tick w) with
               | (r, w', t) => (r, w', Exec Version (Succeeds out) :: t)
               end).
  { intros k. rewrite bind_eq, ensureMagick_run, Erun, bind_eq.
    unfold existsSync_images at 1. cbn [images tick].
    destruct (k _ _) as [[r w'] t]. reflexivity. }
  unfold Pipeline.resize_images.
  destruct (images w) as [names|] eqn:Ei.
  2:{ rewrite Estart.
      rewrite bool_decide_eq_false_2 by (intros [? ?]; discriminate). reflexivity. }
  destruct (List.filter is_image names) as [|f batch] eqn:Ef.
  { rewrite Estart. rewrite bool_decide_eq_true_2 by eauto. cbn [negb].
    rewrite bind_eq. unfold readdirSync_images at 1. cbn [images tick].
    rewrite Ei, Ef. reflexivity. }
  destruct (prepared_run Pipeline.process (f :: batch) (tick w))
    as (w0 & pre & F0 & S0 & X0 & Hrun).
  exists w0, (Exec Version (Succeeds out) :: pre).
  split; [exact F0|]. split; [exact S0|]. split; [cbn [commands]; rewrite X0; reflexivity|].
  intros r w' t E. rewrite Estart. rewrite bool_decide_eq_true_2 by eauto.
  cbn [negb]. rewrite bind_eq. unfold readdirSync_images at 1. cbn [images tick].
  rewrite Ei, Ef. rewrite (Hrun _ _ _ E). reflexivity.
Qed.

(** The older task, case by case. *)
Lemma legacy_task_shape w :
  match images w with
  | None => Legacy.resize_images w = (Return tt, w, [Log MissingDirectory])
  | Some names =>
      match List.filter is_image names with
      | [] => Legacy.resize_images w = (Return tt, w, [Log NoImages])
      | batch =>
          exists w0 pre,
            files w0 = files w
            /\ started pre = []
            /\ commands pre = []
            /\ forall w' t,
                 for_each batch Legacy.process w0 = (Return tt, w', t) ->
                 Legacy.resize_images w = (Return tt, w', pre ++ t ++ [Log Finished])
      end
  end.
Proof.
  assert (Estart : forall k : bool -> M unit,
             bind existsSync_images k w = k (bool_decide (is_Some (images w))) w).
  { intros k. rewrite bind_eq. unfold existsSync_images at 1.
    destruct (k _ _) as [[r w'] t]. reflexivity. }
  unfold Legacy.resize_images.
  destruct (images w) as [names|] eqn:Ei.
  2:{ rewrite Estart.
      rewrite bool_decide_eq_false_2 by (intros [? ?]; discriminate). reflexivity. }
  destruct (List.filter is_image names) as [|f batch] eqn:Ef.
  { rewrite Estart. rewrite bool_decide_eq_true_2 by eauto. cbn [negb].
    rewrite bind_eq. unfold readdirSync_images at 1. rewrite Ei, Ef. reflexivity. }
  destruct (ensure_dir_run "images/fulls" w) as (w1 & m1 & E1 & F1 & C1 & S1 & X1).
  destruct (ensure_dir_run "images/thumbs" w1) as (w2 & m2 & E2 & F2 & C2 & S2 & X2).
  exists w2, (Log (Count (length (f :: batch))) :: m1 ++ m2).
  split; [rewrite F2, F1; reflexivity|].
  split; [cbn [started]; rewrite started_app, S1, S2; reflexivity|].
  split; [cbn [commands]; rewrite commands_app, X1, X2; reflexivity|].
  intros w' t E. rewrite Estart. rewrite bool_decide_eq_true_2 by eauto.
  cbn [negb]. rewrite bind_eq. unfold readdirSync_images at 1. rewrite Ei, Ef.
  change Legacy.ensure_dir with Pipeline.ensure_dir.
  rewrite bind_eq. unfold log at 1.
  rewrite bind_eq, E1, bind_eq, E2, bind_eq, E. unfold log.
  cbn [app]. rewrite <- !app_assoc. reflexivity.
Qed.

End Batch.

End BatchFacts.

(** * Facts about the [delete] task *)

Module SweepFacts.
Import JsString Shell Del Vocabulary StringFacts FormatFacts BatchFacts.





Lemma parents_from_plain above n : includes "/" n = false -> parents_from above n = [].
Proof.
  revert above. induction n as [|c r IH]; intros above; [reflexivity|].
  rewrite includes_cons. cbn [parents_from]. destruct (Ascii.eqb c "/"); [discriminate|].
  apply IH.
Qed.

Lemma existsb_parents_from (P : string -> bool) above f :
  (forall x, P (above +:+ x) = false) -> existsb P (parents_from above f) = false.
Proof.
  revert above. induction f as [|c r IH]; intros above HP; [reflexivity|].
  cbn [parents_from]. destruct (Ascii.eqb c "/"); cbn [existsb].
  - rewrite <- (sapp_nil_r above) at 1. rewrite HP. cbn [orb].
    apply IH. intros x. rewrite sapp_assoc. apply HP.
  - apply IH. intros x. rewrite sapp_assoc. apply HP.
Qed.

(** No pattern of the task reaches below the two output directories. *)
Lemma outputs_not_swept patterns f p :
  patterns = ["images/*.*"; "images/temp_*"] \/ patterns = ["images/*.*"] ->
  p ∈ outputs f -> swept patterns p = false.
Proof.
  intros Hpat Hp. unfold outputs in Hp.
  assert (Hpar : forall pattern above,
             (pattern = "images/*.*" \/ pattern = "images/temp_*") ->
             (above = "images/fulls/" \/ above = "images/thumbs/") ->
             existsb (glob pattern true) (parents_from above f) = false).
  { intros pattern above Hq Ha. apply existsb_parents_from. intros x.
    destruct Hq as [->| ->], Ha as [->| ->]; reflexivity. }
  repeat (apply elem_of_cons in Hp as [->|Hp]);
    [| |apply elem_of_nil in Hp; contradiction];
    destruct Hpat as [->| ->]; unfold swept; cbn [existsb].
  - change (parents (Pipeline.outFull f))
      with ("images" :: "images/fulls" :: parents_from "images/fulls/" f).
    cbn [existsb]. rewrite !Hpar by auto. reflexivity.
  - change (parents (Pipeline.outFull f))
      with ("images" :: "images/fulls" :: parents_from "images/fulls/" f).
    cbn [existsb]. rewrite !Hpar by auto. reflexivity.
  - change (parents (Pipeline.outThumb f))
      with ("images" :: "images/thumbs" :: parents_from "images/thumbs/" f).
    cbn [existsb]. rewrite !Hpar by auto. reflexivity.
  - change (parents (Pipeline.outThumb f))
      with ("images" :: "images/thumbs" :: parents_from "images/thumbs/" f).
    cbn [existsb]. rewrite !Hpar by auto. reflexivity.
Qed.



(** *** The files after [del] *)

Lemma del_run patterns w :
  exists w', del patterns w = (Return tt, w', [])
    /\ (forall p, swept patterns p = false -> files w' !! p = files w !! p)
    /\ (forall p, swept patterns p = true -> files w' !! p = None).
Proof.
  eexists. split; [reflexivity|]. cbn [files]. split; intros p Hp.
  - destruct (files w !! p) as [x|] eqn:E.
    + apply map_lookup_filter_Some_2; [exact E|exact Hp].
    + apply map_lookup_filter_None_2. left. exact E.
  - apply map_lookup_filter_None_2. right. intros x _. cbn [fst]. congruence.
Qed.

Lemma series_two (a b : M unit) w :
  series [a; b] w
  = match a w with
    | (Return _, w1, t1) =>
        match b w1 with
        | (Return _, w2, t2) => (Return tt, w2, t1 ++ t2)
        | (Throw e, w2, t2) => (Throw e, w2, t1 ++ t2)
        end
    | (Throw e, w1, t1) => (Throw e, w1, t1)
    end.
Proof.
  unfold series. cbn [for_each]. unfold bind, ret.
  destruct (a w) as [[[u|e] w1] t1]; [|reflexivity].
  destruct (b w1) as [[[v|e] w2] t2]; rewrite ?app_nil_r; reflexivity.
Qed.

End SweepFacts.

(** * Facts about the runs of the tasks *)

Module RunFacts.
Import JsString JsNumber Exif Watermark Shell Del Vocabulary.
Import StringFacts ShellFacts TaskFacts FormatFacts BatchFacts SweepFacts.

Lemma prefix_app p x : String.prefix p (p +:+ x) = true.
Proof.
  induction p as [|c p IH]; [destruct x; reflexivity|].
  rewrite sapp_cons. cbn [String.prefix]. destruct (ascii_dec c c); [exact IH|congruence].
Qed.

(** The original of a name of the directory is none of the paths the
    processing of a file writes or removes. *)
Lemma orig_not_touched g f : own_name g = true -> Pipeline.orig g ∉ touched f.
Proof.
  unfold own_name. intros [Hs Hp]%andb_prop.
  apply negb_true_iff in Hs. apply negb_true_iff in Hp.
  unfold touched, temporaries, outputs. cbn [app]. intros Hin.
  repeat (apply elem_of_cons in Hin as [Hin|Hin]);
    [| | | | |apply elem_of_nil in Hin; contradiction].
  - apply path_join_inj in Hin. rewrite Hin, prefix_app in Hp. discriminate.
  - apply path_join_inj in Hin.
    change ("temp_full_" +:+ f) with ("temp_" +:+ "full_" +:+ f) in Hin.
    rewrite Hin, prefix_app in Hp. discriminate.
  - apply path_join_inj in Hin.
    change ("temp_thumb_" +:+ f) with ("temp_" +:+ "thumb_" +:+ f) in Hin.
    rewrite Hin, prefix_app in Hp. discriminate.
  - change (Pipeline.outFull f) with (path_join "images" ("fulls/" +:+ f)) in Hin.
    apply path_join_inj in Hin. rewrite Hin in Hs. discriminate.
  - change (Pipeline.outThumb f) with (path_join "images" ("thumbs/" +:+ f)) in Hin.
    apply path_join_inj in Hin. rewrite Hin in Hs. discriminate.
Qed.



Section Runs.
Context `{MathLib} `{Toolchain}.

(** The loop of a task: it returns, has started every file of the batch in
    order, has changed the paths of the batch only, and has left both
    outputs of every file. *)
Lemma loop_run (process primary fallback : string -> M unit) names w :
  (forall file, process file
                = guarded file (Pipeline.outFull file) (Pipeline.outThumb file)
                          (primary file) (fallback file)) ->
  paths_behave primary fallback ->
  (forall file w, post (primary file) w (frame_post file w)) ->
  (forall file w, post (fallback file) w (frame_post file w)) ->
  exists w' t,
    for_each names process w = (Return tt, w', t)
    /\ started t = names
    /\ (forall p, (forall f, f ∈ names -> p ∉ touched f) ->
                  files w' !! p = files w !! p)
    /\ (forall f, f ∈ names -> has_outputs f w').
Proof.
  intros Hp Hpaths Hprim Hfall.
  destruct (guarded_frames primary fallback process Hp Hprim Hfall) as [Hframes Hret].
  destruct (batch_run process names Hframes Hret w) as (w' & t & E & F & _ & M).
  pose proof (guarded_semantics primary fallback process
                Pipeline.outFull Pipeline.outThumb Hp
                (fun file => proj2 (proj2 (proj2 (proj2 (proj2 (proj2 (proj2
                   (proj2 (proj2 (proj2 (proj2 (proj2 (proj2 (proj2
                   (paths_differ file)))))))))))))))
                Hpaths) as [_ _ _ _ Hbatch].
  destruct (Hbatch names w) as (w'' & t'' & E' & S).
  rewrite E in E'. injection E' as Ew Et. subst w'' t''.
  exists w', t. split; [exact E|]. split; [exact S|]. split; [exact F|exact M].
Qed.

(** The task with the watermark once the version command has succeeded. *)
Lemma pipeline_task_run w out :
  run (clock w) Version = Succeeds out ->
  exists w' t,
    Pipeline.resize_images w = (Return tt, w', t)
    /\ started t = batch w
    /\ (forall p, (forall f, f ∈ batch w -> p ∉ touched f) ->
                  files w' !! p = files w !! p)
    /\ (forall f, f ∈ batch w -> has_outputs f w').
Proof.
  intros Hv. pose proof (pipeline_task_shape w) as P. rewrite Hv in P.
  unfold batch. destruct (images w) as [names|]; cbn [from_option id].
  2:{ eexists _, _. split; [exact P|]. split; [reflexivity|].
      split; [reflexivity|]. intros f Hf. apply elem_of_nil in Hf. contradiction. }
  destruct (List.filter is_image names) as [|f0 l] eqn:Ef.
  { eexists _, _. split; [exact P|]. split; [reflexivity|].
    split; [reflexivity|]. intros f Hf. apply elem_of_nil in Hf. contradiction. }
  destruct P as (w0 & pre & F0 & S0 & _ & Hrun).
  destruct (loop_run Pipeline.process Pipeline.primary Pipeline.fallback
              (f0 :: l) w0 (fun _ => eq_refl) pipeline_paths_behave
              primary_frames fallback_frames) as (w' & t & E & S & F & M).
  exists w', (pre ++ t). split; [apply Hrun, E|].
  split; [rewrite started_app, S0, S; reflexivity|].
  split; [intros p Hp; rewrite (F p Hp), F0; reflexivity|exact M].
Qed.

(** The older task. *)
Lemma legacy_task_run w :
  exists w' t,
    Legacy.resize_images w = (Return tt, w', t)
    /\ started t = batch w
    /\ (forall p, (forall f, f ∈ batch w -> p ∉ touched f) ->
                  files w' !! p = files w !! p)
    /\ (forall f, f ∈ batch w -> has_outputs f w').
Proof.
  pose proof (legacy_task_shape w) as L.
  unfold batch. destruct (images w) as [names|]; cbn [from_option id].
  2:{ eexists _, _. split; [exact L|]. split; [reflexivity|].
      split; [reflexivity|]. intros f Hf. apply elem_of_nil in Hf. contradiction. }
  destruct (List.filter is_image names) as [|f0 l] eqn:Ef.
  { eexists _, _. split; [exact L|]. split; [reflexivity|].
    split; [reflexivity|]. intros f Hf. apply elem_of_nil in Hf. contradiction. }
  destruct L as (w0 & pre & F0 & S0 & _ & Hrun).
  destruct (loop_run Legacy.process Legacy.primary Legacy.fallback
              (f0 :: l) w0 (fun _ => eq_refl) legacy_paths_behave
              legacy_primary_frames legacy_fallback_frames)
    as (w' & t & E & S & F & M).
  exists w', (pre ++ t ++ [Log Finished]). split; [apply Hrun, E|].
  split; [rewrite !started_app, S0, S; cbn [started]; rewrite app_nil_r; reflexivity|].
  split; [intros p Hp; rewrite (F p Hp), F0; reflexivity|exact M].
Qed.

(** A path outside the batch holds after the task what it held before. *)
Lemma pipeline_task_frame w p r w' t :
  (forall f, f ∈ batch w -> p ∉ touched f) ->
  Pipeline.resize_images w = (r, w', t) -> files w' !! p = files w !! p.
Proof.
  intros Hp E. destruct (run (clock w) Version) as [message|out] eqn:Hv.
  - pose proof (pipeline_task_shape w) as P. rewrite Hv in P.
    rewrite P in E. injection E as <- <- <-. reflexivity.
  - destruct (pipeline_task_run w out Hv) as (w1 & t1 & E1 & _ & F & _).
    rewrite E1 in E. injection E as <- <- <-. apply F, Hp.
Qed.

Lemma legacy_task_frame w p r w' t :
  (forall f, f ∈ batch w -> p ∉ touched f) ->
  Legacy.resize_images w = (r, w', t) -> files w' !! p = files w !! p.
Proof.
  intros Hp E. destruct (legacy_task_run w) as (w1 & t1 & E1 & _ & F & _).
  rewrite E1 in E. injection E as <- <- <-. apply F, Hp.
Qed.


(** *** The older task with no tool *)



End Runs.
(** *** What a path leaves when it returns *)

(** One step of a run, keeping what the toolchain answered. *)
Ltac wp_keep_step :=
  lazymatch goal with
  | |- post (bind _ _) _ _ => apply post_bind
  | |- post (ret _) _ _ => apply post_ret
  | |- post (log _) _ _ => apply post_log
  | |- post (existsSync _) _ _ => apply post_existsSync
  | |- post (execAsync _) _ _ =>
      apply post_execAsync; [intros ?stdout ?Hrun|intros ?message _]
  | |- post (copyFileSync _ _) _ _ =>
      apply post_copyFileSync; [intros ?c ?Ec|intros ?Ec]
  | |- post (unlinkSync _) _ _ =>
      apply post_unlinkSync; [intros ?Eu|intros ?Eu]
  | |- post (if ?b then _ else _) _ _ => destruct b eqn:?Eb
  end;
  cbv beta iota;
  cbn [written tick set_files target files dirs images clock] in *.

Ltac wp_keep := repeat wp_keep_step.

Section Results.
Context `{MathLib} `{Toolchain}.

Lemma primary_result file w :
  post (Pipeline.primary file) w (fun r w1 t1 =>
    r = Return tt ->
    exists meta probe,
      run (clock w) (ReadMetadata (Pipeline.orig file)) = Succeeds meta
      /\ run (5 + clock w) (ReadDims (Pipeline.tempFull file)) = Succeeds probe
      /\ files w1 !! Pipeline.outFull file
         = Some (Image (Convert "magick" (Pipeline.tempFull file)
                          (composite_args (dims_of_stdout probe)
                             (geometry (dims_of_stdout probe) None)
                             (text (exif_of_stdout meta)))
                          (Pipeline.outFull file)))
      /\ files w1 !! Pipeline.outThumb file
         = Some (Image (Convert "magick" (Pipeline.temp file) "-resize 512x512"
                          (Pipeline.tempThumb file)))
      /\ last t1 = Some (Log (Done file))).
Proof.
  pose proof (paths_differ file) as
    (D1 & D2 & D3 & D4 & D5 & D6 & D7 & D8 & D9 & D10 & D11 & D12 & D13 & D14 & D15).
  unfold Pipeline.primary, Pipeline.readExif, Pipeline.addWatermark,
    Pipeline.imageDims, Pipeline.cleanup.
  cbn [for_each].
  wp_keep.
  all: try (intros Hr; discriminate Hr).
  all: intros _; eexists _, _.
  all: split; [eassumption|].
  all: split; [eassumption|].
  all: revert Ec; fs; intros [= <-].
  all: repeat split; fs; reflexivity.
Qed.




End Results.
End RunFacts.

(** * One decimal place and the nearest integer *)

Module RoundingFacts.
Import JsString JsNumber Exif Vocabulary StringFacts NumberFacts ParseFacts FormatFacts.

(** ** The digits of the model are the numeral of the library *)

Lemma string_of_revapp d acc :
  DecimalString.NilEmpty.string_of_uint (Decimal.revapp d acc)
  = DecimalString.NilEmpty.string_of_uint (Decimal.rev d)
      +:+ DecimalString.NilEmpty.string_of_uint acc.
Proof.
  unfold Decimal.rev. revert acc.
  induction d as [|d IH|d IH|d IH|d IH|d IH|d IH|d IH|d IH|d IH|d IH]; intros acc;
    [reflexivity|..]; cbn [Decimal.revapp];
    rewrite IH; symmetry; rewrite IH; rewrite sapp_assoc; reflexivity.
Qed.

Lemma digit_cases k : 0 <= k < 10 ->
  k = 0 \/ k = 1 \/ k = 2 \/ k = 3 \/ k = 4 \/ k = 5 \/ k = 6 \/ k = 7 \/ k = 8 \/ k = 9.
Proof. lia. Qed.

Lemma to_lu_step p k :
  0 <= k < 10 ->
  DecimalPos.Unsigned.to_lu (Z.to_N (10 * Zpos p + k))
  = lu_cons k (DecimalPos.Unsigned.to_lu (Npos p)).
Proof.
  intros Hk.
  assert (E : Z.to_N (10 * Zpos p + k)
              = N.iter (Z.to_N k) N.succ (10 * Npos p)%N).
  { destruct (digit_cases k Hk) as [->|[->|[->|[->|[->|[->|[->|[->|[->| ->]]]]]]]]];
      cbn [Z.to_N N.iter Pos.iter]; lia. }
  rewrite E.
  destruct (digit_cases k Hk) as [->|[->|[->|[->|[->|[->|[->|[->|[->| ->]]]]]]]]];
    cbn [Z.to_N N.iter Pos.iter lu_cons];
    rewrite ?DecimalPos.Unsigned.to_lu_succ, DecimalPos.Unsigned.to_ldec_tenfold;
    reflexivity.
Qed.

Lemma string_of_lu_cons k d :
  0 <= k < 10 ->
  DecimalString.NilEmpty.string_of_uint (Decimal.rev (lu_cons k d))
  = DecimalString.NilEmpty.string_of_uint (Decimal.rev d)
      +:+ String (digit_char k) EmptyString.
Proof.
  intros Hk.
  destruct (digit_cases k Hk) as [->|[->|[->|[->|[->|[->|[->|[->|[->| ->]]]]]]]]];
    cbn [lu_cons]; unfold Decimal.rev at 1; cbn [Decimal.revapp];
    rewrite string_of_revapp; reflexivity.
Qed.

Lemma numeral_pos p :
  numeral (Zpos p)
  = DecimalString.NilEmpty.string_of_uint
      (Decimal.rev (DecimalPos.Unsigned.to_lu (Npos p))).
Proof.
  unfold numeral. cbn [Z.to_N N.to_uint DecimalPos.Unsigned.to_lu].
  unfold Pos.to_uint.
  pose proof (DecimalPos.Unsigned.to_uint_nonnil p) as Hn. unfold Pos.to_uint in Hn.
  destruct (Decimal.rev (Pos.to_little_uint p)); [contradiction|reflexivity..].
Qed.

Lemma numeral_small n : 0 <= n < 10 -> numeral n = String (digit_char n) EmptyString.
Proof.
  intros Hn.
  destruct (digit_cases n Hn) as [->|[->|[->|[->|[->|[->|[->|[->|[->| ->]]]]]]]]];
    reflexivity.
Qed.

Lemma numeral_step n :
  10 <= n -> numeral n = numeral (n / 10) +:+ String (digit_char (n mod 10)) EmptyString.
Proof.
  intros Hn.
  pose proof (Z.div_mod n 10 ltac:(lia)) as E.
  pose proof (Z.mod_pos_bound n 10 ltac:(lia)) as Hk.
  assert (Hq : 0 < n / 10) by (apply Z.div_str_pos; lia).
  destruct (n / 10) as [|p|p] eqn:Eq; [lia| |lia].
  rewrite (numeral_pos p), <- string_of_lu_cons by exact Hk.
  rewrite <- to_lu_step by exact Hk. rewrite <- E.
  destruct n as [|q|q]; [lia| |lia]. apply numeral_pos.
Qed.

(** The digits the model prints are the decimal numeral of the library. *)
Lemma digits_numeral n : 0 <= n -> digits n = numeral n.
Proof.
  intros Hn. pattern n. apply Zlt_0_ind; [|exact Hn].
  clear n Hn. intros n IH Hn.
  destruct (Z.lt_ge_cases n 10) as [Hs|Hb].
  - rewrite digits_small, numeral_small by lia. reflexivity.
  - rewrite digits_step, numeral_step by exact Hb. f_equal.
    apply IH. split; [apply Z.div_pos; lia|apply Z.div_lt; lia].
Qed.

(** ** The nearest integer *)

Lemma nearest_div p q : 0 < q -> nearest p q ((2 * p + q) / (2 * q)).
Proof.
  intros Hq. unfold nearest.
  pose proof (Z.div_mod (2 * p + q) (2 * q) ltac:(lia)) as E.
  pose proof (Z.mod_pos_bound (2 * p + q) (2 * q) ltac:(lia)) as Hr.
  remember ((2 * p + q) / (2 * q)) as d. remember ((2 * p + q) mod (2 * q)) as r.
  lia.
Qed.

Lemma nearest_unique p q n n' : 0 < q -> nearest p q n -> nearest p q n' -> n = n'.
Proof. unfold nearest. intros Hq H1 H2. nia. Qed.

Lemma fraction_eq m e : fraction m e = (numerator m e, denominator e).
Proof.
  unfold fraction, numerator, denominator.
  destruct e as [|k|k]; cbn [Z.max Z.compare Z.opp Pos.compare];
    rewrite ?Z.max_l, ?Z.max_r by lia; cbn [Z.opp];
    rewrite ?Z.max_l, ?Z.max_r by lia; rewrite ?Z.pow_0_r, ?Z.mul_1_r; reflexivity.
Qed.

Lemma denominator_pos e : 0 < denominator e.
Proof. unfold denominator. apply Z.pow_pos_nonneg; lia. Qed.

Lemma numerator_pos m e : 0 < numerator m e.
Proof.
  unfold numerator. apply Z.mul_pos_pos; [lia|]. apply Z.pow_pos_nonneg; lia.
Qed.

(** ** One decimal place *)

Lemma strip_dot0_dot0 a : strip_dot0 (a +:+ ".0") = a.
Proof.
  induction a as [|c a IH]; [reflexivity|].
  rewrite sapp_cons, strip_dot0_cons, IH.
  destruct (String.eqb_spec (String c (a +:+ ".0")) ".0") as [E|E]; [|reflexivity].
  exfalso. apply (f_equal String.length) in E. cbn [String.length] in E.
  rewrite slength_app in E. cbn [String.length] in E. lia.
Qed.

Lemma strip_dot0_digit a k :
  1 <= k < 10 ->
  strip_dot0 (a +:+ "." +:+ String (digit_char k) EmptyString)
  = a +:+ "." +:+ String (digit_char k) EmptyString.
Proof.
  intros Hk. induction a as [|c a IH].
  - destruct (digit_cases k ltac:(lia)) as [->|[->|[->|[->|[->|[->|[->|[->|[->| ->]]]]]]]]];
      [lia|reflexivity..].
  - rewrite sapp_cons, strip_dot0_cons, IH.
    destruct (String.eqb_spec (String c (a +:+ "." +:+ String (digit_char k) EmptyString)) ".0")
      as [E|E]; [|reflexivity].
    exfalso. apply (f_equal String.length) in E. cbn [String.length] in E.
    rewrite !slength_app in E. cbn [String.length] in E. lia.
Qed.

(** The tenths the model prints, with the final [.0] removed. *)
Lemma strip_tenths a n :
  0 <= n ->
  strip_dot0 (a +:+ digits (n / 10) +:+ "." +:+ digits (n mod 10))
  = a +:+ one_decimal n.
Proof.
  intros Hn. unfold one_decimal.
  pose proof (Z.mod_pos_bound n 10 ltac:(lia)) as Hk.
  rewrite (digits_numeral (n / 10)) by (apply Z.div_pos; lia).
  rewrite (digits_small (n mod 10)) by exact Hk.
  destruct (Z.eqb_spec (n mod 10) 0) as [E|E].
  - rewrite E, sapp_nil_r.
    change (String (digit_char 0) EmptyString) with "0".
    rewrite <- (sapp_assoc a). apply strip_dot0_dot0.
  - rewrite (numeral_small (n mod 10)) by exact Hk.
    rewrite <- (sapp_assoc a). rewrite strip_dot0_digit by lia.
    rewrite sapp_assoc. reflexivity.
Qed.

(** [toFixed(1)] and the removal of [.0] show a Number below [10 ^ 21] to
    one decimal place. *)
Lemma fixed1_to_one_decimal x : below_1e21 x -> to_one_decimal x (fixed1 x).
Proof.
  destruct x as [s|s| |s m e]; cbn [below_1e21 to_one_decimal];
    [intros _; reflexivity|contradiction|contradiction|].
  intros Hb.
  pose proof (denominator_pos e) as Hq. pose proof (numerator_pos m e) as Hp.
  exists ((20 * numerator m e + denominator e) / (2 * denominator e)). split.
  - replace (20 * numerator m e) with (2 * (10 * numerator m e)) by lia.
    apply nearest_div, Hq.
  - unfold fixed1, toFixed1. rewrite fraction_eq.
    destruct (Z.leb_spec (10 ^ 21 * denominator e) (numerator m e)) as [Hge|_]; [lia|].
    cbv zeta. apply strip_tenths. apply Z.div_pos; lia.
Qed.

(** From [10 ^ 21] on, and for a Number that is not finite, [toFixed(1)]
    is the plain number-to-string form. *)
Lemma toFixed1_large x :
  match x with S754_zero _ => False | _ => ~ below_1e21 x end ->
  toFixed1 x = toString x.
Proof.
  destruct x as [s|s| |s m e]; cbn [below_1e21]; try reflexivity; [contradiction|].
  intros Hb. unfold toFixed1. rewrite fraction_eq.
  destruct (Z.leb_spec (10 ^ 21 * denominator e) (numerator m e)) as [_|Hlt];
    [reflexivity|contradiction].
Qed.

(** ** [Math.round] *)

Lemma Math_round_rounded x : rounded x (Math_round x).
Proof.
  destruct x as [s|s| |s m e]; cbn [rounded]; try reflexivity.
  destruct e as [|k|k].
  - unfold numerator, denominator. cbn [Z.max Z.opp Z.compare Math_round].
    rewrite Z.pow_0_r, Z.mod_1_r. reflexivity.
  - unfold numerator, denominator.
    rewrite Z.max_l, Z.max_r by lia. rewrite Z.pow_0_r, Z.mod_1_r. reflexivity.
  - unfold numerator, denominator. cbn [Z.opp].
    rewrite Z.max_r, Z.max_l by lia. rewrite Z.pow_0_r, Z.mul_1_r.
    cbn [Math_round]. cbv zeta.
    assert (Hd : 0 < 2 ^ Zpos k) by (apply Z.pow_pos_nonneg; lia).
    assert (Hm : (cond_Zopp s (Zpos m) mod 2 ^ Zpos k =? 0)
                 = (Zpos m mod 2 ^ Zpos k =? 0)).
    { destruct s; cbn [cond_Zopp]; [|reflexivity].
      change (Zneg m) with (- Zpos m).
      destruct (Z.eqb_spec (Zpos m mod 2 ^ Zpos k) 0) as [E|E].
      - apply Z.eqb_eq. apply Z.mod_opp_l_z; [lia|exact E].
      - apply Z.eqb_neq. rewrite Z.mod_opp_l_nz by (lia || exact E).
        pose proof (Z.mod_pos_bound (Zpos m) (2 ^ Zpos k) Hd). lia. }
    change (- Zneg k) with (Zpos k).
    destruct (Zpos m mod 2 ^ Zpos k =? 0); rewrite Hm; [reflexivity|].
    exists ((2 * cond_Zopp s (Zpos m) + 2 ^ Zpos k) / (2 * 2 ^ Zpos k)). split.
    + apply nearest_div, Hd.
    + destruct ((2 * cond_Zopp s (Zpos m) + 2 ^ Zpos k) / (2 * 2 ^ Zpos k));
        reflexivity.
Qed.

(** ** [Math.SQRT2] *)

Lemma Math_SQRT2_nearest : nearest_to_sqrt2 Math_SQRT2.
Proof.
  exists 6369051672525773%positive. split; [reflexivity|].
  split; split; vm_compute; first [reflexivity | discriminate].
Qed.

End RoundingFacts.

(** * The command lines as the shell reads them *)

Module ReadingFacts.
Import JsString JsNumber Exif Watermark Shell Vocabulary.
Import StringFacts NumberFacts TextFacts ParseFacts FormatFacts ShellFacts TaskFacts.
Import BatchFacts RunFacts.

(** ** The reader *)

Lemma sh_run_None s : sh_run None s = None.
Proof. induction s as [|c s IH]; [reflexivity|exact IH]. Qed.

Lemma sh_run_app r a b : sh_run r (a +:+ b) = sh_run (sh_run r a) b.
Proof.
  revert r. induction a as [|c a IH]; intros r; [reflexivity|].
  rewrite sapp_cons. cbn [sh_run]. apply IH.
Qed.

Lemma sh_run_cons r c s :
  sh_run (Some r) (String c s) = sh_run (sh_step r c) s.
Proof. reflexivity. Qed.

Lemma sh_step_space d u :
  sh_step {| done := d; word := u; where_ := Bare |} " "
  = Some {| done := d ++ option_list u; word := None; where_ := Bare |}.
Proof. reflexivity. Qed.

Lemma sh_step_open d u :
  sh_step {| done := d; word := u; where_ := Bare |} (ascii_of_nat 34)
  = Some {| done := d; word := Some (default EmptyString u); where_ := Quoted |}.
Proof. reflexivity. Qed.

Lemma sh_step_close d u :
  sh_step {| done := d; word := u; where_ := Quoted |} (ascii_of_nat 34)
  = Some {| done := d; word := u; where_ := Bare |}.
Proof. reflexivity. Qed.

Lemma sh_step_backslash d u :
  sh_step {| done := d; word := u; where_ := Quoted |} "\"%char
  = Some {| done := d; word := u; where_ := Escaped |}.
Proof. reflexivity. Qed.

Lemma sh_step_kept d u c :
  quotable_char c = false ->
  sh_step {| done := d; word := Some u; where_ := Escaped |} c
  = Some {| done := d; word := Some (u +:+ String c EmptyString);
            where_ := Quoted |}.
Proof. intros Hc. unfold sh_step. cbn [where_]. rewrite Hc. reflexivity. Qed.

Lemma sh_run_one r c : sh_run (Some r) (String c EmptyString) = sh_step r c.
Proof. reflexivity. Qed.

(** Words read before do not matter to what is read after. *)
Lemma sh_step_shift d0 d u m c :
  sh_step {| done := d0 ++ d; word := u; where_ := m |} c
  = (fun r => {| done := d0 ++ done r; word := word r; where_ := where_ r |})
      <$> sh_step {| done := d; word := u; where_ := m |} c.
Proof.
  unfold sh_step, push. cbn [where_ done word].
  destruct m;
    repeat match goal with |- context [if ?b then _ else _] => destruct b end;
    cbn [fmap option_fmap option_map done word where_];
    rewrite <- ?app_assoc; reflexivity.
Qed.

Lemma sh_run_shift d0 s : forall d u m,
  sh_run (Some {| done := d0 ++ d; word := u; where_ := m |}) s
  = (fun r => {| done := d0 ++ done r; word := word r; where_ := where_ r |})
      <$> sh_run (Some {| done := d; word := u; where_ := m |}) s.
Proof.
  induction s as [|c s IH]; intros d u m; [reflexivity|].
  rewrite !sh_run_cons, sh_step_shift.
  destruct (sh_step {| done := d; word := u; where_ := m |} c) as [[d' u' m']|];
    cbn [fmap option_fmap option_map done word where_].
  - apply IH.
  - rewrite sh_run_None. reflexivity.
Qed.

(** A line that is given reads as it runs from the empty reader. *)
Lemma reads_of_run s ws w :
  sh_run (Some {| done := []; word := None; where_ := Bare |}) s
  = Some {| done := ws; word := Some w; where_ := Bare |} ->
  reads s ws w.
Proof.
  intros E d.
  pose proof (sh_run_shift d s [] None Bare) as S.
  rewrite app_nil_r in S. rewrite S, E. reflexivity.
Qed.

Lemma sh_words_reads s ws w : reads s ws w -> sh_words s = Some (ws ++ [w]).
Proof. intros E. unfold sh_words. rewrite (E []). reflexivity. Qed.

Lemma bare_run a : forall d u,
  all_chars bare_char a = true ->
  sh_run (Some {| done := d; word := Some u; where_ := Bare |}) a
  = Some {| done := d; word := Some (u +:+ a); where_ := Bare |}.
Proof.
  induction a as [|c a IH]; intros d u Ha.
  - rewrite sapp_nil_r. reflexivity.
  - cbn [all_chars] in Ha. apply andb_prop in Ha as [Hc Ha].
    rewrite sh_run_cons. unfold sh_step. cbn [where_].
    assert (Hs : Ascii.eqb c " " = false).
    { destruct (Ascii.eqb_spec c " ") as [->|]; [discriminate Hc|reflexivity]. }
    assert (Hq : Ascii.eqb c (ascii_of_nat 34) = false).
    { destruct (Ascii.eqb_spec c (ascii_of_nat 34)) as [->|];
        [discriminate Hc|reflexivity]. }
    rewrite Hs, Hq, Hc. unfold push. cbn [done word default from_option id].
    rewrite IH by exact Ha. rewrite sapp_assoc. reflexivity.
Qed.

Lemma reads_bare c a :
  all_chars bare_char (String c a) = true -> reads (String c a) [] (String c a).
Proof.
  intros Ha d. cbn [all_chars] in Ha. apply andb_prop in Ha as [Hc Ha].
  rewrite sh_run_cons. unfold sh_step. cbn [where_].
  assert (Hs : Ascii.eqb c " " = false).
  { destruct (Ascii.eqb_spec c " ") as [->|]; [discriminate Hc|reflexivity]. }
  assert (Hq : Ascii.eqb c (ascii_of_nat 34) = false).
  { destruct (Ascii.eqb_spec c (ascii_of_nat 34)) as [->|];
      [discriminate Hc|reflexivity]. }
  rewrite Hs, Hq, Hc. unfold push. cbn [done word default from_option id].
  rewrite sapp_nil_l, bare_run by exact Ha.
  rewrite app_nil_r. reflexivity.
Qed.

Lemma quoted_run a : forall d u,
  all_chars quotable_char a = true ->
  sh_run (Some {| done := d; word := Some u; where_ := Quoted |}) a
  = Some {| done := d; word := Some (u +:+ a); where_ := Quoted |}.
Proof.
  induction a as [|c a IH]; intros d u Ha.
  - rewrite sapp_nil_r. reflexivity.
  - cbn [all_chars] in Ha. apply andb_prop in Ha as [Hc Ha].
    rewrite sh_run_cons. unfold sh_step. cbn [where_].
    assert (Hq : Ascii.eqb c (ascii_of_nat 34) = false).
    { destruct (Ascii.eqb_spec c (ascii_of_nat 34)) as [->|];
        [discriminate Hc|reflexivity]. }
    assert (Hb : Ascii.eqb c "\"%char = false).
    { destruct (Ascii.eqb_spec c "\"%char) as [->|]; [discriminate Hc|reflexivity]. }
    rewrite Hq, Hb, Hc. unfold push. cbn [done word default from_option id].
    rewrite IH by exact Ha. rewrite sapp_assoc. reflexivity.
Qed.

(** A stretch between double quotes that holds no double quote, backslash,
    dollar sign or backquote is one word, as it is written. *)
Lemma reads_quoted a : all_chars quotable_char a = true -> reads (quoted a) [] a.
Proof.
  intros Ha d. unfold quoted, dquote.
  rewrite sapp_cons, sapp_nil_l, sh_run_cons, sh_step_open.
  cbn [default from_option id].
  rewrite sh_run_app, quoted_run by exact Ha.
  rewrite sh_run_one, sh_step_close, sapp_nil_l, app_nil_r. reflexivity.
Qed.

Lemma escaped_run t : forall d u,
  inert t = true ->
  sh_run (Some {| done := d; word := Some u; where_ := Quoted |}) (escape_quotes t)
  = Some {| done := d; word := Some (u +:+ t); where_ := Quoted |}.
Proof.
  unfold inert. induction t as [|c t IH]; intros d u Ht.
  - rewrite sapp_nil_r. reflexivity.
  - cbn [all_chars] in Ht. apply andb_prop in Ht as [Hc Ht].
    rewrite escape_quotes_cons.
    destruct (Ascii.eqb c (ascii_of_nat 34) || Ascii.eqb c "\"%char) eqn:Es.
    + rewrite sh_run_cons, sh_step_backslash, sh_run_cons.
      rewrite sh_step_kept
        by (unfold quotable_char; rewrite <- !orb_assoc, orb_assoc, Es; reflexivity).
      rewrite IH by exact Ht. rewrite sapp_assoc. reflexivity.
    + rewrite sh_run_cons. unfold sh_step at 1. cbn [where_].
      apply orb_false_elim in Es as [Eq Eb]. rewrite Eq, Eb.
      assert (Hy : quotable_char c = true).
      { unfold quotable_char, inert_char in *. rewrite Eq, Eb. exact Hc. }
      rewrite Hy. unfold push. cbn [done word default from_option id].
      rewrite IH by exact Ht. rewrite sapp_assoc. reflexivity.
Qed.

(** The escaped annotate text between its double quotes is one word, the
    text as it was before the escaping, when the text holds neither a
    dollar sign nor a backquote. *)
Lemma reads_escaped t :
  inert t = true -> reads (dquote +:+ escape_quotes t +:+ dquote) [] t.
Proof.
  intros Ht d. unfold dquote.
  rewrite sapp_cons, sapp_nil_l, sh_run_cons, sh_step_open.
  cbn [default from_option id].
  rewrite sh_run_app, escaped_run by exact Ht.
  rewrite sh_run_one, sh_step_close, sapp_nil_l, app_nil_r. reflexivity.
Qed.

Lemma reads_space a b ws w ws' w' :
  reads a ws w -> reads b ws' w' -> reads (a +:+ " " +:+ b) (ws ++ w :: ws') w'.
Proof.
  intros Ea Eb d.
  rewrite sh_run_app, (Ea d), sapp_cons, sapp_nil_l, sh_run_cons, sh_step_space.
  cbn [option_list]. rewrite (Eb _). rewrite <- !app_assoc. reflexivity.
Qed.

(** A space before a word that starts is skipped. *)
Lemma reads_lead b ws w : reads b ws w -> reads (" " +:+ b) ws w.
Proof.
  intros Eb d. rewrite sapp_cons, sapp_nil_l, sh_run_cons, sh_step_space.
  cbn [option_list]. rewrite app_nil_r. apply Eb.
Qed.

(** Two stretches with no space between them are one word. *)
Lemma reads_glue a b ws u :
  reads a ws u -> all_chars bare_char b = true -> reads (a +:+ b) ws (u +:+ b).
Proof.
  intros Ea Hb d. rewrite sh_run_app, (Ea d). apply bare_run, Hb.
Qed.

(** ** Characters *)

Lemma all_chars_avoids P s :
  (forall c, P c = false -> includes c s = false) -> all_chars P s = true.
Proof.
  induction s as [|d s IH]; intros Hs; [reflexivity|].
  cbn [all_chars]. apply andb_true_intro. split.
  - destruct (P d) eqn:Ed; [reflexivity|].
    specialize (Hs d Ed). rewrite includes_cons, Ascii.eqb_refl in Hs.
    discriminate Hs.
  - apply IH. intros c Hc. specialize (Hs c Hc). rewrite includes_cons in Hs.
    destruct (Ascii.eqb d c); [discriminate Hs|exact Hs].
Qed.

Lemma avoids_all_chars P s c :
  all_chars P s = true -> P c = false -> includes c s = false.
Proof.
  induction s as [|d s IH]; intros Hs Hc; [reflexivity|].
  cbn [all_chars] in Hs. apply andb_prop in Hs as [Hd Hs].
  rewrite includes_cons. destruct (Ascii.eqb_spec d c) as [->|_]; [congruence|].
  apply IH; assumption.
Qed.

Lemma bare_quotable c : bare_char c = true -> quotable_char c = true.
Proof.
  intros Hc. unfold quotable_char.
  destruct (Ascii.eqb_spec c (ascii_of_nat 34)) as [->|_]; [discriminate Hc|].
  destruct (Ascii.eqb_spec c "\"%char) as [->|_]; [discriminate Hc|].
  destruct (Ascii.eqb_spec c "$") as [->|_]; [discriminate Hc|].
  destruct (Ascii.eqb_spec c "`") as [->|_]; [discriminate Hc|].
  reflexivity.
Qed.

Lemma portable_quotable c : portable_char c = true -> quotable_char c = true.
Proof. intros Hc. apply bare_quotable. unfold bare_char. rewrite Hc. reflexivity. Qed.

Lemma quotable_inert c : quotable_char c = true -> inert_char c = true.
Proof.
  unfold quotable_char, inert_char. intros Hc.
  apply negb_true_iff in Hc. apply negb_true_iff.
  apply orb_false_elim in Hc as [Hc H4]. apply orb_false_elim in Hc as [Hc H3].
  rewrite H3, H4. reflexivity.
Qed.

(** A character that is not bare is no digit. *)
Lemma not_bare_not_digit c : bare_char c = false -> not_digit c.
Proof.
  intros Hc k Hk.
  destruct (Ascii.eqb_spec (ascii_of_nat (48 + k)) c) as [<-|_]; [|reflexivity].
  do 10 (destruct k as [|k]; [discriminate Hc|]). lia.
Qed.

(** A string of bare characters holds no character that is not bare. *)
Lemma includes_bare c s :
  bare_char c = false -> all_chars bare_char s = true -> includes c s = false.
Proof. intros Hc Hs. exact (avoids_all_chars _ _ _ Hs Hc). Qed.

(** ** Numbers print in bare characters *)

Section Printing.
Variable c : ascii.
Hypothesis Hc : bare_char c = false.

Lemma includes_zeros_bare n : includes c (zeros n) = false.
Proof.
  induction n as [|n IH]; [reflexivity|].
  cbn [zeros]. rewrite includes_cons, IH.
  destruct (Ascii.eqb_spec "0" c) as [<-|_]; [discriminate Hc|reflexivity].
Qed.

Lemma includes_closed_bare s : all_chars bare_char s = true -> includes c s = false.
Proof. apply includes_bare, Hc. Qed.

Lemma includes_layout_bare ds n :
  includes c ds = false -> includes c (layout ds n) = false.
Proof.
  intros Hds. unfold layout, ssub.
  assert (Hdot : includes c "." = false) by (apply includes_closed_bare; reflexivity).
  assert (H0 : includes c "0." = false) by (apply includes_closed_bare; reflexivity).
  assert (He : includes c "e" = false) by (apply includes_closed_bare; reflexivity).
  assert (Hm : includes c "-" = false) by (apply includes_closed_bare; reflexivity).
  assert (Hp : includes c "+" = false) by (apply includes_closed_bare; reflexivity).
  repeat match goal with |- context [if ?b then _ else _] => destruct b end;
    rewrite ?includes_app, ?includes_zeros_bare, ?Hds, ?Hdot, ?H0, ?He, ?Hm, ?Hp,
      ?(includes_substring c _ _ ds Hds),
      ?(includes_digits c _ (not_bare_not_digit c Hc));
    reflexivity.
Qed.

Lemma includes_toString_bare x : includes c (toString x) = false.
Proof.
  destruct x as [s|s| |s m e];
    [apply includes_bare; [exact Hc|reflexivity]
    |destruct s; apply includes_bare; try exact Hc; reflexivity
    |apply includes_bare; [exact Hc|reflexivity]|].
  unfold toString. destruct (fraction m e) as [p q].
  destruct (shortest _ _ _ _ _ _) as [d n].
  rewrite includes_app, includes_layout_bare
    by (apply includes_digits, not_bare_not_digit, Hc).
  rewrite orb_false_r. destruct s; apply includes_bare; try exact Hc; reflexivity.
Qed.

Lemma includes_toFixed1_bare x : includes c (toFixed1 x) = false.
Proof.
  destruct x as [s|s| |s m e];
    [apply includes_bare; [exact Hc|reflexivity]
    |destruct s; apply includes_bare; try exact Hc; reflexivity
    |apply includes_bare; [exact Hc|reflexivity]|].
  unfold toFixed1. destruct (fraction m e) as [p q] eqn:Ef.
  destruct (_ <=? _).
  - apply includes_toString_bare.
  - rewrite !includes_app,
      !(includes_digits c _ (not_bare_not_digit c Hc)).
    cbn [orb]. rewrite orb_false_r.
    assert (Hdot : includes c "." = false) by (apply includes_bare; [exact Hc|reflexivity]).
    rewrite Hdot, orb_false_r.
    destruct s; apply includes_bare; try exact Hc; reflexivity.
Qed.

Lemma includes_fixed1_bare x : includes c (fixed1 x) = false.
Proof. apply includes_strip_dot0, includes_toFixed1_bare. Qed.

Lemma includes_show_bare o : includes c (show o) = false.
Proof.
  destruct o as [x|]; [apply includes_toString_bare|].
  apply includes_bare; [exact Hc|reflexivity].
Qed.

End Printing.

Lemma bare_toString x : all_chars bare_char (toString x) = true.
Proof. apply all_chars_avoids. intros c Hc. apply includes_toString_bare, Hc. Qed.

Lemma toString_cons x : exists c r, toString x = String c r.
Proof.
  pose proof (starts_plain_toString x) as Hs.
  destruct (toString x) as [|c r]; [discriminate Hs|eauto].
Qed.

(** A Number outside quotes is one word. *)
Lemma reads_toString x : reads (toString x) [] (toString x).
Proof.
  destruct (toString_cons x) as (c & r & E). pose proof (bare_toString x) as Hb.
  rewrite E in *. apply reads_bare, Hb.
Qed.

Lemma quotable_toString x : all_chars quotable_char (toString x) = true.
Proof.
  apply (all_chars_impl bare_char); [apply bare_quotable|apply bare_toString].
Qed.

Lemma quotable_show o : all_chars quotable_char (show o) = true.
Proof. destruct o as [x|]; [apply quotable_toString|reflexivity]. Qed.

(** ** The lines of the commands *)

Lemma literal_version : literal Version.
Proof. exists ["magick"; "-version"]. split; reflexivity. Qed.

Lemma literal_metadata p :
  all_chars quotable_char p = true -> literal (ReadMetadata p).
Proof.
  intros Hp. eexists. split; [reflexivity|].
  change (command_line (ReadMetadata p))
    with ("magick identify -format" +:+ " "
            +:+ (quoted exif_format +:+ " " +:+ quoted p)).
  rewrite (sh_words_reads _ _ _
             (reads_space _ _ _ _ _ _
                (reads_of_run "magick identify -format" ["magick"; "identify"]
                   "-format" eq_refl)
                (reads_space _ _ _ _ _ _
                   (reads_quoted exif_format eq_refl) (reads_quoted p Hp)))).
  reflexivity.
Qed.

Lemma literal_dims p : all_chars quotable_char p = true -> literal (ReadDims p).
Proof.
  intros Hp. eexists. split; [reflexivity|].
  change (command_line (ReadDims p))
    with ("magick identify -format" +:+ " "
            +:+ (quoted "%w %h" +:+ " " +:+ quoted p)).
  rewrite (sh_words_reads _ _ _
             (reads_space _ _ _ _ _ _
                (reads_of_run "magick identify -format" ["magick"; "identify"]
                   "-format" eq_refl)
                (reads_space _ _ _ _ _ _
                   (reads_quoted "%w %h" eq_refl) (reads_quoted p Hp)))).
  reflexivity.
Qed.

Lemma literal_verify tool p tws tw :
  reads tool tws tw -> all_chars quotable_char p = true -> literal (Verify tool p).
Proof.
  intros Ht Hp. exists ((tws ++ [tw]) ++ ["-verbose"; p]). split.
  - unfold words_of. rewrite (sh_words_reads _ _ _ Ht). reflexivity.
  - change (command_line (Verify tool p))
      with (tool +:+ " " +:+ ("-verbose" +:+ " " +:+ quoted p)).
    rewrite (sh_words_reads _ _ _
               (reads_space _ _ _ _ _ _ Ht
                  (reads_space _ _ _ _ _ _
                     (reads_of_run "-verbose" [] "-verbose" eq_refl)
                     (reads_quoted p Hp)))).
    cbn [app]. rewrite <- ?app_assoc. cbn [app]. rewrite <- ?app_assoc. reflexivity.
Qed.

Lemma literal_convert tool src args dst tws tw aws aw :
  reads tool tws tw -> reads args aws aw ->
  all_chars quotable_char src = true -> all_chars quotable_char dst = true ->
  literal (Convert tool src args dst).
Proof.
  intros Ht Ha Hs Hd. exists ((tws ++ [tw]) ++ src :: (aws ++ [aw]) ++ [dst]). split.
  - unfold words_of.
    rewrite (sh_words_reads _ _ _ Ht), (sh_words_reads _ _ _ Ha). reflexivity.
  - unfold command_line.
    rewrite (sh_words_reads _ _ _
               (reads_space _ _ _ _ _ _ Ht
                  (reads_space _ _ _ _ _ _ (reads_quoted src Hs)
                     (reads_space _ _ _ _ _ _ Ha (reads_quoted dst Hd))))).
    cbn [app]. rewrite <- ?app_assoc. cbn [app]. rewrite <- ?app_assoc. reflexivity.
Qed.

(** The options of the compositing command, word by word. *)
Lemma composite_args_eq d g txt :
  composite_args d g txt
  = "-fill" +:+ " "
    +:+ (quoted "#00000080" +:+ " "
    +:+ ("-draw" +:+ " "
    +:+ (quoted ("rectangle 0," +:+ toString (y0 g) +:+ " " +:+ show (w d)
                   +:+ "," +:+ show (h d)) +:+ " "
    +:+ ("-gravity southwest" +:+ " "
    +:+ ("-pointsize" +:+ " "
    +:+ (toString (ps g) +:+ " "
    +:+ ("-kerning 1 -fill white -annotate" +:+ " "
    +:+ (("+20+" +:+ toString (Math_round (mul (barHeight g) lit_0_35))) +:+ " "
    +:+ (dquote +:+ escape_quotes txt +:+ dquote))))))))).
Proof.
  unfold composite_args, quoted. cbn [join]. rewrite !sapp_assoc. reflexivity.
Qed.

Lemma reads_composite d g txt :
  inert txt = true ->
  reads (composite_args d g txt)
        [ "-fill"; "#00000080"; "-draw";
          "rectangle 0," +:+ toString (y0 g) +:+ " " +:+ show (w d) +:+ ","
            +:+ show (h d);
          "-gravity"; "southwest"; "-pointsize"; toString (ps g);
          "-kerning"; "1"; "-fill"; "white"; "-annotate";
          "+20+" +:+ toString (Math_round (mul (barHeight g) lit_0_35)) ]
        txt.
Proof.
  intros Ht. rewrite composite_args_eq.
  assert (Hrect : all_chars quotable_char
                    ("rectangle 0," +:+ toString (y0 g) +:+ " " +:+ show (w d)
                       +:+ "," +:+ show (h d)) = true).
  { rewrite !all_chars_app, quotable_toString, !quotable_show. reflexivity. }
  exact (reads_space _ _ _ _ _ _ (reads_of_run "-fill" [] "-fill" eq_refl)
          (reads_space _ _ _ _ _ _ (reads_quoted "#00000080" eq_refl)
          (reads_space _ _ _ _ _ _ (reads_of_run "-draw" [] "-draw" eq_refl)
          (reads_space _ _ _ _ _ _ (reads_quoted _ Hrect)
          (reads_space _ _ _ _ _ _
             (reads_of_run "-gravity southwest" ["-gravity"] "southwest" eq_refl)
          (reads_space _ _ _ _ _ _
             (reads_of_run "-pointsize" [] "-pointsize" eq_refl)
          (reads_space _ _ _ _ _ _ (reads_toString (ps g))
          (reads_space _ _ _ _ _ _
             (reads_of_run "-kerning 1 -fill white -annotate"
                ["-kerning"; "1"; "-fill"; "white"] "-annotate" eq_refl)
          (reads_space _ _ _ _ _ _
             (reads_glue "+20+" _ [] "+20+"
                (reads_of_run "+20+" [] "+20+" eq_refl)
                (bare_toString (Math_round (mul (barHeight g) lit_0_35))))
             (reads_escaped txt Ht)))))))))).
Qed.

(** The six paths of a file of a portable name are words between double
    quotes. *)
Lemma quotable_path d n :
  all_chars quotable_char d = true -> portable n = true ->
  all_chars quotable_char (path_join d n) = true.
Proof.
  intros Hd Hn. unfold path_join. rewrite !all_chars_app, Hd.
  rewrite (all_chars_impl _ _ _ portable_quotable Hn). reflexivity.
Qed.

Lemma quotable_paths file :
  portable file = true ->
  all_chars quotable_char (Pipeline.orig file) = true
  /\ all_chars quotable_char (Pipeline.temp file) = true
  /\ all_chars quotable_char (Pipeline.tempFull file) = true
  /\ all_chars quotable_char (Pipeline.tempThumb file) = true
  /\ all_chars quotable_char (Pipeline.outFull file) = true
  /\ all_chars quotable_char (Pipeline.outThumb file) = true.
Proof.
  intros Hf.
  unfold Pipeline.orig, Pipeline.temp, Pipeline.tempFull, Pipeline.tempThumb,
    Pipeline.outFull, Pipeline.outThumb, path_join.
  rewrite !all_chars_app, (all_chars_impl _ _ _ portable_quotable Hf).
  repeat split; reflexivity.
Qed.

(** ** The annotate text holds what the metadata holds *)

Lemma includes_split c d s x :
  includes c s = false -> x ∈ split d s -> includes c x = false.
Proof.
  revert x. induction s as [|e s IH]; intros x Hs Hx.
  - apply list_elem_of_singleton in Hx. subst x. reflexivity.
  - rewrite includes_cons in Hs. destruct (Ascii.eqb e c) eqn:Ee; [discriminate Hs|].
    rewrite split_step in Hx. destruct (Ascii.eqb e d).
    + apply elem_of_cons in Hx as [->|Hx]; [reflexivity|apply IH; assumption].
    + destruct (split_cons d s) as (y & ys & Ey). rewrite Ey in *.
      apply elem_of_cons in Hx as [->|Hx].
      * rewrite includes_cons, Ee. apply IH; [exact Hs|left].
      * apply IH; [exact Hs|right; exact Hx].
Qed.

Section Record.
Context `{MathLib}.
Variable c : ascii.
Hypothesis Hb : bare_char c = false.
Hypothesis Hw : is_white c = false.
Hypothesis Hslash : Ascii.eqb "/" c = false.

Lemma includes_exif_fields stdout k f :
  includes c stdout = false -> exif_fields stdout !! k = Some f ->
  includes c f = false.
Proof.
  intros Hs. unfold exif_fields. rewrite list_lookup_fmap.
  destruct (split "|" (trim stdout) !! k) as [x|] eqn:E; [|discriminate].
  intros [= <-]. rewrite includes_trim by exact Hw.
  apply (includes_split c "|" (trim stdout)).
  - rewrite includes_trim by exact Hw. exact Hs.
  - eapply list_elem_of_lookup_2, E.
Qed.

Lemma includes_or_default o dflt :
  (forall f, o = Some f -> includes c f = false) -> includes c dflt = false ->
  includes c (JsString.or_default o dflt) = false.
Proof.
  intros Ho Hd. destruct o as [f|]; [|exact Hd].
  cbn [JsString.or_default]. destruct (JsString.truthy f); [apply Ho; reflexivity|exact Hd].
Qed.

Lemma includes_record stdout :
  includes c stdout = false ->
  includes c (model (exif_of_stdout stdout)) = false
  /\ includes c (fNumber (exif_of_stdout stdout)) = false
  /\ includes c (exposure (exif_of_stdout stdout)) = false
  /\ includes c (iso (exif_of_stdout stdout)) = false.
Proof.
  intros Hs.
  pose proof (fun k f => includes_exif_fields stdout k f Hs) as Hf.
  assert (Hbare : forall s, all_chars bare_char s = true -> includes c s = false)
    by (intros s; apply includes_bare, Hb).
  assert (Hfrac : forall x, includes c ("1/" +:+ toString x) = false).
  { intros x. rewrite includes_app, includes_toString_bare by exact Hb.
    cbn [includes]. rewrite Hslash.
    destruct (Ascii.eqb_spec "1" c) as [<-|_]; [discriminate Hb|reflexivity]. }
  assert (Hsec : forall x, includes c (fixed1 x +:+ "s") = false).
  { intros x. rewrite includes_app, includes_fixed1_bare by exact Hb.
    apply Hbare. reflexivity. }
  assert (Hplain : forall x, includes c (toString x +:+ "s") = false).
  { intros x. rewrite includes_app, includes_toString_bare by exact Hb.
    apply Hbare. reflexivity. }
  unfold exif_of_stdout. cbn [model fNumber exposure iso].
  repeat split.
  - apply includes_or_default; [apply Hf|apply Hbare; reflexivity].
  - apply includes_or_default; [|reflexivity].
    intros f.
    repeat match goal with
      | |- context [if ?b then _ else _] => destruct b
      | |- context [match ?x ≫= rationalToFloat with _ => _ end] =>
          destruct (x ≫= rationalToFloat)
      | |- context [match rationalToFloat ?x with _ => _ end] =>
          destruct (rationalToFloat x)
      | |- context [match exif_fields stdout !! ?k with _ => _ end] =>
          let E := fresh "E" in destruct (exif_fields stdout !! k) eqn:E
      | |- Some _ = Some _ -> _ => intros [= <-]
      | |- None = Some _ -> _ => intros [=]
      end;
      first [ apply includes_fixed1_bare, Hb | eapply Hf; eassumption ].
  - apply includes_or_default; [|reflexivity].
    intros f.
    repeat match goal with
      | |- context [if ?b then _ else _] => destruct b
      | |- context [match ?x ≫= rationalToFloat with _ => _ end] =>
          destruct (x ≫= rationalToFloat)
      | |- context [match exif_fields stdout !! ?k with _ => _ end] =>
          let E := fresh "E" in destruct (exif_fields stdout !! k) eqn:E
      | |- Some _ = Some _ -> _ => intros [= <-]
      | |- None = Some _ -> _ => intros [=]
      end;
      first [ apply Hfrac | apply Hsec | apply Hplain | eapply Hf; eassumption ].
  - apply includes_or_default; [apply Hf|].
    apply includes_or_default; [apply Hf|reflexivity].
Qed.

End Record.

Lemma inert_char_cases c : inert_char c = false -> c = "$"%char \/ c = "`"%char.
Proof.
  unfold inert_char. intros Hc.
  destruct (Ascii.eqb_spec c "$") as [E|_]; [left; exact E|].
  destruct (Ascii.eqb_spec c "`") as [E|_]; [right; exact E|discriminate Hc].
Qed.

Lemma includes_text c r :
  inert_char c = false ->
  includes c (model r) = false -> includes c (fNumber r) = false ->
  includes c (exposure r) = false -> includes c (iso r) = false ->
  includes c (text r) = false.
Proof.
  intros Hc Hm Hf He Hi. destruct r as [m f e i].
  cbn [model fNumber exposure iso] in *.
  unfold text, parts, separator. cbn [model fNumber exposure iso].
  destruct (inert_char_cases c Hc) as [E|E]; subst c;
    destruct f, e, i; cbn [JsString.truthy filter_Boolean join];
    rewrite ?truthy_app_l by reflexivity; cbn [filter_Boolean join];
    rewrite ?includes_app, ?Hm, ?Hf, ?He, ?Hi; reflexivity.
Qed.

(** The text of the watermark holds neither a dollar sign nor a backquote
    when the output of the metadata query holds none. *)
Lemma inert_text `{MathLib} stdout :
  inert stdout = true -> inert (text (exif_of_stdout stdout)) = true.
Proof.
  intros Hs. apply all_chars_avoids. intros c Hc.
  assert (Hin : includes c stdout = false) by exact (avoids_all_chars _ _ _ Hs Hc).
  assert (Hb : bare_char c = false /\ is_white c = false /\ Ascii.eqb "/" c = false).
  { destruct (inert_char_cases c Hc) as [E|E]; subst c; repeat split. }
  destruct Hb as (Hb & Hw & Hslash).
  destruct (includes_record c Hb Hw Hslash stdout Hin) as (Hm & Hf & He & Hi).
  apply includes_text; assumption.
Qed.

(** ** The commands of a run *)

(** A line that is given, read by running the reader. *)
Ltac given_line :=
  lazymatch goal with
  | |- reads ?s _ _ =>
      let r := eval vm_compute in
        (sh_run (Some {| done := []; word := None; where_ := Bare |}) s) in
      lazymatch r with
      | Some {| done := ?ws; word := Some ?w; where_ := Bare |} =>
          apply (reads_of_run s ws w); vm_compute; reflexivity
      end
  end.

Ltac literally Hq :=
  lazymatch goal with
  | |- literal Version => apply literal_version
  | |- literal (ReadMetadata _) => apply literal_metadata; assumption
  | |- literal (ReadDims _) => apply literal_dims; assumption
  | |- literal (Verify _ _) =>
      eapply literal_verify; [given_line|assumption]
  | |- literal (Convert _ _ (composite_args _ _ _) _) =>
      eapply literal_convert;
      [ given_line
      | apply reads_composite, inert_text; eapply Hq; eassumption
      | assumption | assumption ]
  | |- literal (Convert _ _ _ _) =>
      eapply literal_convert; [given_line|given_line|assumption|assumption]
  end.

Ltac all_literally Hq :=
  cbn [app commands];
  repeat match goal with
    | |- Forall _ [] => apply Forall_nil_2
    | |- Forall _ (_ :: _) => apply Forall_cons_2
    | |- literal _ => literally Hq
    end.

Section Lines.
Context `{MathLib} `{Toolchain}.

Lemma primary_literal file w :
  portable file = true -> quiet_metadata ->
  post (Pipeline.primary file) w (fun _ _ t => Forall literal (commands t)).
Proof.
  intros Hf Hq.
  destruct (quotable_paths file Hf) as (Q1 & Q2 & Q3 & Q4 & Q5 & Q6).
  unfold Pipeline.primary, Pipeline.readExif, Pipeline.addWatermark,
    Pipeline.imageDims, Pipeline.cleanup.
  cbn [for_each].
  wp_keep.
  all: all_literally Hq.
Qed.

Lemma fallback_literal file w :
  portable file = true -> quiet_metadata ->
  post (Pipeline.fallback file) w (fun _ _ t => Forall literal (commands t)).
Proof.
  intros Hf Hq.
  destruct (quotable_paths file Hf) as (Q1 & Q2 & Q3 & Q4 & Q5 & Q6).
  unfold Pipeline.fallback, Pipeline.readExif, Pipeline.addWatermark,
    Pipeline.imageDims.
  wp_keep.
  all: all_literally Hq.
Qed.

Lemma legacy_primary_literal file w :
  portable file = true ->
  post (Legacy.primary file) w (fun _ _ t => Forall literal (commands t)).
Proof.
  intros Hf.
  destruct (quotable_paths file Hf) as (Q1 & Q2 & Q3 & Q4 & Q5 & Q6).
  unfold Legacy.primary.
  change (Legacy.filePath file) with (Pipeline.orig file).
  change (Legacy.tempPath file) with (Pipeline.temp file).
  change (Legacy.fullSizePath file) with (Pipeline.outFull file).
  change (Legacy.thumbPath file) with (Pipeline.outThumb file).
  wp_keep.
  all: all_literally I.
Qed.

Lemma legacy_fallback_literal file w :
  portable file = true ->
  post (Legacy.fallback file) w (fun _ _ t => Forall literal (commands t)).
Proof.
  intros Hf.
  destruct (quotable_paths file Hf) as (Q1 & Q2 & Q3 & Q4 & Q5 & Q6).
  unfold Legacy.fallback.
  change (Legacy.filePath file) with (Pipeline.orig file).
  change (Legacy.fullSizePath file) with (Pipeline.outFull file).
  change (Legacy.thumbPath file) with (Pipeline.outThumb file).
  wp_keep.
  all: all_literally I.
Qed.

End Lines.

(** The body of the loop runs the commands of its two paths. *)
Lemma guarded_literal file outF outT (primary fallback : M unit) w r w' t :
  post primary w (fun _ _ t => Forall literal (commands t)) ->
  (forall w1, post fallback w1 (fun _ _ t => Forall literal (commands t))) ->
  guarded file outF outT primary fallback w = (r, w', t) ->
  Forall literal (commands t).
Proof.
  intros Hprim Hfall. rewrite guarded_eq.
  destruct (primary w) as [[[a|err] w1] t1] eqn:E1;
    pose proof (post_elim _ _ _ _ _ _ Hprim E1) as L1.
  - intros [= <- <- <-]. exact L1.
  - destruct (fallback w1) as [[[a|ferr] w2] t2] eqn:E2;
      pose proof (post_elim _ _ _ _ _ _ (Hfall w1) E2) as L2;
      intros [= <- <- <-]; cbn [commands];
      rewrite commands_app; cbn [commands]; rewrite ?commands_app;
      cbn [commands placeholders]; rewrite ?app_nil_r;
      apply Forall_app_2; assumption.
Qed.

Lemma loop_literal (process : string -> M unit) names :
  (forall f, f ∈ names -> forall w r w' t,
      process f w = (r, w', t) -> Forall literal (commands t)) ->
  forall w r w' t,
    for_each names process w = (r, w', t) -> Forall literal (commands t).
Proof.
  induction names as [|f names IH]; intros Hall w r w' t.
  - intros [= <- <- <-]. apply Forall_nil_2.
  - cbn [for_each]. rewrite bind_eq.
    destruct (process f w) as [[[a|e] w1] t1] eqn:E1;
      pose proof (Hall f ltac:(left) _ _ _ _ E1) as L1.
    + destruct (for_each names process w1) as [[r2 w2] t2] eqn:E2.
      intros [= <- <- <-]. rewrite commands_app. apply Forall_app_2; [exact L1|].
      apply (IH (fun g Hg => Hall g ltac:(right; exact Hg)) _ _ _ _ E2).
    + intros [= <- <- <-]. exact L1.
Qed.

Section Tasks.
Context `{MathLib} `{Toolchain}.

Lemma pipeline_process_literal f w r w' t :
  portable f = true -> quiet_metadata ->
  Pipeline.process f w = (r, w', t) -> Forall literal (commands t).
Proof.
  intros Hf Hq.
  apply (guarded_literal f (Pipeline.outFull f) (Pipeline.outThumb f)
           (Pipeline.primary f) (Pipeline.fallback f)).
  - apply primary_literal; assumption.
  - intros w1. apply fallback_literal; assumption.
Qed.

Lemma legacy_process_literal f w r w' t :
  portable f = true ->
  Legacy.process f w = (r, w', t) -> Forall literal (commands t).
Proof.
  intros Hf.
  apply (guarded_literal f (Legacy.fullSizePath f) (Legacy.thumbPath f)
           (Legacy.primary f) (Legacy.fallback f)).
  - apply legacy_primary_literal; assumption.
  - intros w1. apply legacy_fallback_literal; assumption.
Qed.

(** Every command line of the task with the watermark is taken as it is
    written. *)
Lemma pipeline_task_literal w r w' t :
  (forall f, f ∈ batch w -> portable f = true) -> quiet_metadata ->
  Pipeline.resize_images w = (r, w', t) -> Forall literal (commands t).
Proof.
  intros Hb Hq E. pose proof (pipeline_task_shape w) as P.
  destruct (run (clock w) Version) as [message|out].
  { rewrite P in E. injection E as <- <- <-. all_literally Hq. }
  unfold batch in Hb. destruct (images w) as [names|]; cbn [from_option id] in Hb.
  2:{ rewrite P in E. injection E as <- <- <-. all_literally Hq. }
  destruct (List.filter is_image names) as [|f0 l] eqn:Ef.
  { rewrite P in E. injection E as <- <- <-. all_literally Hq. }
  destruct P as (w0 & pre & _ & _ & X0 & Hrun).
  destruct (for_each (f0 :: l) Pipeline.process w0) as [[r1 w1] t1] eqn:E1.
  rewrite (Hrun _ _ _ eq_refl) in E. injection E as <- <- <-.
  rewrite commands_app, X0. apply Forall_app_2; [all_literally Hq|].
  apply (loop_literal Pipeline.process (f0 :: l)) in E1; [exact E1|].
  intros f Hf w2 r2 w2' t2. apply pipeline_process_literal; [apply Hb, Hf|exact Hq].
Qed.

(** And so is every command line of the older task. *)
Lemma legacy_task_literal w r w' t :
  (forall f, f ∈ batch w -> portable f = true) ->
  Legacy.resize_images w = (r, w', t) -> Forall literal (commands t).
Proof.
  intros Hb E. pose proof (legacy_task_shape w) as L.
  unfold batch in Hb. destruct (images w) as [names|]; cbn [from_option id] in Hb.
  2:{ rewrite L in E. injection E as <- <- <-. apply Forall_nil_2. }
  destruct (List.filter is_image names) as [|f0 l] eqn:Ef.
  { rewrite L in E. injection E as <- <- <-. apply Forall_nil_2. }
  destruct L as (w0 & pre & _ & _ & X0 & Hrun).
  destruct (loop_run Legacy.process Legacy.primary Legacy.fallback
              (f0 :: l) w0 (fun _ => eq_refl) legacy_paths_behave
              legacy_primary_frames legacy_fallback_frames)
    as (w1 & t1 & E1 & _).
  rewrite (Hrun _ _ E1) in E. injection E as <- <- <-.
  rewrite !commands_app, X0. cbn [commands app]. rewrite app_nil_r.
  apply (loop_literal Legacy.process (f0 :: l)) in E1; [exact E1|].
  intros f Hf w2 r2 w2' t2. apply legacy_process_literal. apply Hb, Hf.
Qed.

End Tasks.

End ReadingFacts.


(** * The claims *)

Module Claims.
Import JsString JsNumber Exif Watermark Shell Vocabulary.
Import StringFacts NumberFacts FloatFacts ExifFacts ShellFacts TaskFacts RoundingFacts.

Section Metadata.
Context `{MathLib}.

(** C1, as amended. [Math.SQRT2] is the Number nearest to the square root
    of two.  When the direct f-number field of the query output is empty
    and the aperture-value field is accepted by [rationalToFloat] as [x],
    the f-number of the record shows [Math.pow(Math.SQRT2, x)] to one
    decimal place, provided that value is finite and below [10 ^ 21]: it
    is the decimal numeral of the nearest tenth, a tie going up, without a
    final [.0].  When the direct field holds a slash and is accepted as
    [rf], finite and below [10 ^ 21] in magnitude, the f-number shows [rf]
    by the same rule. *)
Theorem f_number_resolution (stdout : string) :
  nearest_to_sqrt2 Math_SQRT2
  /\ (forall av x,
      truthy_opt (exif_fields stdout !! 1%nat) = false ->
      exif_fields stdout !! 2%nat = Some av ->
      rationalToFloat av = Some x ->
      below_1e21 (Math_pow Math_SQRT2 x) ->
      to_one_decimal (Math_pow Math_SQRT2 x) (fNumber (exif_of_stdout stdout)))
  /\ (forall f rf,
      exif_fields stdout !! 1%nat = Some f ->
      includes "/" f = true ->
      rationalToFloat f = Some rf ->
      below_1e21 rf ->
      to_one_decimal rf (fNumber (exif_of_stdout stdout))).
Proof.
  split; [exact Math_SQRT2_nearest|]. split.
  - intros av x Hf Hav Hx Hb.
    assert (E : fNumber (exif_of_stdout stdout) = fixed1 (Math_pow Math_SQRT2 x)).
    { unfold exif_of_stdout. cbn [fNumber].
      rewrite Hf, Hav. cbn [truthy_opt negb andb mbind option_bind].
      rewrite (rationalToFloat_truthy _ _ Hx), Hx.
      rewrite includes_fixed1, andb_false_r. apply or_default_empty. }
    rewrite E. apply fixed1_to_one_decimal, Hb.
  - intros f rf Hf Hs Hrf Hb.
    assert (E : fNumber (exif_of_stdout stdout) = fixed1 rf).
    { unfold exif_of_stdout. cbn [fNumber].
      rewrite Hf. cbn [truthy_opt negb andb].
      rewrite (includes_truthy _ _ Hs). cbn [negb andb].
      rewrite (includes_truthy _ _ Hs), Hs. cbn [andb].
      rewrite Hrf. apply or_default_empty. }
    rewrite E. apply fixed1_to_one_decimal, Hb.
Qed.

(** C2, as amended. When the direct exposure-time field is empty and the
    shutter-speed field is accepted by [rationalToFloat] as [tv], the
    exposure of the record comes from [t = Math.pow(2, -tv)].  When
    [t < 1] it is [1/] followed by the quotient [1 / t] rounded to an
    integer, the nearest one and the larger one at a tie, in its
    number-to-string form.  When [t >= 1] and [t] is below [10 ^ 21], it
    shows [t] to one decimal place, the nearest tenth without a final
    [.0], followed by [s]. *)
Theorem exposure_from_shutter_speed (stdout ssv : string) (tv : num) :
  truthy_opt (exif_fields stdout !! 3%nat) = false ->
  exif_fields stdout !! 4%nat = Some ssv ->
  rationalToFloat ssv = Some tv ->
  let t := Math_pow lit_2 (neg tv) in
  (ltb t lit_1 = true ->
   exists r, rounded (div lit_1 t) r
             /\ exposure (exif_of_stdout stdout) = "1/" +:+ toString r)
  /\ (geb t lit_1 = true ->
      below_1e21 t ->
      exists s, to_one_decimal t s
                /\ exposure (exif_of_stdout stdout) = s +:+ "s").
Proof.
  intros He Hssv Htv t.
  assert (E : exposure (exif_of_stdout stdout)
              = if ltb t lit_1
                then "1/" +:+ toString (Math_round (div lit_1 t))
                else fixed1 t +:+ "s").
  { unfold exif_of_stdout. cbn [exposure].
    rewrite He, Hssv. cbn [truthy_opt negb andb mbind option_bind].
    rewrite (rationalToFloat_truthy _ _ Htv), Htv. fold t.
    destruct (ltb t lit_1).
    - cbn [JsString.truthy includes Ascii.eqb]. apply or_default_empty.
    - rewrite includes_app, includes_fixed1. cbn [includes orb negb].
      rewrite truthy_app_l by apply truthy_fixed1. cbn [andb].
      rewrite Number_s. cbn [isFinite NaN]. apply or_default_empty. }
  split.
  - intros Ht. exists (Math_round (div lit_1 t)).
    split; [apply Math_round_rounded|]. rewrite E, Ht. reflexivity.
  - intros Ht Hb. exists (fixed1 t).
    split; [apply fixed1_to_one_decimal, Hb|].
    rewrite E, (geb_not_ltb _ _ Ht). reflexivity.
Qed.

(** What the re-format of a bare exposure computes: a direct exposure
    value that is not empty, holds no slash and reads as a finite Number
    [t] is shown as [1/] followed by [Math.round(1 / t)] when [t < 1], and
    as [t] in its plain number-to-string form followed by [s] when
    [t >= 1]. *)
Lemma bare_exposure_reformat (stdout e : string) :
  exif_fields stdout !! 3%nat = Some e ->
  JsString.truthy e = true ->
  includes "/" e = false ->
  isFinite (Number e) = true ->
  let t := Number e in
  (ltb t lit_1 = true ->
   exposure (exif_of_stdout stdout)
   = "1/" +:+ toString (Math_round (div lit_1 t)))
  /\ (geb t lit_1 = true ->
      exposure (exif_of_stdout stdout) = toString t +:+ "s").
Proof.
  intros He Ht Hs Hfin t.
  assert (E : exposure (exif_of_stdout stdout)
              = if ltb t lit_1
                then "1/" +:+ toString (Math_round (div lit_1 t))
                else toString t +:+ "s").
  { unfold exif_of_stdout. cbn [exposure].
    rewrite He. cbn [truthy_opt]. rewrite Ht. cbn [negb andb].
    rewrite Ht, Hs. cbn [negb andb]. rewrite Hfin. apply or_default_empty. }
  split; intros Hc; rewrite E.
  - rewrite Hc. reflexivity.
  - rewrite (geb_not_ltb _ _ Hc). reflexivity.
Qed.

End Metadata.

(** C4, as amended. For every probed width and height: the point size is
    the override when one is given that is truthy (neither zero nor NaN),
    and [max(14, round(w * 0.028))] when none is given or the one given is
    falsy; the bar height is [max(50, round(ps * 2.2))]; the bar top is
    [max(0, h - barHeight)], which is [+0] whenever the bar is taller than
    the image. *)
Theorem bar_geometry (wv hv : num) (pointSizeOverride : option num) :
  let d := {| w := Some wv; h := Some hv |} in
  let g := geometry d pointSizeOverride in
  (forall o, pointSizeOverride = Some o -> JsNumber.truthy o = true -> ps g = o)
  /\ ((pointSizeOverride = None
       \/ exists o, pointSizeOverride = Some o /\ JsNumber.truthy o = false) ->
      ps g = Math_max lit_14 (Math_round (mul wv lit_0_028)))
  /\ barHeight g = Math_max lit_50 (Math_round (mul (ps g) lit_2_2))
  /\ y0 g = Math_max lit_0 (sub hv (barHeight g))
  /\ (gtb (barHeight g) hv = true -> y0 g = lit_0).
Proof.
  intros d g. repeat split.
  - intros o -> Ho. unfold g, geometry. cbn [ps JsNumber.or_default].
    rewrite Ho. reflexivity.
  - intros [->|[o [-> Ho]]]; unfold g, geometry; cbn [ps JsNumber.or_default];
      [|rewrite Ho]; reflexivity.
  - intros Hgt. apply clamp_to_zero, Hgt.
Qed.

(** C5. The watermark text is the join, by the separator of three spaces,
    of the fragments that are present, in order: the camera icon with the
    model always, then the f-number, the exposure and the ISO value, each
    only when its field is not empty.  A field that is empty brings neither
    a fragment nor a separator. *)
Theorem text_is_join_of_present_fragments (r : MetadataRecord) :
  filter_Boolean (parts r) = fragments r
  /\ text r = join separator (fragments r)
  /\ text r = "📷 " +:+ model r +:+ joined "● f/" (fNumber r)
                +:+ joined "● " (exposure r) +:+ joined "● ISO " (iso r).
Proof.
  destruct r as [m f e i]. unfold text, parts, fragments, present, joined.
  cbn [model fNumber exposure iso].
  destruct f, e, i; cbn [JsString.truthy filter_Boolean join app];
    rewrite ?sapp_nil_r, ?sapp_assoc; repeat split; reflexivity.
Qed.

Section Task.
Context `{MathLib} `{Toolchain}.

(** C6, as amended. [readExif] returns a record when the metadata query
    succeeds, and then every field that is missing from the output, and
    whose fallback field is missing or rejected by [rationalToFloat], is
    the empty string, the model being Camera; when the query fails,
    [readExif] throws the error of the query. *)
Theorem readExif_outcome path w :
  match run (clock w) (ReadMetadata path) with
  | Succeeds stdout =>
      Pipeline.readExif path w
      = (Return (exif_of_stdout stdout), tick w,
         [Exec (ReadMetadata path) (Succeeds stdout)])
      /\ (truthy_opt (exif_fields stdout !! 0%nat) = false ->
          model (exif_of_stdout stdout) = "Camera")
      /\ (truthy_opt (exif_fields stdout !! 1%nat) = false ->
          exif_fields stdout !! 2%nat ≫= rationalToFloat = None ->
          fNumber (exif_of_stdout stdout) = "")
      /\ (truthy_opt (exif_fields stdout !! 3%nat) = false ->
          exif_fields stdout !! 4%nat ≫= rationalToFloat = None ->
          exposure (exif_of_stdout stdout) = "")
      /\ (truthy_opt (exif_fields stdout !! 5%nat) = false ->
          truthy_opt (exif_fields stdout !! 6%nat) = false ->
          iso (exif_of_stdout stdout) = "")
  | Fails message =>
      Pipeline.readExif path w
      = (Throw message, tick w, [Exec (ReadMetadata path) (Fails message)])
  end.
Proof.
  unfold Pipeline.readExif, bind, execAsync, ret.
  destruct (run (clock w) (ReadMetadata path)) as [message|stdout];
    cbn [target]; [reflexivity|].
  split; [reflexivity|apply unresolved_fields_default].
Qed.


(** C8, as amended. In both tasks: when the primary path of a file
    completes, no temporary file of that file is left when its processing
    ends; when the primary path throws, the fallback and the placeholder
    step neither remove nor create a temporary file, so those the primary
    path had created are still there when the processing ends. *)
Theorem temporaries_after_processing :
  (forall file w r w' t,
      Pipeline.process file w = (r, w', t) ->
      (forall a w1 t1, Pipeline.primary file w = (Return a, w1, t1) ->
                       no_temporaries file w')
      /\ (forall err w1 t1 p,
             Pipeline.primary file w = (Throw err, w1, t1) ->
             p ∈ [Pipeline.temp file; Pipeline.tempFull file; Pipeline.tempThumb file] ->
             files w' !! p = files w1 !! p))
  /\ (forall file w r w' t,
         Legacy.process file w = (r, w', t) ->
         (forall a w1 t1, Legacy.primary file w = (Return a, w1, t1) ->
                          files w' !! Legacy.tempPath file = None)
         /\ (forall err w1 t1,
                Legacy.primary file w = (Throw err, w1, t1) ->
                files w' !! Legacy.tempPath file = files w1 !! Legacy.tempPath file)).
Proof.
  split; intros file w r w' t Hrun;
    pose proof (paths_differ file) as
      (D1 & D2 & D3 & D4 & D5 & D6 & D7 & D8 & D9 & D10 & D11 & D12 & D13 & D14 & D15).
  - change (Pipeline.process file)
      with (guarded file (Pipeline.outFull file) (Pipeline.outThumb file)
                    (Pipeline.primary file) (Pipeline.fallback file)) in Hrun.
    rewrite guarded_eq in Hrun. split.
    + intros a w1 t1 E1. rewrite E1 in Hrun. injection Hrun as <- <- <-.
      exact (proj2 (proj2 (proj2 (post_elim _ _ _ _ _ _ (primary_run file w) E1)))
                   (match a with tt => eq_refl end)).
    + intros err w1 t1 p E1 Hp. rewrite E1 in Hrun.
      assert (Hp1 : p <> Pipeline.outFull file /\ p <> Pipeline.outThumb file).
      { repeat (apply elem_of_cons in Hp as [->|Hp]);
          [split; congruence..|apply elem_of_nil in Hp; contradiction]. }
      destruct Hp1 as [Hp1 Hp2].
      destruct (Pipeline.fallback file w1) as [[[a|ferr] w2] t2] eqn:E2;
        injection Hrun as <- <- <-;
        pose proof (post_elim _ _ _ _ _ _ (fallback_run file w1) E2)
          as (_ & _ & Hframe).
      * apply Hframe; assumption.
      * cbn [files set_files]. rewrite !lookup_insert_ne by congruence.
        apply Hframe; assumption.
  - change (Legacy.process file)
      with (guarded file (Legacy.fullSizePath file) (Legacy.thumbPath file)
                    (Legacy.primary file) (Legacy.fallback file)) in Hrun.
    rewrite guarded_eq in Hrun. split.
    + intros a w1 t1 E1. rewrite E1 in Hrun. injection Hrun as <- <- <-.
      exact (proj2 (proj2 (post_elim _ _ _ _ _ _ (legacy_primary_run file w) E1))
                   (match a with tt => eq_refl end)).
    + intros err w1 t1 E1. rewrite E1 in Hrun.
      change (Legacy.tempPath file) with (Pipeline.temp file).
      destruct (Legacy.fallback file w1) as [[[a|ferr] w2] t2] eqn:E2;
        injection Hrun as <- <- <-;
        pose proof (post_elim _ _ _ _ _ _ (legacy_fallback_run file w1) E2)
          as (_ & _ & Hframe).
      * apply Hframe; assumption.
      * cbn [files set_files].
        change (Legacy.fullSizePath file) with (Pipeline.outFull file).
        change (Legacy.thumbPath file) with (Pipeline.outThumb file).
        rewrite !lookup_insert_ne by congruence.
        apply Hframe; assumption.
Qed.

(** C9. While a file is processed, every metadata query, in the primary
    path and in the fallback path, reads the path of the original; the
    normalisation reads the original and writes the temporary path, which
    is another path; and no step writes or removes the original, whose
    content is the same when the processing ends. *)
Theorem metadata_read_from_original file w r w' t :
  Pipeline.process file w = (r, w', t) ->
  Forall (honours_original file) t
  /\ Pipeline.temp file <> Pipeline.orig file
  /\ files w' !! Pipeline.orig file = files w !! Pipeline.orig file.
Proof.
  intros Hrun.
  pose proof (paths_differ file) as
    (D1 & D2 & D3 & D4 & D5 & D6 & D7 & D8 & D9 & D10 & D11 & D12 & D13 & D14 & D15).
  change (Pipeline.process file)
    with (guarded file (Pipeline.outFull file) (Pipeline.outThumb file)
                  (Pipeline.primary file) (Pipeline.fallback file)) in Hrun.
  rewrite guarded_eq in Hrun.
  destruct (Pipeline.primary file w) as [[[a|err] w1] t1] eqn:E1;
    pose proof (post_elim _ _ _ _ _ _ (primary_run file w) E1)
      as (_ & Ht1 & Ho1 & _).
  - injection Hrun as <- <- <-. repeat split; [|congruence|exact Ho1].
    apply Forall_cons_2; [exact I|apply (tame_honours _ _ Ht1)].
  - destruct (Pipeline.fallback file w1) as [[[a|ferr] w2] t2] eqn:E2;
      pose proof (post_elim _ _ _ _ _ _ (fallback_run file w1) E2)
        as (_ & Ht2 & Hframe);
      injection Hrun as <- <- <-; (repeat split; [|congruence|]).
    + apply Forall_cons_2; [exact I|].
      apply Forall_app_2; [apply (tame_honours _ _ Ht1)|].
      apply Forall_cons_2; [exact I|apply (tame_honours _ _ Ht2)].
    + rewrite Hframe by congruence. exact Ho1.
    + apply Forall_cons_2; [exact I|].
      apply Forall_app_2; [apply (tame_honours _ _ Ht1)|].
      apply Forall_cons_2; [exact I|].
      apply Forall_app_2; [apply (tame_honours _ _ Ht2)|].
      unfold placeholders.
      repeat apply Forall_cons_2; try apply Forall_nil_2; cbn [honours_original];
        first [exact I|congruence].
    + cbn [files set_files]. rewrite !lookup_insert_ne by congruence.
      rewrite Hframe by congruence. exact Ho1.
Qed.

End Task.

(** C10, where the code departs from it. [rationalToFloat] gives NaN for
    the rational string x/2 and Infinity for Infinity/1: the quotient is
    returned without the finiteness test the plain path applies. *)
Theorem rationalToFloat_not_finite :
  rationalToFloat "x/2" = Some NaN
  /\ rationalToFloat "Infinity/1" = Some (S754_infinity false)
  /\ isFinite NaN = false
  /\ isFinite (S754_infinity false) = false.
Proof. vm_compute. repeat split. Qed.

(** Reading the text off a statement of one decimal place, at a Number
    that is given. *)
Ltac tenths H k :=
  let n := fresh "n" in
  let Hn := fresh "Hn" in
  let Hs := fresh "Hs" in
  destruct H as (n & Hn & Hs);
  rewrite Hs;
  match type of Hn with
  | nearest ?p ?q _ =>
      rewrite (nearest_unique p q n k ltac:(vm_compute; reflexivity) Hn
                 ltac:(vm_compute; split; [reflexivity|discriminate]))
  end;
  reflexivity.

(** Reading the text off a statement of the nearest integer, at a Number
    that is given. *)
Ltac decide_integral Hr :=
  lazymatch type of Hr with
  | if ?c then _ else _ =>
      let b := eval vm_compute in c in
      change c with b in Hr; cbv iota in Hr
  end.

Ltac whole H x :=
  let r := fresh "r" in
  let Hr := fresh "Hr" in
  let Hs := fresh "Hs" in
  destruct H as (r & Hr & Hs);
  match type of Hr with
  | rounded ?v _ => replace v with x in Hr by (vm_compute; reflexivity)
  end;
  cbn [rounded] in Hr; decide_integral Hr;
  rewrite Hs, Hr; vm_compute; reflexivity.

Ltac nearest_whole H x k :=
  let r := fresh "r" in
  let n := fresh "n" in
  let Hr := fresh "Hr" in
  let Hn := fresh "Hn" in
  let Hs := fresh "Hs" in
  destruct H as (r & Hr & Hs);
  match type of Hr with
  | rounded ?v _ => replace v with x in Hr by (vm_compute; reflexivity)
  end;
  cbn [rounded] in Hr; decide_integral Hr;
  destruct Hr as (n & Hn & Hr);
  match type of Hn with
  | nearest ?p ?q _ =>
      rewrite (nearest_unique p q n k ltac:(vm_compute; reflexivity) Hn
                 ltac:(vm_compute; split; [reflexivity|discriminate])) in Hr
  end;
  rewrite Hs, Hr; vm_compute; reflexivity.

Ltac seconds H x k :=
  let s := fresh "s" in
  let n := fresh "n" in
  let Ht := fresh "Ht" in
  let Hn := fresh "Hn" in
  let Hs := fresh "Hs" in
  destruct H as (s & Ht & Hs);
  match type of Ht with
  | to_one_decimal ?v _ => replace v with x in Ht by (vm_compute; reflexivity)
  end;
  cbn [to_one_decimal] in Ht;
  destruct Ht as (n & Hn & Ht);
  match type of Hn with
  | nearest ?p ?q _ =>
      rewrite (nearest_unique p q n k ltac:(vm_compute; reflexivity) Hn
                 ltac:(vm_compute; split; [reflexivity|discriminate])) in Ht
  end;
  rewrite Hs, Ht; reflexivity.

(** ** Runs on concrete inputs *)

Section Runs.
#[local] Existing Instance pow_model.

(** The example of the specification. *)
Example text_of_spec_example :
  text {| model := "Camera"; fNumber := ""; exposure := "1/200"; iso := "400" |}
  = "📷 Camera   ● 1/200   ● ISO 400".
Proof. reflexivity. Qed.

Lemma f_number_resolution_witness :
  fNumber (exif_of_stdout "X||3||8||800") = "2.8"
  /\ fNumber (exif_of_stdout "X||5||||") = "5.7"
  /\ fNumber (exif_of_stdout "X||4||||") = "4"
  /\ fNumber (exif_of_stdout "X|28/10||2.5|||") = "2.8"
  /\ fNumber (exif_of_stdout "X|1/4|||||") = "0.3".
Proof.
  split; [|split; [|split; [|split]]].
  - pose proof (proj1 (proj2 (f_number_resolution "X||3||8||800")) "3" (Number "3")
                      eq_refl eq_refl eq_refl) as H.
    assert (E : Math_pow Math_SQRT2 (Number "3")
                = S754_finite false 6369051672525774 (-51)) by (vm_compute; reflexivity).
    rewrite E in H. specialize (H ltac:(vm_compute; reflexivity)).
    tenths H 28.
  - pose proof (proj1 (proj2 (f_number_resolution "X||5||||")) "5" (Number "5")
                      eq_refl eq_refl eq_refl) as H.
    assert (E : Math_pow Math_SQRT2 (Number "5")
                = S754_finite false 6369051672525775 (-50)) by (vm_compute; reflexivity).
    rewrite E in H. specialize (H ltac:(vm_compute; reflexivity)).
    tenths H 57.
  - pose proof (proj1 (proj2 (f_number_resolution "X||4||||")) "4" (Number "4")
                      eq_refl eq_refl eq_refl) as H.
    assert (E : Math_pow Math_SQRT2 (Number "4")
                = S754_finite false 4503599627370497 (-50)) by (vm_compute; reflexivity).
    rewrite E in H. specialize (H ltac:(vm_compute; reflexivity)).
    tenths H 40.
  - pose proof (proj2 (proj2 (f_number_resolution "X|28/10||2.5|||")) "28/10"
                      (Number "2.8") eq_refl eq_refl eq_refl
                      ltac:(vm_compute; reflexivity)) as H.
    tenths H 28.
  - pose proof (proj2 (proj2 (f_number_resolution "X|1/4|||||")) "1/4"
                      (Number "0.25") eq_refl eq_refl eq_refl
                      ltac:(vm_compute; reflexivity)) as H.
    tenths H 3.
Defined.

Lemma exposure_from_shutter_speed_witness :
  exposure (@exif_of_stdout pow_halves "X||4||8||800") = "1/256"
  /\ exposure (@exif_of_stdout pow_halves "X||4||1.5||800") = "1/3"
  /\ exposure (@exif_of_stdout pow_halves "X||4||0.5||800") = "1/1"
  /\ exposure (@exif_of_stdout pow_halves "X||4||7.5||800") = "1/181"
  /\ exposure (@exif_of_stdout pow_halves "X||4||0||800") = "1s"
  /\ exposure (@exif_of_stdout pow_halves "X||4||-1||800") = "2s"
  /\ exposure (@exif_of_stdout pow_halves "X||4||-0.5||800") = "1.4s"
  /\ exposure (@exif_of_stdout pow_halves "X||4||-1.5||800") = "2.8s".
Proof.
  split; [|split; [|split; [|split; [|split; [|split; [|split]]]]]].
  - pose proof (proj1 (@exposure_from_shutter_speed pow_halves "X||4||8||800" "8"
                         (Number "8") eq_refl eq_refl eq_refl)
                      ltac:(vm_compute; reflexivity)) as H.
    whole H (S754_finite false 4503599627370496 (-44)).
  - pose proof (proj1 (@exposure_from_shutter_speed pow_halves "X||4||1.5||800" "1.5"
                         (Number "1.5") eq_refl eq_refl eq_refl)
                      ltac:(vm_compute; reflexivity)) as H.
    nearest_whole H (S754_finite false 6369051672525772 (-51)) 3.
  - pose proof (proj1 (@exposure_from_shutter_speed pow_halves "X||4||0.5||800" "0.5"
                         (Number "0.5") eq_refl eq_refl eq_refl)
                      ltac:(vm_compute; reflexivity)) as H.
    nearest_whole H (S754_finite false 6369051672525772 (-52)) 1.
  - pose proof (proj1 (@exposure_from_shutter_speed pow_halves "X||4||7.5||800" "7.5"
                         (Number "7.5") eq_refl eq_refl eq_refl)
                      ltac:(vm_compute; reflexivity)) as H.
    nearest_whole H (S754_finite false 6369051672525772 (-45)) 181.
  - pose proof (proj2 (@exposure_from_shutter_speed pow_halves "X||4||0||800" "0"
                         (Number "0") eq_refl eq_refl eq_refl)
                      ltac:(vm_compute; reflexivity)
                      ltac:(vm_compute; reflexivity)) as H.
    seconds H (S754_finite false 4503599627370496 (-52)) 10.
  - pose proof (proj2 (@exposure_from_shutter_speed pow_halves "X||4||-1||800" "-1"
                         (Number "-1") eq_refl eq_refl eq_refl)
                      ltac:(vm_compute; reflexivity)
                      ltac:(vm_compute; reflexivity)) as H.
    seconds H (S754_finite false 4503599627370496 (-51)) 20.
  - pose proof (proj2 (@exposure_from_shutter_speed pow_halves "X||4||-0.5||800" "-0.5"
                         (Number "-0.5") eq_refl eq_refl eq_refl)
                      ltac:(vm_compute; reflexivity)
                      ltac:(vm_compute; reflexivity)) as H.
    seconds H (S754_finite false 6369051672525773 (-52)) 14.
  - pose proof (proj2 (@exposure_from_shutter_speed pow_halves "X||4||-1.5||800" "-1.5"
                         (Number "-1.5") eq_refl eq_refl eq_refl)
                      ltac:(vm_compute; reflexivity)
                      ltac:(vm_compute; reflexivity)) as H.
    seconds H (S754_finite false 6369051672525773 (-51)) 28.
Defined.

(** C1, where the claim fails. The direct f-number 1e21/1 holds a slash
    and is accepted by [rationalToFloat] as the Number that is [10 ^ 21]
    exactly; to one decimal place that is a one with twenty-one zeros, and
    the record shows 1e+21: from [10 ^ 21] on [toFixed(1)] gives the
    exponent notation.  An aperture value of 140, whose power is a little
    more than two to the power 70, is shown with an exponent too. *)
Theorem f_number_in_exponent_notation :
  let stdout := "X|1e21/1|||||" in
  let rf := S754_finite false 7629394531250000 17 in
  exif_fields stdout !! 1%nat = Some "1e21/1"
  /\ includes "/" "1e21/1" = true
  /\ rationalToFloat "1e21/1" = Some rf
  /\ numerator 7629394531250000 17 = 10 ^ 21 * denominator 17
  /\ one_decimal (10 * 10 ^ 21) = "1000000000000000000000"
  /\ fNumber (exif_of_stdout stdout) = "1e+21"
  /\ rationalToFloat "140" = Some (Number "140")
  /\ ends_with "e+21" (fNumber (exif_of_stdout "X||140||||")) = true
  /\ ~ to_one_decimal rf "1e+21".
Proof.
  cbv zeta. do 8 (split; [vm_compute; reflexivity|]).
  intros (n & Hn & Hs).
  rewrite (nearest_unique (10 * numerator 7629394531250000 17) (denominator 17)
             n (10 * 10 ^ 21) ltac:(vm_compute; reflexivity) Hn
             ltac:(vm_compute; split; [reflexivity|discriminate])) in Hs.
  vm_compute in Hs. discriminate Hs.
Qed.

(** C2, where the claim fails. The shutter speed value -70 gives
    [t = 2 ^ 70], which is at least one; to one decimal place that is
    1180591620717411303424, and the record shows the exponent notation
    followed by [s]. *)
Theorem exposure_in_exponent_notation :
  let stdout := "X||||-70||" in
  let t := Math_pow lit_2 (neg (Number "-70")) in
  truthy_opt (exif_fields stdout !! 3%nat) = false
  /\ exif_fields stdout !! 4%nat = Some "-70"
  /\ rationalToFloat "-70" = Some (Number "-70")
  /\ t = S754_finite false 4503599627370496 18
  /\ numerator 4503599627370496 18 = 2 ^ 70
  /\ denominator 18 = 1
  /\ geb t lit_1 = true
  /\ one_decimal (10 * 2 ^ 70) = "1180591620717411303424"
  /\ exposure (exif_of_stdout stdout) = "1.1805916207174113e+21s"
  /\ ~ to_one_decimal (S754_finite false 4503599627370496 18)
                      "1.1805916207174113e+21".
Proof.
  cbv zeta. do 9 (split; [vm_compute; reflexivity|]).
  intros (n & Hn & Hs).
  rewrite (nearest_unique (10 * numerator 4503599627370496 18) (denominator 18)
             n (10 * 2 ^ 70) ltac:(vm_compute; reflexivity) Hn
             ltac:(vm_compute; split; [reflexivity|discriminate])) in Hs.
  vm_compute in Hs. discriminate Hs.
Qed.

Lemma bare_exposure_reformat_witness :
  exposure (exif_of_stdout "X|||0.004|||") = "1/250"
  /\ exposure (exif_of_stdout "X|||2.50|||") = "2.5s".
Proof.
  split.
  - etransitivity;
      [apply (proj1 (bare_exposure_reformat "X|||0.004|||" "0.004"
                       eq_refl eq_refl eq_refl eq_refl))|];
      vm_compute; reflexivity.
  - etransitivity;
      [apply (proj2 (bare_exposure_reformat "X|||2.50|||" "2.50"
                       eq_refl eq_refl eq_refl eq_refl))|];
      vm_compute; reflexivity.
Defined.

(** C3, where the code departs from it. A direct exposure of 1.75 holds no
    slash, reads as a finite Number and is at least 1; the rule of the
    derivation from the shutter speed, one decimal place, gives 1.8s, and
    the record shows 1.75s: the re-format prints the Number as it is. *)
Theorem bare_exposure_not_rounded :
  let stdout := "X|||1.75|||" in
  let t := Number "1.75" in
  exif_fields stdout !! 3%nat = Some "1.75"
  /\ includes "/" "1.75" = false
  /\ isFinite t = true
  /\ geb t lit_1 = true
  /\ exposure (exif_of_stdout stdout) = "1.75s"
  /\ fixed1 t +:+ "s" = "1.8s"
  /\ exposure (exif_of_stdout stdout) <> fixed1 t +:+ "s".
Proof. vm_compute. repeat split; discriminate. Qed.

Lemma bar_geometry_witness :
  let g := geometry {| w := Some (Number "1024"); h := Some (Number "30") |}
                    (Some lit_14) in
  ps g = lit_14 /\ y0 g = lit_0.
Proof.
  pose proof (bar_geometry (Number "1024") (Number "30") (Some lit_14))
    as [Hps [_ [_ [_ Hy]]]].
  split.
  - apply (Hps lit_14); reflexivity.
  - apply Hy. vm_compute. reflexivity.
Defined.

(** An override of zero is given and is not the point size. *)
Lemma zero_override_is_not_used :
  let g := geometry {| w := Some (Number "1024"); h := Some (Number "683") |}
                    (Some lit_0) in
  ps g = Number "29" /\ ps g <> lit_0.
Proof. vm_compute. split; [reflexivity|discriminate]. Qed.

Lemma readExif_outcome_witness : model (exif_of_stdout "||||||") = "Camera".
Proof.
  destruct (@readExif_outcome pow_model blank "images/a.jpg" empty_world)
    as (_ & Hmodel & _).
  apply Hmodel. reflexivity.
Defined.

(** The query fails and [readExif] throws. *)
Lemma readExif_raises :
  @Pipeline.readExif pow_model unreadable "images/a.jpg" empty_world
  = (Throw "Command failed: unreadable", tick empty_world,
     [Exec (ReadMetadata "images/a.jpg") (Fails "Command failed: unreadable")]).
Proof. reflexivity. Qed.


Lemma temporaries_after_processing_witness :
  no_temporaries "a.jpg"
    (snd (fst (@Pipeline.process pow_model healthy "a.jpg" empty_world))).
Proof.
  destruct (@Pipeline.process pow_model healthy "a.jpg" empty_world)
    as [[r w'] t] eqn:E.
  eapply (proj1 (proj1 (@temporaries_after_processing pow_model healthy)
                       "a.jpg" empty_world r w' t E)).
  vm_compute. reflexivity.
Defined.

(** The resize fails after the normalisation has written the temporary
    copy: the processing of the file ends and the copy is still there. *)
Lemma temporary_left_behind :
  let ran := @Pipeline.process pow_model resize_fails "a.jpg" empty_world in
  fst (fst ran) = Return tt
  /\ files empty_world !! Pipeline.temp "a.jpg" = None
  /\ files (snd (fst ran)) !! Pipeline.temp "a.jpg"
     = Some (Image (Convert "magick" "images/a.jpg" "-auto-orient -strip"
                            "images/temp_a.jpg")).
Proof. vm_compute. repeat split. Qed.

Lemma metadata_read_from_original_witness :
  Forall (honours_original "a.jpg")
         (snd (@Pipeline.process pow_model resize_fails "a.jpg" empty_world)).
Proof.
  destruct (@Pipeline.process pow_model resize_fails "a.jpg" empty_world)
    as [[r w'] t] eqn:E.
  exact (proj1 (@metadata_read_from_original pow_model resize_fails
                  "a.jpg" empty_world r w' t E)).
Defined.

End Runs.
End Claims.

(** * Further properties of the code *)

Module Properties.
Import JsString JsNumber Exif Watermark Shell Del Vocabulary.
Import StringFacts NumberFacts FloatFacts ExifFacts ShellFacts TaskFacts.
Import TextFacts ParseFacts FormatFacts OrderFacts BatchFacts SweepFacts RunFacts.
Import ReadingFacts.

(** ** [rationalToFloat] *)

(** X1. For a string that holds a slash, [rationalToFloat] looks at the
    first two parts only: it gives the quotient of the two when the second
    reads as a Number that is neither zero nor NaN, and [null] otherwise;
    the string as a whole never reads as a Number, so nothing else comes
    back. *)
Theorem rationalToFloat_of_ratio (s : string) :
  includes "/" s = true ->
  exists a b rest,
    split "/" s = a :: b :: rest
    /\ rationalToFloat s
       = if JsNumber.truthy (Number b) then Some (div (Number a) (Number b))
         else None.
Proof.
  intros Hs. destruct (split_two "/" s Hs) as (a & b & rest & E).
  exists a, b, rest. split; [exact E|].
  unfold rationalToFloat. rewrite (includes_truthy _ _ Hs), Hs, E.
  cbn [negb map]. destruct (JsNumber.truthy (Number b)); [reflexivity|].
  rewrite (Number_slash s Hs). reflexivity.
Qed.

Lemma rationalToFloat_of_ratio_witness :
  exists a b rest,
    split "/" "1/0/3" = a :: b :: rest
    /\ rationalToFloat "1/0/3"
       = if JsNumber.truthy (Number b) then Some (div (Number a) (Number b))
         else None.
Proof. apply (rationalToFloat_of_ratio "1/0/3"). reflexivity. Defined.

(** ** The record of [readExif] *)

Section Record.
Context `{MathLib}.

(** X2. Whatever the query prints, the exposure of the record is never a
    bare number: it is empty, or it holds a slash, or it does not read as a
    finite Number. *)
Theorem exposure_is_never_a_bare_number (stdout : string) :
  let e := exposure (exif_of_stdout stdout) in
  e = "" \/ includes "/" e = true \/ isFinite (Number e) = false.
Proof.
  unfold exif_of_stdout. cbn [exposure].
  match goal with
  | |- context [JsString.or_default (match ?o with Some _ => _ | None => _ end) ""] =>
      generalize o
  end.
  intros [e|]; [|left; reflexivity].
  destruct (JsString.truthy e) eqn:Ht; cbn [andb].
  - destruct (includes "/" e) eqn:Hs; cbn [negb].
    + right. left. rewrite or_default_empty. exact Hs.
    + destruct (isFinite (Number e)) eqn:Hf.
      * rewrite or_default_empty. destruct (ltb (Number e) lit_1).
        -- right. left. reflexivity.
        -- right. right. rewrite Number_s. reflexivity.
      * right. right. rewrite or_default_empty. exact Hf.
  - left. destruct e; [reflexivity|discriminate Ht].
Qed.

(** X3. Whatever the query prints, the model of the record is not empty,
    and an f-number that still holds a slash is one [rationalToFloat]
    rejects: every rational it accepts has been turned into a decimal. *)
Theorem model_and_f_number_are_normal (stdout : string) :
  let r := exif_of_stdout stdout in
  JsString.truthy (model r) = true
  /\ (includes "/" (fNumber r) = false \/ rationalToFloat (fNumber r) = None).
Proof.
  unfold exif_of_stdout. cbn [model fNumber]. split.
  - destruct (exif_fields stdout !! 0%nat) as [[|c m]|]; reflexivity.
  - match goal with
    | |- context [JsString.or_default (match ?o with Some _ => _ | None => _ end) ""] =>
        generalize o
    end.
    intros [f|]; [|left; reflexivity].
    destruct (includes "/" f) eqn:Hs.
    + rewrite (includes_truthy _ _ Hs). cbn [andb].
      destruct (rationalToFloat f) as [rf|] eqn:Hrf.
      * left. rewrite or_default_empty. apply includes_fixed1.
      * right. rewrite or_default_empty. exact Hrf.
    + left. rewrite andb_false_r, or_default_empty. exact Hs.
Qed.

(** X4. A value the camera gives directly is shown as it is, whatever the
    fallback field holds: a model that is not empty, an f-number that is
    not empty and holds no slash, an exposure that holds a slash, and a
    first sensitivity field that is not empty.  When the first sensitivity
    field is empty or missing, the second one is shown. *)
Theorem direct_values_are_kept (stdout : string) :
  (forall m, exif_fields stdout !! 0%nat = Some m -> JsString.truthy m = true ->
             model (exif_of_stdout stdout) = m)
  /\ (forall f, exif_fields stdout !! 1%nat = Some f -> JsString.truthy f = true ->
                includes "/" f = false -> fNumber (exif_of_stdout stdout) = f)
  /\ (forall e, exif_fields stdout !! 3%nat = Some e -> includes "/" e = true ->
                exposure (exif_of_stdout stdout) = e)
  /\ (forall a, exif_fields stdout !! 5%nat = Some a -> JsString.truthy a = true ->
                iso (exif_of_stdout stdout) = a)
  /\ (forall b, truthy_opt (exif_fields stdout !! 5%nat) = false ->
                exif_fields stdout !! 6%nat = Some b ->
                iso (exif_of_stdout stdout) = b).
Proof.
  unfold exif_of_stdout. cbn [model fNumber exposure iso]. repeat split.
  - intros m -> Hm. cbn [JsString.or_default]. rewrite Hm. reflexivity.
  - intros f -> Hf Hs. cbn [truthy_opt]. rewrite Hf. cbn [negb andb].
    rewrite Hs, andb_false_r. apply or_default_empty.
  - intros e -> Hs. cbn [truthy_opt]. rewrite (includes_truthy _ _ Hs).
    cbn [negb andb]. rewrite Hs. cbn [negb andb]. rewrite ?andb_false_r.
    apply or_default_empty.
  - intros a -> Ha. cbn [JsString.or_default]. rewrite Ha. reflexivity.
  - intros b Ha ->.
    destruct (exif_fields stdout !! 5%nat) as [[|c a]|]; try discriminate Ha;
      destruct b; reflexivity.
Qed.

(** X5. A fallback field that [rationalToFloat] accepts as NaN is shown:
    with a [Math.pow] that gives NaN for an exponent that is NaN, the
    f-number of the record is the text NaN and the exposure is the text
    NaNs. *)
Theorem not_a_number_is_shown (stdout : string) :
  Math_pow Math_SQRT2 NaN = NaN ->
  Math_pow lit_2 NaN = NaN ->
  (forall av, truthy_opt (exif_fields stdout !! 1%nat) = false ->
              exif_fields stdout !! 2%nat = Some av ->
              rationalToFloat av = Some NaN ->
              fNumber (exif_of_stdout stdout) = "NaN")
  /\ (forall ssv, truthy_opt (exif_fields stdout !! 3%nat) = false ->
                  exif_fields stdout !! 4%nat = Some ssv ->
                  rationalToFloat ssv = Some NaN ->
                  exposure (exif_of_stdout stdout) = "NaNs").
Proof.
  intros Hsqrt Htwo. unfold exif_of_stdout. cbn [fNumber exposure]. split.
  - intros av Hf -> Hav. rewrite Hf. cbn [truthy_opt negb andb mbind option_bind].
    rewrite (rationalToFloat_truthy _ _ Hav), Hav, Hsqrt. reflexivity.
  - intros ssv He -> Hssv. rewrite He. cbn [truthy_opt negb andb mbind option_bind].
    rewrite (rationalToFloat_truthy _ _ Hssv), Hssv.
    change (neg NaN) with NaN. rewrite Htwo. reflexivity.
Qed.

(** X6. A direct exposure that reads as zero is shown as a fraction of
    infinity: [1/Infinity] for [+0] and [1/-Infinity] for [-0]. *)
Theorem zero_exposure_is_shown_as_infinity (stdout e : string) (s : bool) :
  exif_fields stdout !! 3%nat = Some e ->
  JsString.truthy e = true ->
  includes "/" e = false ->
  Number e = S754_zero s ->
  exposure (exif_of_stdout stdout) = if s then "1/-Infinity" else "1/Infinity".
Proof.
  intros He Ht Hs Hz. unfold exif_of_stdout. cbn [exposure].
  rewrite He. cbn [truthy_opt]. rewrite Ht. cbn [negb andb].
  rewrite Ht, Hs, Hz. cbn [negb andb isFinite].
  destruct s; reflexivity.
Qed.

End Record.

(** X7. The query asks for its values joined by a bar, and the reading
    splits at the bar: for values that hold no bar, the fields read back
    are the values, each trimmed, in order and as many. *)
Theorem fields_of_joined_values (values : list string) :
  (0 < length values)%nat ->
  forallb (fun v => negb (includes "|" v)) values = true ->
  exif_fields (join "|" values) = map trim values.
Proof.
  intros Hlen Hall. unfold exif_fields.
  rewrite (split_trim "|" _ eq_refl), split_join; [reflexivity| |].
  - destruct values; [cbn in Hlen; lia|discriminate].
  - clear Hlen. induction values as [|v values IH]; [apply Forall_nil_2|].
    cbn [forallb] in Hall. apply andb_prop in Hall as [Hv Hall].
    apply Forall_cons_2; [apply negb_true_iff, Hv|apply IH, Hall].
Qed.

(** ** [imageDims] and the geometry *)

(** X8. When the probe prints two natural numbers with a space between
    them, [imageDims] gives the Numbers nearest to the two, the first as
    the width and the second as the height. *)
Theorem imageDims_reads_the_probe (a b : Z) :
  0 <= a -> 0 <= b ->
  dims_of_stdout (digits a +:+ " " +:+ digits b)
  = {| w := Some (of_Z a); h := Some (of_Z b) |}.
Proof.
  intros Ha Hb. unfold dims_of_stdout.
  pose proof (digits_no_white a Ha) as Wa. pose proof (digits_no_white b Hb) as Wb.
  assert (Na : digits a <> EmptyString)
    by (destruct (digits_cons a) as (? & ? & ->); discriminate).
  assert (Nb : digits b <> EmptyString)
    by (destruct (digits_cons b) as (? & ? & ->); discriminate).
  assert (Ht : JsString.truthy (digits a +:+ " " +:+ digits b) = true)
    by (destruct (digits_cons a) as (? & ? & ->); reflexivity).
  rewrite Ht, trim_two, split_ws_two by assumption.
  cbn [map lookup list_lookup]. rewrite !Number_digits by assumption. reflexivity.
Qed.

(** X9. The edge of [imageDims]: an empty answer of the probe reads as 0
    by 0; an answer that is one token leaves the height undefined, and then
    the top of the bar is NaN and the command shows NaN and undefined. *)
Theorem height_missing_from_the_probe (token : string) (o : option num) :
  JsString.truthy token = true ->
  no_white token = true ->
  let d := dims_of_stdout token in
  let g := geometry d o in
  dims_of_stdout "" = {| w := Some lit_0; h := Some lit_0 |}
  /\ w d = Some (Number token)
  /\ h d = None
  /\ y0 g = NaN
  /\ toString (y0 g) = "NaN"
  /\ show (h d) = "undefined".
Proof.
  intros Ht Hw d g.
  assert (Ed : d = {| w := Some (Number token); h := None |}).
  { unfold d, dims_of_stdout. rewrite Ht, (no_white_trim _ Hw).
    unfold split_ws. rewrite (split_ws_token _ Hw). reflexivity. }
  assert (Ey : y0 g = NaN).
  { unfold g. rewrite Ed. unfold geometry. cbn [y0 h to_num default].
    reflexivity. }
  rewrite Ey. rewrite Ed. repeat split.
Qed.

(** X10. Whatever the probe answers and whatever override is given, the bar
    height is NaN or at least 50, the top of the bar is NaN or at least 0
    and then without a minus sign, and the point size computed from the
    width is NaN or at least 14. *)
Theorem bar_stays_within_bounds (d : dims) (o : option num) :
  let g := geometry d o in
  (barHeight g = NaN \/ geb (barHeight g) lit_50 = true)
  /\ (y0 g = NaN \/ geb (y0 g) lit_0 = true /\ sign_of (y0 g) = Some false)
  /\ (ps (geometry d None) = NaN \/ geb (ps (geometry d None)) lit_14 = true).
Proof.
  cbn [geometry barHeight y0 ps JsNumber.or_default]. repeat split.
  - apply Math_max_ge.
  - match goal with |- context [Math_max lit_0 ?x] => generalize x end.
    intros x. destruct (Math_max_ge lit_0 x) as [E|E]; [left; exact E|].
    destruct (Math_max_zero_sign x) as [E'|E']; [left; exact E'|].
    right. split; assumption.
  - apply Math_max_ge.
Qed.

(** ** The annotate text *)

(** X11. The escaping of the annotate text loses nothing and leaves no
    double quote bare: reading a backslash as standing for the character
    after it gives the text back, no double quote of the result is without
    a backslash in front of it, and the result is longer than the text by
    the number of its double quotes and backslashes. *)
Theorem escaping_is_faithful (text : string) :
  unescape (escape_quotes text) = text
  /\ bare_quote (escape_quotes text) = false
  /\ String.length (escape_quotes text)
     = (String.length text + count_char (ascii_of_nat 34) text
        + count_char "\"%char text)%nat.
Proof.
  split; [apply unescape_escape|].
  split; [apply bare_quote_escape|apply length_escape].
Qed.

(** X12. The escaping touches nothing but double quotes and backslashes: a
    text that holds neither goes into the command as it is, a dollar sign
    or a backquote included. *)
Theorem escaping_leaves_other_characters (text : string) :
  all_chars plain_char text = true -> escape_quotes text = text.
Proof. apply escape_plain. Qed.

Lemma escaping_leaves_other_characters_witness :
  escape_quotes "$(id) `id`" = "$(id) `id`".
Proof. apply (escaping_leaves_other_characters "$(id) `id`"). reflexivity. Defined.

(** ** Decimals with one place *)

(** X13. A Number through [toFixed(1)] with a final [.0] removed never
    ends in [.0]. *)
Theorem fixed1_has_no_trailing_zero (x : num) : ends_with ".0" (fixed1 x) = false.
Proof. apply strip_dot0_clean, dot_toFixed1. Qed.

(** ** The filter of the task *)

(** X14. The filter of the task accepts a name exactly when the name ends
    with one of the five extensions, in any letter case. *)
Theorem filter_accepts_by_extension (f : string) :
  is_image f = true
  <-> exists stem ext, f = stem +:+ ext /\ In (lower_string ext) extensions.
Proof. apply is_image_iff. Qed.

Section PureRuns.
#[local] Existing Instance pow_model.

Lemma direct_values_are_kept_witness :
  model (exif_of_stdout camera_output) = "Nikon D90"
  /\ fNumber (exif_of_stdout camera_output) = "2.8"
  /\ exposure (exif_of_stdout camera_output) = "1/250"
  /\ iso (exif_of_stdout camera_output) = "400".
Proof.
  destruct (direct_values_are_kept camera_output) as (Hm & Hf & He & Hi).
  split; [apply Hm; reflexivity|].
  split; [apply Hf; reflexivity|].
  split; [apply He; reflexivity|]. apply (proj1 Hi); reflexivity.
Defined.

Lemma not_a_number_is_shown_witness :
  fNumber (exif_of_stdout "X||x/2||x/2||") = "NaN"
  /\ exposure (exif_of_stdout "X||x/2||x/2||") = "NaNs".
Proof.
  destruct (@not_a_number_is_shown pow_model "X||x/2||x/2||" eq_refl eq_refl)
    as [Hf He].
  split; [apply (Hf "x/2"); reflexivity|apply (He "x/2"); reflexivity].
Defined.

Lemma zero_exposure_is_shown_as_infinity_witness :
  exposure (exif_of_stdout "X|||0|||") = "1/Infinity".
Proof.
  apply (@zero_exposure_is_shown_as_infinity pow_model "X|||0|||" "0" false);
    reflexivity.
Defined.

Lemma fields_of_joined_values_witness :
  exif_fields (join "|" ["Nikon D90 "; "2.8"; ""; " 1/250"; ""; "400"; ""])
  = ["Nikon D90"; "2.8"; ""; "1/250"; ""; "400"; ""].
Proof.
  etransitivity;
    [apply (fields_of_joined_values
              ["Nikon D90 "; "2.8"; ""; " 1/250"; ""; "400"; ""]);
     [simpl; lia|reflexivity]|].
  reflexivity.
Defined.

Lemma imageDims_reads_the_probe_witness :
  dims_of_stdout "1024 683"
  = {| w := Some (of_Z 1024); h := Some (of_Z 683) |}.
Proof. apply (imageDims_reads_the_probe 1024 683); lia. Defined.

Lemma height_missing_from_the_probe_witness :
  h (dims_of_stdout "1024") = None
  /\ y0 (geometry (dims_of_stdout "1024") None) = NaN.
Proof.
  destruct (height_missing_from_the_probe "1024" None eq_refl eq_refl)
    as (_ & _ & Hh & Hy & _).
  split; assumption.
Defined.

End PureRuns.

(** ** The tasks *)

Section Tasks.
Context `{MathLib} `{Toolchain}.

(** X15. When the version command of ImageMagick fails, the task with the
    watermark throws the fixed message about ImageMagick, whatever the
    command said, after that one command: nothing is logged, no file and
    no directory is touched, and in the [resize] series the [delete] task
    does not run. *)
Theorem missing_tool_stops_the_task w message :
  run (clock w) Version = Fails message ->
  Pipeline.resize_images w
  = (Throw Pipeline.magick_missing, tick w, [Exec Version (Fails message)])
  /\ Resize.resize w
     = (Throw Pipeline.magick_missing, tick w, [Exec Version (Fails message)]).
Proof.
  intros Hv. pose proof (pipeline_task_shape w) as E. rewrite Hv in E.
  split; [exact E|]. unfold Resize.resize. rewrite series_two, E. reflexivity.
Qed.

(** X16. With nothing to do the two tasks return at once.  When the
    directory of the images is missing, an error is logged; when no name of
    the listing passes the filter, a warning is logged; in both cases no
    file and no directory is made, and the task with the watermark has run
    the version command only. *)
Theorem nothing_to_do w :
  (images w = None ->
   Legacy.resize_images w = (Return tt, w, [Log MissingDirectory])
   /\ forall out, run (clock w) Version = Succeeds out ->
        Pipeline.resize_images w
        = (Return tt, tick w, [Exec Version (Succeeds out); Log MissingDirectory]))
  /\ (forall names, images w = Some names -> List.filter is_image names = [] ->
      Legacy.resize_images w = (Return tt, w, [Log NoImages])
      /\ forall out, run (clock w) Version = Succeeds out ->
           Pipeline.resize_images w
           = (Return tt, tick w, [Exec Version (Succeeds out); Log NoImages])).
Proof.
  pose proof (pipeline_task_shape w) as P. pose proof (legacy_task_shape w) as L.
  split.
  - intros Hi. rewrite Hi in *. split; [exact L|].
    intros out Hv. rewrite Hv in P. exact P.
  - intros names Hi Hf. rewrite Hi, Hf in *. split; [exact L|].
    intros out Hv. rewrite Hv in P. exact P.
Qed.



(** X19. For a batch whose names are made of the portable file name
    characters (letters, digits, dots, underscores and hyphens) and a
    metadata query that prints neither a dollar sign nor a backquote:
    every command line either task runs is taken by the shell as it is
    written, its words being the words of the tool, the paths the task
    computed, each as one word, and the words of the options; and, a
    command that succeeds writing its destination and nothing else,
    neither task changes a file other than the five paths of the names it
    processes, the three temporaries in the directory of the images and
    the two outputs.  A path that is none of these for any name of the
    batch holds after the run what it held before, whether the run returns
    or throws. *)
Theorem tasks_change_their_own_paths_only w p :
  (forall f, f ∈ batch w -> portable f = true) ->
  quiet_metadata ->
  (forall f, f ∈ batch w -> p ∉ touched f) ->
  (forall r w' t, Pipeline.resize_images w = (r, w', t) ->
                  Forall literal (commands t) /\ files w' !! p = files w !! p)
  /\ (forall r w' t, Legacy.resize_images w = (r, w', t) ->
                     Forall literal (commands t)
                     /\ files w' !! p = files w !! p).
Proof.
  intros Hb Hq Hp. split; intros r w' t E; split.
  - exact (pipeline_task_literal w r w' t Hb Hq E).
  - exact (pipeline_task_frame w p r w' t Hp E).
  - exact (legacy_task_literal w r w' t Hb E).
  - exact (legacy_task_frame w p r w' t Hp E).
Qed.

(** X20. For a batch of portable names and a metadata query that prints
    neither a dollar sign nor a backquote, so that every command line is
    taken by the shell as it is written: the original of an entry whose
    name holds no slash and does not start with [temp_] holds after either
    task what it held before, whatever else the directory lists and
    whatever fails. *)
Theorem originals_are_left_alone w g :
  (forall f, f ∈ batch w -> portable f = true) ->
  quiet_metadata ->
  own_name g = true ->
  (forall r w' t, Pipeline.resize_images w = (r, w', t) ->
                  Forall literal (commands t)
                  /\ files w' !! Pipeline.orig g = files w !! Pipeline.orig g)
  /\ (forall r w' t, Legacy.resize_images w = (r, w', t) ->
                     Forall literal (commands t)
                     /\ files w' !! Legacy.filePath g
                        = files w !! Legacy.filePath g).
Proof.
  intros Hb Hq Hg. split; intros r w' t E; split.
  - exact (pipeline_task_literal w r w' t Hb Hq E).
  - apply (pipeline_task_frame w _ r w' t); [|exact E].
    intros f _. apply orig_not_touched, Hg.
  - exact (legacy_task_literal w r w' t Hb E).
  - apply (legacy_task_frame w _ r w' t); [|exact E].
    intros f _. apply (orig_not_touched g f Hg).
Qed.

(** X21. The temporary of a file sits in the directory of the images under
    the name of the file with [temp_] in front.  When the primary path of a
    file returns, nothing is left at that path: an original of that name,
    if the directory had one, has been overwritten and removed.  This holds
    in both tasks. *)
Theorem processing_takes_the_temp_name file w :
  (forall r w' t a w1 t1,
      Pipeline.process file w = (r, w', t) ->
      Pipeline.primary file w = (Return a, w1, t1) ->
      files w' !! Pipeline.orig ("temp_" +:+ file) = None)
  /\ (forall r w' t a w1 t1,
         Legacy.process file w = (r, w', t) ->
         Legacy.primary file w = (Return a, w1, t1) ->
         files w' !! Legacy.filePath ("temp_" +:+ file) = None).
Proof.
  split; intros r w' t a w1 t1 E E1.
  - change (Pipeline.process file)
      with (guarded file (Pipeline.outFull file) (Pipeline.outThumb file)
                    (Pipeline.primary file) (Pipeline.fallback file)) in E.
    rewrite guarded_eq, E1 in E. injection E as <- <- <-.
    destruct a.
    exact (proj1 (proj2 (proj2 (proj2 (post_elim _ _ _ _ _ _ (primary_run file w) E1)))
                        eq_refl)).
  - change (Legacy.process file)
      with (guarded file (Legacy.fullSizePath file) (Legacy.thumbPath file)
                    (Legacy.primary file) (Legacy.fallback file)) in E.
    rewrite guarded_eq, E1 in E. injection E as <- <- <-.
    destruct a.
    exact (proj2 (proj2 (post_elim _ _ _ _ _ _ (legacy_primary_run file w) E1))
                 eq_refl).
Qed.

(** X22. What the primary path of the task with the watermark leaves when
    it returns.  The full output is the result of the compositing command
    that reads the resized full copy; the text of that command comes from
    the metadata the query on the original printed, and its geometry from
    the probe of the resized copy.  The thumb output is a copy of the
    resized thumb copy: the primary path puts no watermark on it.  The log
    of the path ends with the line that reports the file done. *)
Theorem primary_path_leaves file w a w1 t1 :
  Pipeline.primary file w = (Return a, w1, t1) ->
  exists meta probe,
    run (clock w) (ReadMetadata (Pipeline.orig file)) = Succeeds meta
    /\ run (5 + clock w) (ReadDims (Pipeline.tempFull file)) = Succeeds probe
    /\ files w1 !! Pipeline.outFull file
       = Some (Image (Convert "magick" (Pipeline.tempFull file)
                        (composite_args (dims_of_stdout probe)
                           (geometry (dims_of_stdout probe) None)
                           (text (exif_of_stdout meta)))
                        (Pipeline.outFull file)))
    /\ files w1 !! Pipeline.outThumb file
       = Some (Image (Convert "magick" (Pipeline.temp file) "-resize 512x512"
                        (Pipeline.tempThumb file)))
    /\ last t1 = Some (Log (Done file)).
Proof.
  intros E. destruct a.
  exact (post_elim _ _ _ _ _ _ (primary_result file w) E eq_refl).
Qed.



(** ** The [delete] task and the [resize] series *)

(** X25. The [delete] task of either gulpfile leaves the two outputs of
    every name as they are: no pattern reaches below the two output
    directories. *)
Theorem delete_keeps_the_outputs w f :
  exists w1 w2,
    Resize.delete w = (Return tt, w1, [])
    /\ LegacyResize.delete w = (Return tt, w2, [])
    /\ files w1 !! Pipeline.outFull f = files w !! Pipeline.outFull f
    /\ files w1 !! Pipeline.outThumb f = files w !! Pipeline.outThumb f
    /\ files w2 !! Legacy.fullSizePath f = files w !! Legacy.fullSizePath f
    /\ files w2 !! Legacy.thumbPath f = files w !! Legacy.thumbPath f.
Proof.
  destruct (del_run ["images/*.*"; "images/temp_*"] w) as (w1 & E1 & K1 & _).
  destruct (del_run ["images/*.*"] w) as (w2 & E2 & K2 & _).
  exists w1, w2. split; [exact E1|]. split; [exact E2|].
  repeat split; first [apply K1|apply K2];
    apply (outputs_not_swept _ f); auto; unfold outputs;
    first [left|right; left].
Qed.



End Tasks.


(** X29. The options of the compositing command as the shell reads them.
    For every probe, geometry and text that holds neither a dollar sign
    nor a backquote, the options are fifteen words: the fill and its
    colour, the draw and its rectangle, the gravity, the point size, the
    kerning, the second fill, the annotate with its offset, and last the
    text, which arrives as one word and as it was before the escaping,
    whatever double quotes and backslashes it holds. *)
Theorem annotate_text_is_one_word (d : dims) (g : bar) (txt : string) :
  inert txt = true ->
  sh_words (composite_args d g txt) = Some (composite_words d g txt).
Proof.
  intros Ht. rewrite (sh_words_reads _ _ _ (reads_composite d g txt Ht)).
  reflexivity.
Qed.
(** ** Runs of the tasks on concrete inputs *)

Section TaskRuns.
#[local] Existing Instance pow_model.

Lemma missing_tool_stops_the_task_witness :
  @Resize.resize pow_model no_toolchain two_images
  = (Throw Pipeline.magick_missing, tick two_images,
     [Exec Version (Fails "magick: command not found")]).
Proof.
  apply (proj2 (@missing_tool_stops_the_task pow_model no_toolchain two_images
                  "magick: command not found" eq_refl)).
Defined.

Lemma nothing_to_do_witness :
  @Legacy.resize_images healthy no_directory
  = (Return tt, no_directory, [Log MissingDirectory])
  /\ @Pipeline.resize_images pow_model healthy no_directory
     = (Return tt, tick no_directory,
        [Exec Version (Succeeds ""); Log MissingDirectory]).
Proof.
  destruct (proj1 (@nothing_to_do pow_model healthy no_directory) eq_refl)
    as [Hl Hp].
  split; [exact Hl|apply Hp; reflexivity].
Defined.



(** The metadata the healthy toolchain prints holds neither a dollar sign
    nor a backquote, and the names of the listing are portable. *)
Lemma healthy_is_quiet : @quiet_metadata healthy.
Proof. intros n p meta [= <-]. reflexivity. Qed.

Lemma resize_fails_is_quiet : @quiet_metadata resize_fails.
Proof. intros n p meta [= <-]. reflexivity. Qed.

Lemma two_images_portable f : f ∈ batch two_images -> portable f = true.
Proof.
  intros Hf. change (f ∈ ["a.jpg"; "b.PNG"]) in Hf.
  repeat (apply elem_of_cons in Hf as [->|Hf]); [reflexivity..|].
  apply elem_of_nil in Hf. contradiction.
Qed.

Lemma tasks_change_their_own_paths_only_witness :
  let ran := @Pipeline.resize_images pow_model healthy two_images in
  Forall literal (commands (snd ran))
  /\ files (snd (fst ran)) !! "images/notes.txt" = Some (Text "n").
Proof.
  cbv zeta.
  destruct (@Pipeline.resize_images pow_model healthy two_images)
    as [[r w'] t] eqn:E.
  destruct (proj1 (@tasks_change_their_own_paths_only pow_model healthy
                     two_images "images/notes.txt"
                     two_images_portable healthy_is_quiet
                     ltac:(intros f Hf; change (f ∈ ["a.jpg"; "b.PNG"]) in Hf;
                           repeat (apply elem_of_cons in Hf as [->|Hf]);
                           [| |apply elem_of_nil in Hf; contradiction];
                           refine (bool_decide_unpack _ _); vm_compute; exact I))
                  r w' t E) as [Hl Hf].
  split; [exact Hl|]. etransitivity; [exact Hf|]. reflexivity.
Defined.

Lemma originals_are_left_alone_witness :
  let ran := @Pipeline.resize_images pow_model resize_fails two_images in
  Forall literal (commands (snd ran))
  /\ files (snd (fst ran)) !! "images/a.jpg" = Some (Text "a").
Proof.
  cbv zeta.
  destruct (@Pipeline.resize_images pow_model resize_fails two_images)
    as [[r w'] t] eqn:E.
  destruct (proj1 (@originals_are_left_alone pow_model resize_fails two_images
                     "a.jpg" two_images_portable resize_fails_is_quiet eq_refl)
                  r w' t E) as [Hl Hf].
  split; [exact Hl|]. etransitivity; [exact Hf|]. reflexivity.
Defined.

Lemma processing_takes_the_temp_name_witness :
  files (snd (fst (@Pipeline.process pow_model healthy "a.jpg"
                     {| files := {[ "images/temp_a.jpg" := Text "other" ]};
                        dirs := ∅; images := Some ["a.jpg"; "temp_a.jpg"];
                        clock := 0 |})))
    !! "images/temp_a.jpg"
  = None.
Proof.
  set (w := {| files := {[ "images/temp_a.jpg" := Text "other" ]};
               dirs := ∅; images := Some ["a.jpg"; "temp_a.jpg"]; clock := 0 |}).
  destruct (@Pipeline.process pow_model healthy "a.jpg" w) as [[r w'] t] eqn:E.
  destruct (@Pipeline.primary pow_model healthy "a.jpg" w) as [[[a|e] w1] t1] eqn:E1.
  - exact (proj1 (@processing_takes_the_temp_name pow_model healthy "a.jpg" w)
             r w' t a w1 t1 E E1).
  - vm_compute in E1. discriminate E1.
Defined.




Lemma primary_path_leaves_witness :
  files (snd (fst (@Pipeline.primary pow_model healthy "a.jpg" empty_world)))
    !! "images/thumbs/a.jpg"
  = Some (Image (Convert "magick" "images/temp_a.jpg" "-resize 512x512"
                   "images/temp_thumb_a.jpg")).
Proof.
  destruct (@Pipeline.primary pow_model healthy "a.jpg" empty_world)
    as [[[a|e] w1] t1] eqn:E; [|vm_compute in E; discriminate E].
  destruct (@primary_path_leaves pow_model healthy "a.jpg" empty_world a w1 t1 E)
    as (meta & probe & _ & _ & _ & Ht & _).
  exact Ht.
Defined.



Lemma annotate_text_is_one_word_witness :
  let d := {| w := Some (Number "1024"); h := Some (Number "683") |} in
  let txt := "Nikon " +:+ dquote +:+ "D90" +:+ dquote +:+ " C:\raw" in
  sh_words (composite_args d (geometry d None) txt)
  = Some [ "-fill"; "#00000080"; "-draw"; "rectangle 0,619 1024,683";
           "-gravity"; "southwest"; "-pointsize"; "29"; "-kerning"; "1";
           "-fill"; "white"; "-annotate"; "+20+22"; txt ].
Proof.
  cbv zeta.
  etransitivity;
    [apply (annotate_text_is_one_word
              {| w := Some (Number "1024"); h := Some (Number "683") |}
              (geometry {| w := Some (Number "1024"); h := Some (Number "683") |}
                        None)
              ("Nikon " +:+ dquote +:+ "D90" +:+ dquote +:+ " C:\raw")
              eq_refl)|].
  vm_compute. reflexivity.
Defined.

(** What the preconditions keep out.  A text with a dollar sign is not
    taken as it is written; and a name that holds a double quote closes
    the quotes of its path, so that the line has other words than the
    command is meant to run with. *)
Example text_with_a_dollar_sign :
  sh_words (composite_args {| w := Some lit_14; h := Some lit_14 |}
              (geometry {| w := Some lit_14; h := Some lit_14 |} None)
              "$(id)")
  = None.
Proof. vm_compute. reflexivity. Qed.

Example name_with_a_double_quote :
  let name := "a" +:+ dquote +:+ " x " +:+ dquote +:+ "b.jpg" in
  is_image name = true
  /\ portable name = false
  /\ sh_words (command_line (Verify "identify" (Legacy.filePath name)))
     = Some ["identify"; "-verbose"; "images/a"; "x"; "b.jpg"]
  /\ words_of (Verify "identify" (Legacy.filePath name))
     = Some ["identify"; "-verbose"; Legacy.filePath name].
Proof. vm_compute. repeat split. Qed.

End TaskRuns.
End Properties.
